(** * Intercom custom connector: attendee-to-event pipeline and publisher

    A shallow embedding of the type definitions ([lib/types]), the Intercom
    client wrapper ([lib/intercom]) and the CSV upload route of the
    connector, with the properties of the derivation and publishing
    pipeline stated over it.

    Conventions.
    - A JavaScript string is a Rocq [string]; a character stands for one
      code unit below 256 (the Latin-1 range), which is where the
      whitespace and case tables below are complete.
    - [undefined] is [None]; JavaScript truthiness of a string is
      non-emptiness.
    - Asynchronous code is sequential (every promise is awaited at once), so
      it is written in a state-and-exception monad whose state carries the
      remote system, a log of the effects performed and the caller's own
      variables.
    - A parsed CSV row is the finite map of its cells, and reading a column
      that is not a cell answers [undefined]. This is [row[column]] of the
      source except under the property names that a plain object answers
      without having them as a cell, where the source raises a [TypeError]
      that the upload route turns into its 500 answer; [readsCell] delimits
      them, and the statements that depend on it assume it. *)

From Stdlib Require Import ZArith Ascii.
From stdpp Require Import gmap strings list pretty.

(** ** JavaScript strings *)

Module Js.

(** [WhiteSpace] and [LineTerminator] code units below 256:
    TAB, LF, VT, FF, CR, SP and NBSP. *)
Definition isWhiteSpace (c : ascii) : bool :=
  match N_of_ascii c with
  | 9 | 10 | 11 | 12 | 13 | 32 | 160 => true
  | _ => false
  end%N.

Fixpoint trimStart (s : string) : string :=
  match s with
  | EmptyString => EmptyString
  | String c s' => if isWhiteSpace c then trimStart s' else s
  end.

Fixpoint trimEnd (s : string) : string :=
  match s with
  | EmptyString => EmptyString
  | String c s' =>
      match trimEnd s' with
      | EmptyString => if isWhiteSpace c then EmptyString else String c EmptyString
      | t => String c t
      end
  end.

(** [String.prototype.trim] *)
Definition trim (s : string) : string := trimEnd (trimStart s).

(** Lower-casing of one code unit: A-Z, and the Latin-1 capitals
    U+00C0..U+00DE except the multiplication sign U+00D7. *)
Definition toLowerChar (c : ascii) : ascii :=
  let n := N_of_ascii c in
  if ((65 <=? n) && (n <=? 90) ||
      (192 <=? n) && (n <=? 222) && negb (n =? 215))%N
  then ascii_of_N (n + 32) else c.

(** [String.prototype.toLowerCase] *)
Fixpoint toLowerCase (s : string) : string :=
  match s with
  | EmptyString => EmptyString
  | String c s' => String (toLowerChar c) (toLowerCase s')
  end.

(** [String.prototype.startsWith] *)
Fixpoint startsWith (s p : string) {struct p} : bool :=
  match p, s with
  | EmptyString, _ => true
  | String a p', String b s' => Ascii.eqb a b && startsWith s' p'
  | String _ _, EmptyString => false
  end.

(** [String.prototype.includes] *)
Fixpoint includes (s sub : string) : bool :=
  startsWith s sub ||
  match s with
  | EmptyString => false
  | String _ s' => includes s' sub
  end.

(** [String.prototype.indexOf] for a one-character needle; -1 when the
    character does not occur. *)
Fixpoint indexOf (s : string) (c : ascii) : Z :=
  match s with
  | EmptyString => (-1)%Z
  | String b s' =>
      if Ascii.eqb b c then 0%Z
      else let i := indexOf s' c in
           if (i =? -1)%Z then (-1)%Z else (i + 1)%Z
  end.

Fixpoint take (n : nat) (s : string) : string :=
  match n, s with
  | S n', String c s' => String c (take n' s')
  | _, _ => EmptyString
  end.

Fixpoint drop (n : nat) (s : string) : string :=
  match n, s with
  | S n', String _ s' => drop n' s'
  | _, _ => s
  end.

(** [String.prototype.substring(start, end)]: both indices are clamped to
    [0, length] and swapped when [start > end]. *)
Definition substring (s : string) (i j : Z) : string :=
  let len := Z.of_nat (String.length s) in
  let clamp x := Z.min (Z.max x 0) len in
  let a := Z.min (clamp i) (clamp j) in
  let b := Z.max (clamp i) (clamp j) in
  take (Z.to_nat (b - a)) (drop (Z.to_nat a) s).

(** Truthiness of a string, and of an optional string. *)
Definition truthy (s : string) : bool := negb (String.eqb s "").

Definition truthy_opt (o : option string) : bool :=
  match o with
  | Some s => truthy s
  | None => false
  end.

(** [o || undefined] *)
Definition or_undefined (o : option string) : option string :=
  if truthy_opt o then o else None.

(** [o || ""] *)
Definition or_empty (o : option string) : string :=
  match o with
  | Some s => s
  | None => ""
  end.

(** [Array.prototype.join] *)
Fixpoint join (sep : string) (l : list string) : string :=
  match l with
  | [] => ""
  | [x] => x
  | x :: rest => x +:+ sep +:+ join sep rest
  end.

End Js.

(** ** Data model ([lib/types]) *)

Module LumaAttendee.
Record t := mk {
  email : string;
  name : option string;
  phone_number : option string;
  registrationDate : option string;
  attendanceDate : option string;
  ticketType : option string;
  status : option string;
  hasJoinedEvent : option bool
}.
End LumaAttendee.

(** [ProcessedAttendee extends LumaAttendee]: the spread attendee and the
    two derived flags. *)
Module ProcessedAttendee.
Record t := mk {
  attendee : LumaAttendee.t;
  hasRegistration : bool;
  hasAttendance : bool
}.
End ProcessedAttendee.

Module Metadata.
Record t := mk {
  event_name : option string;
  event_date : option string;
  ticket_type : option string;
  presenter : option string
}.
End Metadata.

Module IntercomEvent.
Record t := mk {
  event_name : string;
  created_at : Z;
  email : string;
  name : option string;
  phone_number : option string;
  metadata : option Metadata.t
}.
End IntercomEvent.

Inductive EventType := RegisteredForEvent | AttendedEvent.

Definition EventType_name (k : EventType) : string :=
  match k with
  | RegisteredForEvent => "registered-for-event"
  | AttendedEvent => "attended-event"
  end.

Module ProcessingResult.
Record t := mk {
  success : bool;
  email : string;
  eventType : EventType;
  error : option string
}.
End ProcessingResult.

Module ColumnMapping.
Record t := mk {
  email : string;
  name : option string;
  phone_number : option string;
  registrationDate : option string;
  attendanceDate : option string;
  ticketType : option string;
  status : option string;
  hasJoinedEvent : option string;
  approval_status : option string
}.
End ColumnMapping.

Module EventSettings.
Record t := mk {
  eventName : option string;
  eventDate : option string;
  eventTime : option string;
  presenter : option string
}.
End EventSettings.

(** ** Attendee derivation (the upload route) *)

(** [row[column] || ""] *)
Definition cell (row : gmap string string) (column : string) : string :=
  Js.or_empty (row !! column).

(** [mapping.f ? (row[mapping.f] || "").trim() : ""] *)
Definition mapped (row : gmap string string) (column : option string) : string :=
  match column with
  | Some c => if Js.truthy c then Js.trim (cell row c) else ""
  | None => ""
  end.

Definition parseAttendee (row : gmap string string) (mapping : ColumnMapping.t)
  : option LumaAttendee.t :=
  let email := mapped row (Some (ColumnMapping.email mapping)) in
  if negb (Js.truthy email) || negb (Js.includes email "@") then None
  else
    let hasJoinedEvent :=
      match ColumnMapping.hasJoinedEvent mapping with
      | Some c =>
          if Js.truthy c then
            let value := Js.toLowerCase (Js.trim (cell row c)) in
            Some (String.eqb value "true" || String.eqb value "1" ||
                  String.eqb value "yes" || String.eqb value "y" ||
                  String.eqb value "joined")
          else None
      | None => None
      end in
    Some {|
      LumaAttendee.email := email;
      LumaAttendee.name := Some (mapped row (ColumnMapping.name mapping));
      LumaAttendee.phone_number := Some (mapped row (ColumnMapping.phone_number mapping));
      LumaAttendee.registrationDate := Some (mapped row (ColumnMapping.registrationDate mapping));
      LumaAttendee.attendanceDate := Some (mapped row (ColumnMapping.attendanceDate mapping));
      LumaAttendee.ticketType := Some (mapped row (ColumnMapping.ticketType mapping));
      LumaAttendee.status := Some (mapped row (ColumnMapping.status mapping));
      LumaAttendee.hasJoinedEvent := hasJoinedEvent
    |}.

(** [attendee.status?.toLowerCase().includes(word)]; [undefined] is falsy. *)
Definition statusIncludes (status : option string) (word : string) : bool :=
  match status with
  | Some s => Js.includes (Js.toLowerCase s) word
  | None => false
  end.

Definition classify (attendee : LumaAttendee.t) : ProcessedAttendee.t :=
  let hasRegistration :=
    Js.truthy_opt (LumaAttendee.registrationDate attendee) ||
    statusIncludes (LumaAttendee.status attendee) "registered" ||
    statusIncludes (LumaAttendee.status attendee) "registration" in
  let hasAttendance :=
    bool_decide (LumaAttendee.hasJoinedEvent attendee = Some true) ||
    Js.truthy_opt (LumaAttendee.attendanceDate attendee) ||
    statusIncludes (LumaAttendee.status attendee) "attended" ||
    statusIncludes (LumaAttendee.status attendee) "checked" ||
    statusIncludes (LumaAttendee.status attendee) "present" in
  {| ProcessedAttendee.attendee := attendee;
     ProcessedAttendee.hasRegistration := hasRegistration;
     ProcessedAttendee.hasAttendance := hasAttendance |}.

Definition processAttendees (attendees : list LumaAttendee.t)
  : list ProcessedAttendee.t :=
  map classify attendees.

Section Derivation.

(** [new Date(s).getTime()] in milliseconds; [None] is [NaN] (the accepted
    formats beyond ISO 8601 depend on the engine). *)
Variable Date_parse : string -> option Z.

(** [Date.now()] in milliseconds, as read by the [k]-th iteration of the
    loop of [createIntercomEvents]. *)
Variable Date_now : nat -> Z.

(** The timestamp of one date column: parsed when present and valid, [now]
    otherwise. [Math.floor(ms / 1000)] is [Z.div], which rounds down. *)
Definition timestamp (now : Z) (date : option string) : Z :=
  match date with
  | Some d =>
      if Js.truthy d then
        match Date_parse d with
        | Some ms => (ms / 1000)%Z
        | None => now
        end
      else now
  | None => now
  end.

Definition settings_field (eventSettings : option EventSettings.t)
    (f : EventSettings.t -> option string) : option string :=
  match eventSettings with
  | Some s => f s
  | None => None
  end.

(** The [eventDate] local of [createIntercomEvents]. *)
Definition combinedEventDate (eventSettings : option EventSettings.t)
  : option string :=
  let date := settings_field eventSettings EventSettings.eventDate in
  let time := settings_field eventSettings EventSettings.eventTime in
  let eventDate := Js.or_undefined date in
  if Js.truthy_opt date && Js.truthy_opt time then
    Some (Js.or_empty date +:+ " " +:+ Js.or_empty time)
  else if Js.truthy_opt date then date
  else eventDate.

Definition mkEvent (kind : string) (created_at : Z)
    (a : LumaAttendee.t) (eventSettings : option EventSettings.t)
  : IntercomEvent.t :=
  {| IntercomEvent.event_name := kind;
     IntercomEvent.created_at := created_at;
     IntercomEvent.email := LumaAttendee.email a;
     IntercomEvent.name := LumaAttendee.name a;
     IntercomEvent.phone_number := LumaAttendee.phone_number a;
     IntercomEvent.metadata := Some {|
       Metadata.event_name :=
         Js.or_undefined (settings_field eventSettings EventSettings.eventName);
       Metadata.event_date := combinedEventDate eventSettings;
       Metadata.ticket_type := Js.or_undefined (LumaAttendee.ticketType a);
       Metadata.presenter :=
         Js.or_undefined (settings_field eventSettings EventSettings.presenter)
     |}
  |}.

(** The body of the [for (const attendee of attendees)] loop: the events
    pushed for one attendee, appended to [events]. *)
Definition pushEvents (k : nat) (p : ProcessedAttendee.t)
    (eventSettings : option EventSettings.t)
    (events : list IntercomEvent.t) : list IntercomEvent.t :=
  let a := ProcessedAttendee.attendee p in
  let now := (Date_now k / 1000)%Z in
  let registrationTimestamp := timestamp now (LumaAttendee.registrationDate a) in
  let attendanceTimestamp := timestamp now (LumaAttendee.attendanceDate a) in
  let events :=
    if ProcessedAttendee.hasRegistration p
    then events ++ [mkEvent "registered-for-event" registrationTimestamp a eventSettings]
    else events in
  let events :=
    if ProcessedAttendee.hasAttendance p
    then events ++ [mkEvent "attended-event" attendanceTimestamp a eventSettings]
    else events in
  events.

Fixpoint createIntercomEvents_from (k : nat)
    (attendees : list ProcessedAttendee.t)
    (eventSettings : option EventSettings.t)
    (events : list IntercomEvent.t) : list IntercomEvent.t :=
  match attendees with
  | [] => events
  | p :: rest =>
      createIntercomEvents_from (S k) rest eventSettings
        (pushEvents k p eventSettings events)
  end.

Definition createIntercomEvents (attendees : list ProcessedAttendee.t)
    (eventSettings : option EventSettings.t) : list IntercomEvent.t :=
  createIntercomEvents_from 0 attendees eventSettings [].

End Derivation.

(** [replaceEmailDomain] *)
Definition replaceEmailDomain (email : string) : string :=
  let atIndex := Js.indexOf email "@" in
  if (atIndex =? -1)%Z then email
  else Js.substring email 0 (atIndex + 1) +:+ "example.com".

(** ** The remote API and the effects of the publisher ([lib/intercom]) *)

Module ErrorBody.
Record t := mk {
  errors : option (list string);   (* the [message] of each entry *)
  request_id : option string
}.
End ErrorBody.

(** What a [catch] clause can receive. *)
Inductive Exn :=
| IntercomError (statusCode : option Z) (message : string)
    (body : option ErrorBody.t)
| JsError (message : string)         (* any other instance of [Error] *)
| Thrown.                            (* a thrown value that is no [Error] *)

Inductive Res (A : Type) :=
| Ok (a : A)
| Throw (e : Exn).
Arguments Ok {A} a.
Arguments Throw {A} e.

Module UserData.
Record t := mk {
  email : string;
  name : option string;
  phone : option string
}.
End UserData.

Module UpdateData.
Record t := mk {
  contact_id : string;
  phone : option string;
  name : option string
}.
End UpdateData.

Module EventPayload.
Record t := mk {
  event_name : string;
  created_at : Z;
  email : string;
  metadata : option (list (string * string))
}.
End EventPayload.

Module Contact.
Record t := mk { id : string }.
End Contact.

Module SearchResult.
Record t := mk { data : option (list Contact.t) }.
End SearchResult.

Record IntercomClient := { token : string }.

(** The four operations of the SDK client that the connector uses. Each one
    may change the remote system and either resolves or rejects.
    [contacts_search] receives the address of the single
    [{field: "email", operator: "=", value}] clause of its query. *)
Class IntercomApi (World : Type) := {
  contacts_create : IntercomClient -> UserData.t -> World -> Res unit * World;
  contacts_search : IntercomClient -> string -> World -> Res SearchResult.t * World;
  contacts_update : IntercomClient -> UpdateData.t -> World -> Res unit * World;
  events_create : IntercomClient -> EventPayload.t -> World -> Res unit * World
}.

(** [process.env], as far as the connector reads it. *)
Record Env := {
  INTERCOM_ACCESS_TOKEN : option string;
  INTERCOM_ACCESS_TOKEN_TEST : option string
}.

(** The observable steps of a run, in the order they happen. *)
Inductive Action :=
| ContactsCreate (u : UserData.t)
| ContactsSearch (email : string)
| ContactsUpdate (u : UpdateData.t)
| EventsCreate (p : EventPayload.t)
| SetTimeout (ms : Z)
| ConsoleWarn (msg : string)
| OnProgress (r : ProcessingResult.t) (index total : nat).

Record State (World U : Type) := mkState {
  remote : World;
  trace : list Action;
  locals : U
}.
Arguments mkState {World U}.
Arguments remote {World U}.
Arguments trace {World U}.
Arguments locals {World U}.

(** State and exceptions: a computation that throws keeps the state
    reached so far. *)
Definition M (World U A : Type) : Type :=
  State World U -> Res A * State World U.

Definition ret {World U A} (a : A) : M World U A := fun s => (Ok a, s).

Definition throw {World U A} (e : Exn) : M World U A := fun s => (Throw e, s).

Definition bind {World U A B} (m : M World U A) (k : A -> M World U B)
  : M World U B :=
  fun s =>
    match m s with
    | (Ok a, s') => k a s'
    | (Throw e, s') => (Throw e, s')
    end.

Notation "'let!' x ':=' m 'in' k" := (bind m (fun x => k))
  (at level 10, x name, m at level 100, k at level 200,
   format "'[v' 'let!'  x  ':='  m  'in' '/' k ']'").

(** [try { m } catch (error) { handler }] *)
Definition try_catch {World U A} (m : M World U A)
    (handler : Exn -> M World U A) : M World U A :=
  fun s =>
    match m s with
    | (Ok a, s') => (Ok a, s')
    | (Throw e, s') => handler e s'
    end.

(** [try { m } finally { cleanup }]: the cleanup runs on both exits, and an
    exception of its own replaces the pending outcome. *)
Definition finally {World U A} (m : M World U A) (cleanup : M World U unit)
  : M World U A :=
  fun s =>
    match m s with
    | (r, s') =>
        match cleanup s' with
        | (Ok _, s'') => (r, s'')
        | (Throw e, s'') => (Throw e, s'')
        end
    end.

Definition log {World U} (a : Action) : M World U unit :=
  fun s => (Ok tt, mkState (remote s) (trace s ++ [a]) (locals s)).

(** An awaited call of the remote API. *)
Definition await {World U A} (a : Action) (call : World -> Res A * World)
  : M World U A :=
  fun s =>
    match call (remote s) with
    | (r, w) => (r, mkState w (trace s ++ [a]) (locals s))
    end.

(** [await new Promise((resolve) => setTimeout(resolve, ms))] *)
Definition setTimeout {World U} (ms : Z) : M World U unit := log (SetTimeout ms).

Definition console_warn {World U} (msg : string) : M World U unit :=
  log (ConsoleWarn msg).

(** A synchronous callback of the caller, acting on the caller's variables. *)
Definition Callback (U : Type) : Type :=
  ProcessingResult.t -> nat -> nat -> U -> Res unit * U.

Definition call_onProgress {World U} (onProgress : Callback U)
    (r : ProcessingResult.t) (index total : nat) : M World U unit :=
  fun s =>
    match onProgress r index total (locals s) with
    | (res, u) =>
        (res, mkState (remote s) (trace s ++ [OnProgress r index total]) u)
    end.

Definition Exn_message (e : Exn) : option string :=
  match e with
  | IntercomError _ message _ => Some message
  | JsError message => Some message
  | Thrown => None
  end.

(** [`${statusCode}`] *)
Definition statusCode_text (statusCode : option Z) : string :=
  match statusCode with
  | Some n => pretty n
  | None => "undefined"
  end.

(** [name && name.trim()] guards [name.trim()]. *)
Definition trimmed (field : option string) : option string :=
  match field with
  | Some v => if Js.truthy v && Js.truthy (Js.trim v) then Some (Js.trim v) else None
  | None => None
  end.

(** [Object.entries(event.metadata)] without the entries whose value is
    [undefined], [null] or [""]. *)
Definition definedEntries (metadata : option Metadata.t) : list (string * string) :=
  match metadata with
  | None => []
  | Some m =>
      omap (fun kv => match snd kv with
                      | Some v => if Js.truthy v then Some (fst kv, v) else None
                      | None => None
                      end)
        [("event_name", Metadata.event_name m);
         ("event_date", Metadata.event_date m);
         ("ticket_type", Metadata.ticket_type m);
         ("presenter", Metadata.presenter m)]
  end.

Definition eventPayload (event : IntercomEvent.t) : EventPayload.t :=
  let metadata := definedEntries (IntercomEvent.metadata event) in
  {| EventPayload.event_name := IntercomEvent.event_name event;
     EventPayload.created_at := IntercomEvent.created_at event;
     EventPayload.email := IntercomEvent.email event;
     EventPayload.metadata :=
       if (0 <? length metadata)%nat then Some metadata else None |}.

Definition eventTypeOf (event : IntercomEvent.t) : EventType :=
  if String.eqb (IntercomEvent.event_name event) "registered-for-event"
  then RegisteredForEvent else AttendedEvent.

(** The message built by the [catch] clause of [publishEvent]. *)
Definition errorMessage (error : Exn) : string :=
  match error with
  | IntercomError statusCode message errorBody =>
      let errorDetails :=
        match errorBody with
        | Some b =>
            match ErrorBody.errors b with
            | Some es => Js.join ", " es
            | None => message
            end
        | None => message
        end in
      let errorMessage :=
        "Intercom API error (" +:+ statusCode_text statusCode +:+ "): " +:+ errorDetails in
      match errorBody with
      | Some b =>
          if Js.truthy_opt (ErrorBody.request_id b)
          then errorMessage +:+ " Request ID: " +:+ Js.or_empty (ErrorBody.request_id b)
          else errorMessage
      | None => errorMessage
      end
  | JsError message => message
  | Thrown => "Unknown error"
  end.

Section Publisher.

Context {World U : Type} `{api : IntercomApi World}.
Variable env : Env.

Local Abbreviation M := (M World U).

Definition getIntercomClient (testMode : bool) : M IntercomClient :=
  let token :=
    if testMode then INTERCOM_ACCESS_TOKEN_TEST env else INTERCOM_ACCESS_TOKEN env in
  let tokenName :=
    if testMode then "INTERCOM_ACCESS_TOKEN_TEST" else "INTERCOM_ACCESS_TOKEN" in
  if negb (Js.truthy_opt token) then
    throw (JsError (tokenName +:+
      " environment variable is not set. Please add it to your .env.local file."))
  else ret {| token := Js.or_empty token |}.

(** The inner [try] of [ensureUserExists]: find the existing contact and
    update it with the name and phone that were supplied. *)
Definition findAndUpdate (client : IntercomClient) (email : string)
    (name phone : option string) : M unit :=
  let! searchResult :=
    await (ContactsSearch email) (contacts_search client email) in
  match SearchResult.data searchResult with
  | Some (contact :: _) =>
      let updateData :=
        {| UpdateData.contact_id := Contact.id contact;
           UpdateData.phone := trimmed phone;
           UpdateData.name := trimmed name |} in
      (* [Object.keys(updateData).length > 1]: a key besides [contact_id] *)
      if bool_decide (is_Some (UpdateData.phone updateData)) ||
         bool_decide (is_Some (UpdateData.name updateData))
      then await (ContactsUpdate updateData) (contacts_update client updateData)
      else ret tt
  | _ => ret tt
  end.

Definition ensureUserExists (email : string) (name phone : option string)
    (testMode : bool) : M unit :=
  let! client := getIntercomClient testMode in
  let userData :=
    {| UserData.email := email;
       UserData.name := trimmed name;
       UserData.phone := trimmed phone |} in
  try_catch
    (await (ContactsCreate userData) (contacts_create client userData))
    (fun error =>
       match error with
       | IntercomError statusCode message _ =>
           if bool_decide (statusCode = Some 422%Z) ||
              bool_decide (statusCode = Some 409%Z)
           then
             try_catch
               (findAndUpdate client email name phone)
               (fun updateError =>
                  console_warn
                    ("Could not update contact " +:+ email +:+
                     " with phone/name: " +:+
                     default "Unknown error" (Exn_message updateError)))
           else
             console_warn
               ("Could not create contact " +:+ email +:+ ": " +:+ message)
       | _ => ret tt
       end).

Definition publishEvent (event : IntercomEvent.t) (testMode : bool)
  : M ProcessingResult.t :=
  let! client := getIntercomClient testMode in
  try_catch
    (let! _ :=
       ensureUserExists (IntercomEvent.email event) (IntercomEvent.name event)
         (IntercomEvent.phone_number event) testMode in
     let! _ := setTimeout 200 in
     let! _ :=
       await (EventsCreate (eventPayload event))
         (events_create client (eventPayload event)) in
     ret {| ProcessingResult.success := true;
            ProcessingResult.email := IntercomEvent.email event;
            ProcessingResult.eventType := eventTypeOf event;
            ProcessingResult.error := None |})
    (fun error =>
       ret {| ProcessingResult.success := false;
              ProcessingResult.email := IntercomEvent.email event;
              ProcessingResult.eventType := eventTypeOf event;
              ProcessingResult.error := Some (errorMessage error) |}).

(** [if (events.length > 1) await delay(100)] *)
Definition pacing (events : list IntercomEvent.t) : M unit :=
  if (1 <? length events)%nat then setTimeout 100 else ret tt.

(** The [for (const event of events)] loop of [publishEvents], from the
    events still to visit and the [results] pushed so far. *)
Fixpoint publishEvents_from (events todo : list IntercomEvent.t)
    (testMode : bool) (results : list ProcessingResult.t)
  : M (list ProcessingResult.t) :=
  match todo with
  | [] => ret results
  | event :: todo' =>
      let! result := publishEvent event testMode in
      let results := results ++ [result] in
      let! _ := pacing events in
      publishEvents_from events todo' testMode results
  end.

Definition publishEvents (events : list IntercomEvent.t) (testMode : bool)
  : M (list ProcessingResult.t) :=
  publishEvents_from events events testMode [].

(** The [for (let i = 0; ...)] loop of [publishEventsWithProgress], from
    index [i]; [todo] is [events] from that index on. *)
Fixpoint publishEventsWithProgress_from (events todo : list IntercomEvent.t)
    (i : nat) (onProgress : Callback U) (testMode : bool) : M unit :=
  match todo with
  | [] => ret tt
  | event :: todo' =>
      let total := length events in
      let! result := publishEvent event testMode in
      let! _ := call_onProgress onProgress result (i + 1) total in
      let! _ := pacing events in
      publishEventsWithProgress_from events todo' (S i) onProgress testMode
  end.

Definition publishEventsWithProgress (events : list IntercomEvent.t)
    (onProgress : Callback U) (testMode : bool) : M unit :=
  publishEventsWithProgress_from events events 0 onProgress testMode.

End Publisher.

(** ** The upload route: extraction loop and progress stream *)

(** The guard [if (mapping.approval_status) { ... === "invited" }] of the
    extraction loop. *)
Definition invited (row : gmap string string) (mapping : ColumnMapping.t) : bool :=
  match ColumnMapping.approval_status mapping with
  | Some c =>
      if Js.truthy c
      then String.eqb (Js.toLowerCase (Js.trim (cell row c))) "invited"
      else false
  | None => false
  end.

(** [attendee.email = email] *)
Definition setEmail (a : LumaAttendee.t) (email : string) : LumaAttendee.t :=
  {| LumaAttendee.email := email;
     LumaAttendee.name := LumaAttendee.name a;
     LumaAttendee.phone_number := LumaAttendee.phone_number a;
     LumaAttendee.registrationDate := LumaAttendee.registrationDate a;
     LumaAttendee.attendanceDate := LumaAttendee.attendanceDate a;
     LumaAttendee.ticketType := LumaAttendee.ticketType a;
     LumaAttendee.status := LumaAttendee.status a;
     LumaAttendee.hasJoinedEvent := LumaAttendee.hasJoinedEvent a |}.

Definition rowError (i : nat) : string :=
  "Row " +:+ pretty (i + 2)%nat +:+ ": Missing or invalid email address".

(** The loop [for (let i = 0; i < parseResult.data.length; i++)] from index
    [i], with the [attendees] and [errors] pushed so far. *)
Fixpoint extractAttendees_from (i : nat) (rows : list (gmap string string))
    (mapping : ColumnMapping.t) (testMode : bool)
    (attendees : list LumaAttendee.t) (errors : list string)
  : list LumaAttendee.t * list string :=
  match rows with
  | [] => (attendees, errors)
  | row :: rest =>
      if invited row mapping then
        extractAttendees_from (S i) rest mapping testMode attendees errors
      else
        match parseAttendee row mapping with
        | None =>
            extractAttendees_from (S i) rest mapping testMode attendees
              (errors ++ [rowError i])
        | Some attendee =>
            let attendee :=
              if testMode
              then setEmail attendee (replaceEmailDomain (LumaAttendee.email attendee))
              else attendee in
            extractAttendees_from (S i) rest mapping testMode
              (attendees ++ [attendee]) errors
        end
  end.

Definition extractAttendees (rows : list (gmap string string))
    (mapping : ColumnMapping.t) (testMode : bool)
  : list LumaAttendee.t * list string :=
  extractAttendees_from 0 rows mapping testMode [] [].

(** The objects passed to [sendMessage]; the framing
    [`data: ${JSON.stringify(data)}\n\n`] is one chunk per message. *)
Inductive Message :=
| MsgStart (totalEvents totalProcessed : nat)
| MsgProgress (result : ProcessingResult.t) (index total successful failed : nat)
| MsgComplete (totalProcessed successful failed : nat)
    (results : list ProcessingResult.t) (errors : option (list string))
| MsgError (error : string).

(** The stream controller: the chunks enqueued and whether it was closed. *)
Record Controller := mkController {
  chunks : list Message;
  closed : bool
}.

(** The variables of the [start] callback of the stream. *)
Record StreamLocals := mkLocals {
  controller : Controller;
  results : list ProcessingResult.t;
  successful : nat;
  failed : nat
}.

(** [controller.enqueue] and [controller.close] raise a [TypeError] on a
    controller that is already closed. *)
Definition enqueue (m : Message) (c : Controller) : Res unit * Controller :=
  if closed c then (Throw (JsError "Invalid state: Controller is already closed"), c)
  else (Ok tt, mkController (chunks c ++ [m]) false).

Definition close (c : Controller) : Res unit * Controller :=
  if closed c then (Throw (JsError "Invalid state: Controller is already closed"), c)
  else (Ok tt, mkController (chunks c) true).

Definition on_controller (f : Controller -> Res unit * Controller)
    (u : StreamLocals) : Res unit * StreamLocals :=
  match f (controller u) with
  | (r, c) => (r, mkLocals c (results u) (successful u) (failed u))
  end.

(** The progress callback that [start] passes to
    [publishEventsWithProgress]. *)
Definition onProgress : Callback StreamLocals :=
  fun result index total u =>
    let results := results u ++ [result] in
    let successful :=
      if ProcessingResult.success result then S (successful u) else successful u in
    let failed :=
      if ProcessingResult.success result then failed u else S (failed u) in
    on_controller
      (enqueue (MsgProgress result index total successful failed))
      (mkLocals (controller u) results successful failed).

Section Route.

Context {World : Type} `{api : IntercomApi World}.
Variable env : Env.
Variable Date_parse : string -> option Z.
Variable Date_now : nat -> Z.

Local Abbreviation M := (M World StreamLocals).

Definition on_locals (f : StreamLocals -> Res unit * StreamLocals) : M unit :=
  fun s =>
    match f (locals s) with
    | (r, u) => (r, mkState (remote s) (trace s) u)
    end.

Definition sendMessage (data : Message) : M unit :=
  on_locals (on_controller (enqueue data)).

(** [async start(controller)] of the [ReadableStream]. *)
Definition start (events : list IntercomEvent.t) (totalProcessed : nat)
    (errors : list string) (testMode : bool) : M unit :=
  let! _ := sendMessage (MsgStart (length events) totalProcessed) in
  let! _ := on_locals (fun u => (Ok tt, mkLocals (controller u) [] 0 0)) in
  finally
    (try_catch
       (let! _ := publishEventsWithProgress env events onProgress testMode in
        fun s =>
          sendMessage
            (MsgComplete totalProcessed (successful (locals s))
               (failed (locals s)) (results (locals s))
               (if (0 <? length errors)%nat then Some errors else None)) s)
       (fun error =>
          sendMessage
            (MsgError (default "Unknown error occurred" (Exn_message error)))))
    (on_locals (on_controller close)).

(** What [POST] answers once the form, the mapping and the CSV columns
    have been validated. *)
Inductive Response :=
| NoValidAttendees (errors : list string)           (* 400 *)
| NoEvents (processed : nat)                        (* 400 *)
| EventStream (run : Res unit * State World StreamLocals).

Definition freshStream (w : World) : State World StreamLocals :=
  mkState w [] (mkLocals (mkController [] false) [] 0 0).

Definition POST (rows : list (gmap string string)) (mapping : ColumnMapping.t)
    (eventSettings : option EventSettings.t) (testMode : bool) (w : World)
  : Response :=
  let '(attendees, errors) := extractAttendees rows mapping testMode in
  if (length attendees =? 0)%nat then NoValidAttendees errors
  else
    let processedAttendees := processAttendees attendees in
    let events :=
      createIntercomEvents Date_parse Date_now processedAttendees eventSettings in
    if (length events =? 0)%nat then NoEvents (length attendees)
    else
      EventStream (start events (length attendees) errors testMode (freshStream w)).

End Route.

(** ** Vocabulary of the statements *)

(** [word] occurs in [text] up to the case of the letters of [text]. *)
Definition containsIgnoreCase (text word : string) : Prop :=
  exists pre mid post, text = pre +:+ mid +:+ post /\ Js.toLowerCase mid = word.

(** A field is present when it is defined and not the empty string. *)
Definition present (o : option string) : Prop :=
  exists s, o = Some s /\ s <> "".

Definition statusContains (a : LumaAttendee.t) (word : string) : Prop :=
  exists s, LumaAttendee.status a = Some s /\ containsIgnoreCase s word.

(** An attendee with a given registration date and join flag and nothing
    else, to exhibit each combination of the two flags. *)
Definition bareAttendee (registered joined : bool) : LumaAttendee.t :=
  {| LumaAttendee.email := "a@x.com";
     LumaAttendee.name := None;
     LumaAttendee.phone_number := None;
     LumaAttendee.registrationDate := if registered then Some "2024-01-01" else None;
     LumaAttendee.attendanceDate := None;
     LumaAttendee.ticketType := None;
     LumaAttendee.status := None;
     LumaAttendee.hasJoinedEvent := Some joined |}.

(** The events that one classified attendee contributes: [kind] names the
    lifecycle fact, and the contact fields are the attendee's. *)
Definition eventFor (kind : string) (a : LumaAttendee.t) (e : IntercomEvent.t) : Prop :=
  IntercomEvent.event_name e = kind /\
  IntercomEvent.email e = LumaAttendee.email a /\
  IntercomEvent.name e = LumaAttendee.name a /\
  IntercomEvent.phone_number e = LumaAttendee.phone_number a.

Definition emitted (p : ProcessedAttendee.t) (chunk : list IntercomEvent.t) : Prop :=
  let a := ProcessedAttendee.attendee p in
  match ProcessedAttendee.hasRegistration p, ProcessedAttendee.hasAttendance p with
  | true, true =>
      exists r t, chunk = [r; t] /\
        eventFor "registered-for-event" a r /\ eventFor "attended-event" a t
  | true, false => exists r, chunk = [r] /\ eventFor "registered-for-event" a r
  | false, true => exists t, chunk = [t] /\ eventFor "attended-event" a t
  | false, false => chunk = []
  end.

(** Event settings that carry a start time and no date. *)
Definition timeOnly : EventSettings.t :=
  {| EventSettings.eventName := None;
     EventSettings.eventDate := None;
     EventSettings.eventTime := Some "19:00:00";
     EventSettings.presenter := None |}.

Definition dateAndTime : EventSettings.t :=
  {| EventSettings.eventName := Some "Launch";
     EventSettings.eventDate := Some "2024-05-01";
     EventSettings.eventTime := Some "19:00:00";
     EventSettings.presenter := None |}.

(** A clock and a date parser for the examples: the run happens at
    second 1700000000 and no date string parses. *)
Definition noParse (s : string) : option Z := None.
Definition fixedNow (k : nat) : Z := 1700000000000%Z.

(** The credential that [getIntercomClient] selects, and what it does with
    it. *)
Definition accessToken (env : Env) (testMode : bool) : option string :=
  if testMode then INTERCOM_ACCESS_TOKEN_TEST env else INTERCOM_ACCESS_TOKEN env.

Definition configured (env : Env) (testMode : bool) : Prop :=
  present (accessToken env testMode).

Definition clientOf (env : Env) (testMode : bool) : IntercomClient :=
  {| token := Js.or_empty (accessToken env testMode) |}.

Definition notConfigured (testMode : bool) : Exn :=
  JsError ((if testMode then "INTERCOM_ACCESS_TOKEN_TEST" else "INTERCOM_ACCESS_TOKEN")
           +:+ " environment variable is not set. Please add it to your .env.local file.").

(** The contact that the resolver creates for an event. *)
Definition userDataOf (email : string) (name phone : option string) : UserData.t :=
  {| UserData.email := email;
     UserData.name := trimmed name;
     UserData.phone := trimmed phone |}.

(** What the resolver may do once the create call has been issued. *)
Definition resolverFollowUp (email : string) (name phone : option string)
    (a : Action) : Prop :=
  match a with
  | ContactsSearch e => e = email
  | ContactsUpdate upd =>
      UpdateData.phone upd = trimmed phone /\
      UpdateData.name upd = trimmed name /\
      (is_Some (trimmed phone) \/ is_Some (trimmed name))
  | ConsoleWarn _ => True
  | _ => False
  end.

(** The outcome that [publishEvent] builds from the way the event
    submission ended. *)
Definition outcomeOf (event : IntercomEvent.t) (submission : Res unit)
  : ProcessingResult.t :=
  {| ProcessingResult.success :=
       match submission with Ok _ => true | Throw _ => false end;
     ProcessingResult.email := IntercomEvent.email event;
     ProcessingResult.eventType := eventTypeOf event;
     ProcessingResult.error :=
       match submission with Ok _ => None | Throw e => Some (errorMessage e) end |}.

(** [errorDetails] and the request-id suffix of the message for a remote-API
    error. *)
Definition errorDetails (message : string) (body : option ErrorBody.t) : string :=
  match body ≫= ErrorBody.errors with
  | Some es => Js.join ", " es
  | None => message
  end.

Definition requestIdSuffix (body : option ErrorBody.t) : string :=
  match body ≫= ErrorBody.request_id with
  | Some rid => if Js.truthy rid then " Request ID: " +:+ rid else ""
  | None => ""
  end.

(** The two event kinds of the data model. *)
Definition domainEvent (e : IntercomEvent.t) : Prop :=
  IntercomEvent.event_name e = "registered-for-event" \/
  IntercomEvent.event_name e = "attended-event".

(** An outcome is about an event: same email, same kind. *)
Definition corresponds (e : IntercomEvent.t) (r : ProcessingResult.t) : Prop :=
  ProcessingResult.email r = IntercomEvent.email e /\
  (domainEvent e ->
   EventType_name (ProcessingResult.eventType r) = IntercomEvent.event_name e).

(** The steps that publishing [e] may perform. *)
Definition publishStep (e : IntercomEvent.t) (a : Action) : Prop :=
  match a with
  | ContactsCreate u =>
      u = userDataOf (IntercomEvent.email e) (IntercomEvent.name e)
            (IntercomEvent.phone_number e)
  | EventsCreate p => p = eventPayload e
  | SetTimeout ms => ms = 200%Z
  | OnProgress _ _ _ => False
  | _ =>
      resolverFollowUp (IntercomEvent.email e) (IntercomEvent.name e)
        (IntercomEvent.phone_number e) a
  end.


(** A field sent to the remote API is the trimmed, non-empty form of the
    field that was supplied; nothing is sent for a field that is missing or
    blank. *)
Definition suppliedField (raw sent : option string) : Prop :=
  match sent with
  | Some v => v <> "" /\ exists x, raw = Some x /\ v = Js.trim x
  | None => forall x, raw = Some x -> Js.trim x = ""
  end.

(** The contact that a search found:
    [searchResult.data && searchResult.data.length > 0], then
    [searchResult.data[0]]. *)
Definition foundContact (searchResult : SearchResult.t) : option Contact.t :=
  match SearchResult.data searchResult with
  | Some (contact :: _) => Some contact
  | _ => None
  end.

(** The warning that records a swallowed search or update failure. *)
Definition swallowedFailure (email : string) (error : Exn) : Action :=
  ConsoleWarn ("Could not update contact " +:+ email +:+ " with phone/name: " +:+
               default "Unknown error" (Exn_message error)).

(** What the resolver does after the search that follows a conflict, given
    the way the search ended: [tr] are the steps after the search and [w]
    is the remote system they leave.
    - The search fails: the failure is swallowed with a warning.
    - The search finds no contact: nothing more happens.
    - The search finds a contact: the update is addressed to the first
      contact found and carries the supplied name and phone, trimmed, and
      nothing for a missing or blank one. It is skipped when both are
      missing or blank and attempted otherwise; a failure of the update is
      swallowed with a warning. *)
Definition conflictFollowUp {World} `{IntercomApi World} (client : IntercomClient)
    (email : string) (name phone : option string)
    (search : Res SearchResult.t * World) (tr : list Action) (w : World) : Prop :=
  match search with
  | (Throw error, w2) => tr = [swallowedFailure email error] /\ w = w2
  | (Ok searchResult, w2) =>
      match foundContact searchResult with
      | None => tr = [] /\ w = w2
      | Some contact =>
          exists upd,
            UpdateData.contact_id upd = Contact.id contact /\
            suppliedField name (UpdateData.name upd) /\
            suppliedField phone (UpdateData.phone upd) /\
            (UpdateData.name upd = None /\ UpdateData.phone upd = None /\
             tr = [] /\ w = w2
             \/
             (is_Some (UpdateData.name upd) \/ is_Some (UpdateData.phone upd)) /\
             match contacts_update client upd w2 with
             | (Ok _, w3) => tr = [ContactsUpdate upd] /\ w = w3
             | (Throw error, w3) =>
                 tr = [ContactsUpdate upd; swallowedFailure email error] /\ w = w3
             end)
      end
  end.

(** A remote system for the examples. The world is the list of known
    contact addresses: creating a known contact is a 409 conflict, a search
    finds a known contact, updates succeed, and an event is accepted for a
    known contact and rejected with a 404 otherwise. *)
#[export] Instance demoApi : IntercomApi (list string) := {|
  contacts_create _ u w :=
    if bool_decide (UserData.email u ∈ w)
    then (Throw (IntercomError (Some 409%Z) "Conflict" None), w)
    else (Ok tt, UserData.email u :: w);
  contacts_search _ email w :=
    (Ok {| SearchResult.data :=
             Some (if bool_decide (email ∈ w) then [{| Contact.id := email |}] else []) |},
     w);
  contacts_update _ _ w := (Ok tt, w);
  events_create _ p w :=
    if bool_decide (EventPayload.email p ∈ w) then (Ok tt, w)
    else (Throw (IntercomError (Some 404%Z) "User Not Found"
            (Some {| ErrorBody.errors := Some ["User Not Found"];
                     ErrorBody.request_id := Some "req-1" |})), w)
|}.

Definition liveOnly : Env :=
  {| INTERCOM_ACCESS_TOKEN := Some "live-token";
     INTERCOM_ACCESS_TOKEN_TEST := None |}.

Definition noTokens : Env :=
  {| INTERCOM_ACCESS_TOKEN := None;
     INTERCOM_ACCESS_TOKEN_TEST := None |}.

Definition sampleEvent (kind email : string) : IntercomEvent.t :=
  {| IntercomEvent.event_name := kind;
     IntercomEvent.created_at := 1700000000%Z;
     IntercomEvent.email := email;
     IntercomEvent.name := Some " Ada ";
     IntercomEvent.phone_number := Some "";
     IntercomEvent.metadata := None |}.

Definition demoState {U} (known : list string) (u : U) : State (list string) U :=
  mkState known [] u.


(** The pacing delay of one loop iteration of a batch of [total] events. *)
Definition pacingActions (total : nat) : list Action :=
  if (1 <? total)%nat then [SetTimeout 100] else [].

(** One entry per event of a batch: the steps of its publication and its
    outcome. [published e step] says that the steps belong to the
    publication of [e] and end with its submission, and that the outcome is
    about [e]. *)
Definition published (e : IntercomEvent.t)
    (step : list Action * ProcessingResult.t) : Prop :=
  (exists pre, step.1 = pre ++ [EventsCreate (eventPayload e)] /\
     Forall (publishStep e) pre) /\
  corresponds e step.2.

(** The log of a run of [publishEventsWithProgress] from index [i]: for each
    event its publication, then the progress call with the 1-based index,
    then the pacing delay. *)
Fixpoint progressTrace (total i : nat)
    (steps : list (list Action * ProcessingResult.t)) : list Action :=
  match steps with
  | [] => []
  | (tr, r) :: rest =>
      tr ++ OnProgress r (i + 1) total :: pacingActions total ++
      progressTrace total (S i) rest
  end.

(** The log of a run of [publishEvents]. *)
Fixpoint plainTrace (total : nat)
    (steps : list (list Action * ProcessingResult.t)) : list Action :=
  match steps with
  | [] => []
  | (tr, _) :: rest => tr ++ pacingActions total ++ plainTrace total rest
  end.

(** The caller's variables after the progress calls for [rs], from index
    [i]. *)
Fixpoint feed {U} (cb : Callback U) (total i : nat)
    (rs : list ProcessingResult.t) (u : U) : U :=
  match rs with
  | [] => u
  | r :: rest => feed cb total (S i) rest (cb r (i + 1) total u).2
  end.

(** The outcomes passed to the progress callback, in order. *)
Definition reported (tr : list Action) : list ProcessingResult.t :=
  omap (fun a => match a with OnProgress r _ _ => Some r | _ => None end) tr.

(** A callback that never throws. *)
Definition neverThrows {U} (cb : Callback U) : Prop :=
  forall r i t u, exists u', cb r i t u = (Ok tt, u').

(** A callback that collects the outcomes it is given. *)
Definition collect : Callback (list ProcessingResult.t) :=
  fun r _ _ u => (Ok tt, u ++ [r]).

(** The claim that no pacing delay follows the progress call of the last
    event of a batch of [total] events. *)
Definition noPacingAfterLast (total : nat) (tr : list Action) : Prop :=
  forall pre r post,
    tr = pre ++ OnProgress r total total :: post -> SetTimeout 100 ∉ post.


(** The remote system without contacts, and a caller that has collected
    nothing yet. *)
Definition freshCollector : State (list string) (list ProcessingResult.t) :=
  demoState [] [].

Definition twoEvents : list IntercomEvent.t :=
  [sampleEvent "registered-for-event" "a@x.com";
   sampleEvent "attended-event" "a@x.com"].


(** Aggregate counts over a list of outcomes. *)
Definition successes (rs : list ProcessingResult.t) : nat :=
  length (filter (fun r => ProcessingResult.success r = true) rs).

Definition failures (rs : list ProcessingResult.t) : nat :=
  length (filter (fun r => ProcessingResult.success r = false) rs).

(** The progress messages for the outcomes [rs] of a batch of [total]
    events: the message at position [j] carries the outcome, the 1-based
    index and the counts over the outcomes up to and including it. *)
Definition progressOf (total : nat) (rs : list ProcessingResult.t) : list Message :=
  imap (fun j r =>
          MsgProgress r (S j) total
            (successes (take (S j) rs)) (failures (take (S j) rs))) rs.

(** The stream is open when its controller has not been closed. *)
Definition streamOpen (u : StreamLocals) : Prop := closed (controller u) = false.


(** The address that a remote call is aimed at, when it is aimed at one
    (an update is aimed at a contact id). *)
Definition targetEmail (a : Action) : option string :=
  match a with
  | ContactsCreate u => Some (UserData.email u)
  | ContactsSearch email => Some email
  | EventsCreate p => Some (EventPayload.email p)
  | _ => None
  end.

(** An address of the example.com domain: a local part without "@"
    followed by "@example.com". *)
Definition exampleAddress (email : string) : Prop :=
  exists l, Js.includes l "@" = false /\ email = l +:+ "@example.com".

(** A column mapping and rows for the examples. *)
Definition demoMapping : ColumnMapping.t :=
  {| ColumnMapping.email := "Email";
     ColumnMapping.name := Some "Name";
     ColumnMapping.phone_number := None;
     ColumnMapping.registrationDate := None;
     ColumnMapping.attendanceDate := None;
     ColumnMapping.ticketType := None;
     ColumnMapping.status := Some "Status";
     ColumnMapping.hasJoinedEvent := None;
     ColumnMapping.approval_status := Some "Approval" |}.

Definition registeredRow : gmap string string :=
  {[ "Email" := "a@x.com"; "Name" := "Ada"; "Status" := "Registered";
     "Approval" := "approved" ]}.

Definition invitedRow : gmap string string :=
  {[ "Email" := "not an address"; "Name" := "Bob"; "Status" := "";
     "Approval" := " Invited " ]}.

Definition badRow : gmap string string :=
  {[ "Email" := ""; "Name" := "Eve"; "Status" := "attended";
     "Approval" := "approved" ]}.


(** A second remote system for the examples. The world counts the event
    submissions: the first one is accepted and every later one is rejected
    with a 500. Contacts are always created. *)
#[export] Instance flakyApi : IntercomApi nat := {|
  contacts_create _ _ n := (Ok tt, n);
  contacts_search _ _ n := (Ok {| SearchResult.data := None |}, n);
  contacts_update _ _ n := (Ok tt, n);
  events_create _ _ n :=
    match n with
    | O => (Ok tt, S n)
    | S _ => (Throw (IntercomError (Some 500%Z) "Internal Server Error" None), S n)
    end
|}.

Definition secondRow : gmap string string :=
  {[ "Email" := "b@x.com"; "Name" := ""; "Status" := "registered";
     "Approval" := "" ]}.

Definition okOutcome (email : string) : ProcessingResult.t :=
  {| ProcessingResult.success := true;
     ProcessingResult.email := email;
     ProcessingResult.eventType := RegisteredForEvent;
     ProcessingResult.error := None |}.

Definition failedOutcome (email error : string) : ProcessingResult.t :=
  {| ProcessingResult.success := false;
     ProcessingResult.email := email;
     ProcessingResult.eventType := RegisteredForEvent;
     ProcessingResult.error := Some error |}.


(** ** The preview route and the remaining helpers *)

(** [s.replace(/\s+/g, "")]: every run of whitespace is deleted. The class
    [\s] is the whitespace of [trim]. *)
Fixpoint removeWhiteSpace (s : string) : string :=
  match s with
  | EmptyString => EmptyString
  | String c s' =>
      if Js.isWhiteSpace c then removeWhiteSpace s'
      else String c (removeWhiteSpace s')
  end.

(** [normalizeColumnName] *)
Definition normalizeColumnName (column : string) : string :=
  removeWhiteSpace (Js.trim (Js.toLowerCase column)).

(** One entry of [normalizedColumns]. *)
Record NormalizedColumn := mkColumn {
  original : string;
  normalized : string
}.

(** [for (const col of normalizedColumns) { if (p(col.normalized)) { x =
    col.original; break; } }]: the original name of the first column whose
    normalized name satisfies [p], if there is one. *)
Fixpoint firstColumn (p : string -> bool) (cols : list NormalizedColumn)
  : option string :=
  match cols with
  | [] => None
  | col :: rest => if p (normalized col) then Some (original col) else firstColumn p rest
  end.

(** A first loop that left [found], followed by
    [if (!found) { second loop }]. *)
Definition withFallback (found : option string) (p : string -> bool)
    (cols : list NormalizedColumn) : option string :=
  if Js.truthy_opt found then found
  else match firstColumn p cols with
       | Some c => Some c
       | None => found
       end.

(** [normalized === a || normalized === b || ...] *)
Definition oneOf (names : list string) (normalized : string) : bool :=
  existsb (String.eqb normalized) names.

(** [suggestMapping] *)
Definition suggestMapping (columns : list string) : ColumnMapping.t :=
  let normalizedColumns :=
    map (fun col => mkColumn col (normalizeColumnName col)) columns in
  let email :=
    withFallback (firstColumn (oneOf ["email"]) normalizedColumns)
      (oneOf ["e-mail"; "emailaddress"; "e_mail"]) normalizedColumns in
  let name :=
    withFallback (firstColumn (oneOf ["name"]) normalizedColumns)
      (oneOf ["fullname"; "full_name"; "attendeename"; "attendee_name"])
      normalizedColumns in
  let phone_number :=
    withFallback (firstColumn (oneOf ["phone_number"; "phonenumber"]) normalizedColumns)
      (oneOf ["phone"; "phonenum"; "mobile"; "telephone"]) normalizedColumns in
  let registrationDate :=
    withFallback (firstColumn (oneOf ["created_at"; "createdat"]) normalizedColumns)
      (oneOf ["registrationdate"; "registration_date"; "registered"])
      normalizedColumns in
  let attendanceDate :=
    firstColumn (oneOf ["attendancedate"; "attendance_date"; "attended"; "checkedin"])
      normalizedColumns in
  let ticketType :=
    withFallback (firstColumn (oneOf ["ticket_name"; "ticketname"]) normalizedColumns)
      (oneOf ["tickettype"; "ticket_type"; "ticket"]) normalizedColumns in
  let approval_status :=
    withFallback
      (firstColumn (oneOf ["approval_status"; "approvalstatus"]) normalizedColumns)
      (oneOf ["approval"; "status"]) normalizedColumns in
  let status :=
    withFallback
      (firstColumn
         (fun n => String.eqb n "status" && negb (Js.truthy_opt approval_status))
         normalizedColumns)
      (oneOf ["status"]) normalizedColumns in
  let hasJoinedEvent :=
    withFallback
      (firstColumn (oneOf ["has_joined_event"; "hasjoinedevent"]) normalizedColumns)
      (oneOf ["joined"; "attended"]) normalizedColumns in
  {| ColumnMapping.email := Js.or_empty email;
     ColumnMapping.name := name;
     ColumnMapping.phone_number := phone_number;
     ColumnMapping.registrationDate := registrationDate;
     ColumnMapping.attendanceDate := attendanceDate;
     ColumnMapping.ticketType := ticketType;
     ColumnMapping.status := status;
     ColumnMapping.hasJoinedEvent := hasJoinedEvent;
     ColumnMapping.approval_status := approval_status |}.

(** The column check of the upload route: the mapped columns that the CSV
    header lacks, the required one first. [csvColumns.includes(col)] is
    membership. *)
Definition missingColumns (mapping : ColumnMapping.t) (csvColumns : list string)
  : list string :=
  let requiredColumns := [ColumnMapping.email mapping] in
  let optionalColumns :=
    omap (fun col => if Js.truthy_opt col then col else None)
      [ColumnMapping.name mapping;
       ColumnMapping.phone_number mapping;
       ColumnMapping.registrationDate mapping;
       ColumnMapping.attendanceDate mapping;
       ColumnMapping.ticketType mapping;
       ColumnMapping.status mapping;
       ColumnMapping.hasJoinedEvent mapping;
       ColumnMapping.approval_status mapping] in
  filter (fun col => col ∉ csvColumns) requiredColumns ++
  filter (fun col => col ∉ csvColumns) optionalColumns.

(** The availability route: [!!process.env.INTERCOM_ACCESS_TOKEN_TEST]. *)
Definition testModeAvailable (env : Env) : bool :=
  Js.truthy_opt (INTERCOM_ACCESS_TOKEN_TEST env).


(** The character classes of the file-name pattern: [.] excludes the line
    terminators LF and CR, [\d] is an ASCII digit. *)
Definition isLineTerminator (c : ascii) : bool :=
  match N_of_ascii c with
  | 10 | 13 => true
  | _ => false
  end%N.

Definition isDigit (c : ascii) : bool :=
  ((48 <=? N_of_ascii c) && (N_of_ascii c <=? 57))%N.

(** [filename.replace(/\.csv$/i, "")]: a final ".csv", in any case, is
    removed. *)
Definition stripCsv (filename : string) : string :=
  let n := String.length filename in
  if (4 <=? n)%nat &&
     String.eqb (Js.toLowerCase (Js.drop (n - 4) filename)) ".csv"
  then Js.take (n - 4) filename
  else filename.

(** [\d{n}] at the head of [s]: what follows it. *)
Fixpoint digitsThen (n : nat) (s : string) : option string :=
  match n with
  | O => Some s
  | S n' =>
      match s with
      | String c s' => if isDigit c then digitsThen n' s' else None
      | EmptyString => None
      end
  end.

(** One literal character at the head of [s]: what follows it. *)
Definition charThen (c : ascii) (s : string) : option string :=
  match s with
  | String d s' => if Ascii.eqb d c then Some s' else None
  | EmptyString => None
  end.

(** A literal string at the head of [s]: what follows it. *)
Definition literalThen (lit s : string) : option string :=
  if Js.startsWith s lit then Some (Js.drop (String.length lit) s) else None.

(** [\s*] before a token that is not whitespace: all the whitespace there
    is. *)
Definition skipWhiteSpace (s : string) : option string := Some (Js.trimStart s).

(** The tokens of a pattern one after the other: what follows them. *)
Definition tokens (ps : list (string -> option string)) (s : string)
  : option string :=
  foldl (fun o p => match o with Some r => p r | None => None end) (Some s) ps.

(** [\d{4}-\d{2}-\d{2}-\d{2}-\d{2}-\d{2}$] *)
Definition matchDateTime (s : string) : bool :=
  match
    tokens [digitsThen 4; charThen "-"; digitsThen 2; charThen "-";
            digitsThen 2; charThen "-"; digitsThen 2; charThen "-";
            digitsThen 2; charThen "-"; digitsThen 2] s
  with
  | Some EmptyString => true
  | _ => false
  end.

(** [\s*-\s*Guests\s*-\s*(\d{4}-...)$] at the head of [s]: the date
    group. *)
Definition matchTail (s : string) : option string :=
  match
    tokens [skipWhiteSpace; charThen "-"; skipWhiteSpace; literalThen "Guests";
            skipWhiteSpace; charThen "-"; skipWhiteSpace] s
  with
  | Some date => if matchDateTime date then Some date else None
  | None => None
  end.

(** The lazy group [(.+?)]: [group] has been taken and is extended by one
    character at a time until the rest of the pattern matches [rest]. *)
Fixpoint lazyGroup (group rest : string) : option (string * string) :=
  match matchTail rest with
  | Some date => Some (group, date)
  | None =>
      match rest with
      | EmptyString => None
      | String c rest' =>
          if isLineTerminator c then None
          else lazyGroup (group +:+ String c EmptyString) rest'
      end
  end.

(** [s.match(/^(.+?)\s*-\s*Guests\s*-\s*(\d{4}-\d{2}-\d{2}-\d{2}-\d{2}-\d{2})$/)]:
    the two groups. *)
Definition matchFilename (s : string) : option (string * string) :=
  match s with
  | EmptyString => None
  | String c rest =>
      if isLineTerminator c then None else lazyGroup (String c EmptyString) rest
  end.

(** [s.split(sep)] for a one-character separator. *)
Fixpoint split (sep : ascii) (s : string) : list string :=
  match s with
  | EmptyString => [EmptyString]
  | String c s' =>
      if Ascii.eqb c sep then EmptyString :: split sep s'
      else match split sep s' with
           | p :: ps => String c p :: ps
           | [] => [String c EmptyString]
           end
  end.

(** [extractEventSettingsFromFilename] *)
Definition extractEventSettingsFromFilename (filename : string)
  : option EventSettings.t :=
  let nameWithoutExt := stripCsv filename in
  match matchFilename nameWithoutExt with
  | None => None
  | Some (group1, dateTimeStr) =>
      let eventName := Js.trim group1 in
      match split "-" dateTimeStr with
      | [year; month; day; hour; minute; second] =>
          Some {| EventSettings.eventName := Some eventName;
                  EventSettings.eventDate :=
                    Some (year +:+ "-" +:+ month +:+ "-" +:+ day);
                  EventSettings.eventTime :=
                    Some (hour +:+ ":" +:+ minute +:+ ":" +:+ second);
                  EventSettings.presenter := None |}
      | _ => None
      end
  end.


(** [c] is the first of [columns] whose normalized name is one of
    [names]. *)
Definition firstNamed (names : list string) (columns : list string) (c : string)
  : Prop :=
  exists pre post, columns = pre ++ c :: post /\
    normalizeColumnName c ∈ names /\
    Forall (fun x => normalizeColumnName x ∉ names) pre.

(** No column is named by one of [names]. *)
Definition noneNamed (names : list string) (columns : list string) : Prop :=
  Forall (fun x => normalizeColumnName x ∉ names) columns.

(** The [normalizedColumns] of [suggestMapping]. *)
Definition normalizedColumnsOf (columns : list string) : list NormalizedColumn :=
  map (fun col => mkColumn col (normalizeColumnName col)) columns.


(** Every character of [s] satisfies [p]. *)
Fixpoint allChars (p : ascii -> bool) (s : string) : bool :=
  match s with
  | EmptyString => true
  | String c s' => p c && allChars p s'
  end.

(** A string of exactly [n] ASCII digits. *)
Definition digitString (n : nat) (s : string) : Prop :=
  String.length s = n /\ allChars isDigit s = true.

(** A string without surrounding whitespace. *)
Definition trimmedString (s : string) : Prop := Js.trim s = s.


(** A character that the lazy name group accepts and that cannot start
    the rest of the file-name pattern: neither a line terminator nor a
    hyphen. *)
Definition nameChar (c : ascii) : bool :=
  negb (isLineTerminator c) && negb (Ascii.eqb c "-").

(** The date-time stamp of a guest-list file name. *)
Definition stamp (year month day hour minute second : string) : string :=
  year +:+ "-" +:+ month +:+ "-" +:+ day +:+ "-" +:+
  hour +:+ "-" +:+ minute +:+ "-" +:+ second.


(** The attendee that a row contributes in live mode: none for an invited
    row or a row without a valid email. *)
Definition acceptedRow (mapping : ColumnMapping.t) (row : gmap string string)
  : option LumaAttendee.t :=
  if invited row mapping then None else parseAttendee row mapping.

(** The text that the normalizer reads for an optional column: the trimmed
    cell of a mapped column, the empty string otherwise. *)
Definition readsColumn (row : gmap string string) (column : option string)
    (v : string) : Prop :=
  (forall c, column = Some c -> c <> "" -> v = Js.trim (cell row c)) /\
  (~ present column -> v = "").

(** The words that the normalizer reads as "joined". *)
Definition joinedWords : list string := ["true"; "1"; "yes"; "y"; "joined"].

(** An attendee without any registration or attendance signal. *)
Definition noSignal (a : LumaAttendee.t) : Prop :=
  ProcessedAttendee.hasRegistration (classify a) = false /\
  ProcessedAttendee.hasAttendance (classify a) = false.

(** A row whose only attendance signal is its "Checked In" cell. *)
Definition joinedRow : gmap string string :=
  {[ "Email" := "b@x.com"; "Checked In" := " YES " ]}.

Definition joinedMapping : ColumnMapping.t :=
  {| ColumnMapping.email := "Email";
     ColumnMapping.name := None;
     ColumnMapping.phone_number := None;
     ColumnMapping.registrationDate := None;
     ColumnMapping.attendanceDate := None;
     ColumnMapping.ticketType := None;
     ColumnMapping.status := None;
     ColumnMapping.hasJoinedEvent := Some "Checked In";
     ColumnMapping.approval_status := None |}.


(** An event without its time stamp. *)
Definition untimed (e : IntercomEvent.t) : IntercomEvent.t :=
  {| IntercomEvent.event_name := IntercomEvent.event_name e;
     IntercomEvent.created_at := 0;
     IntercomEvent.email := IntercomEvent.email e;
     IntercomEvent.name := IntercomEvent.name e;
     IntercomEvent.phone_number := IntercomEvent.phone_number e;
     IntercomEvent.metadata := IntercomEvent.metadata e |}.

(** The date that stamps an attendee's event of a kind it has: it is
    present and the parser accepts it. *)
Definition datedBy (parse : string -> option Z) (p : ProcessedAttendee.t) : Prop :=
  let a := ProcessedAttendee.attendee p in
  (ProcessedAttendee.hasRegistration p = true ->
   exists d ms, LumaAttendee.registrationDate a = Some d /\ d <> "" /\ parse d = Some ms) /\
  (ProcessedAttendee.hasAttendance p = true ->
   exists d ms, LumaAttendee.attendanceDate a = Some d /\ d <> "" /\ parse d = Some ms).

(** A parser for the examples that accepts one date. *)
Definition parseNewYear (s : string) : option Z :=
  if String.eqb s "2024-01-01" then Some 1704067200000%Z else None.


(** The contact calls that follow the create call. *)
Definition contactFollowUp (a : Action) : Prop :=
  match a with
  | ContactsSearch _ | ContactsUpdate _ => True
  | _ => False
  end.

(** The four metadata fields of an event, by key. *)
Definition metadataField (m : Metadata.t) (key : string) : option string :=
  if String.eqb key "event_name" then Metadata.event_name m
  else if String.eqb key "event_date" then Metadata.event_date m
  else if String.eqb key "ticket_type" then Metadata.ticket_type m
  else if String.eqb key "presenter" then Metadata.presenter m
  else None.


(** The event payloads submitted and the contacts created, in log order. *)
Definition submissions (tr : list Action) : list EventPayload.t :=
  omap (fun a => match a with EventsCreate p => Some p | _ => None end) tr.

Definition creations (tr : list Action) : list UserData.t :=
  omap (fun a => match a with ContactsCreate u => Some u | _ => None end) tr.

Definition contactOf (e : IntercomEvent.t) : UserData.t :=
  userDataOf (IntercomEvent.email e) (IntercomEvent.name e)
    (IntercomEvent.phone_number e).

Definition bothTokens : Env :=
  {| INTERCOM_ACCESS_TOKEN := Some "live-token";
     INTERCOM_ACCESS_TOKEN_TEST := Some "test-token" |}.

(** What test mode does to an accepted attendee. *)
Definition redirected (testMode : bool) (a : LumaAttendee.t) : LumaAttendee.t :=
  if testMode then setEmail a (replaceEmailDomain (LumaAttendee.email a)) else a.

(** The counters of a message add up: a progress message counts as many
    outcomes as its index says, out of [total]; a terminal message counts
    and lists [total] outcomes. *)
Definition countsAddUp (total : nat) (m : Message) : Prop :=
  match m with
  | MsgStart totalEvents _ => totalEvents = total
  | MsgProgress _ index total' successful failed =>
      (successful + failed = index)%nat /\ (1 <= index <= total)%nat /\ total' = total
  | MsgComplete _ successful failed results _ =>
      (successful + failed = total)%nat /\ length results = total
  | MsgError _ => True
  end.

#[local] Instance noSignal_dec a : Decision (noSignal a).
Proof. unfold noSignal. apply _. Defined.

(** ** Rows as parsed objects *)

(** The property names under which a parsed row can answer with something
    that is not one of its cells. A row is a plain object, so it inherits
    the members of [Object.prototype], and an assignment to [__proto__]
    creates no cell; the parser keeps the surplus fields of a long row in
    an array under [__parsed_extra]. *)
Definition reservedNames : list string :=
  ["constructor"; "hasOwnProperty"; "isPrototypeOf"; "propertyIsEnumerable";
   "toLocaleString"; "toString"; "valueOf"; "__defineGetter__";
   "__defineSetter__"; "__lookupGetter__"; "__lookupSetter__"; "__proto__";
   "__parsed_extra"].

(** [row[column]] is a cell of the row or [undefined], which is what [cell]
    reads: the column is not [__proto__], and a column with a reserved name
    is a cell of the row. Elsewhere [row[column]] is a function or an
    object, and [(row[column] || "").trim()] raises a [TypeError]. *)
Definition readsCell (row : gmap string string) (column : string) : bool :=
  negb (String.eqb column "__proto__") &&
  (negb (existsb (String.eqb column) reservedNames) ||
   bool_decide (is_Some (row !! column))).

(** The columns that the upload route reads in a row: the mapped ones. *)
Definition mappedColumns (mapping : ColumnMapping.t) : list string :=
  List.filter Js.truthy
    (ColumnMapping.email mapping ::
     omap id
       [ColumnMapping.name mapping; ColumnMapping.phone_number mapping;
        ColumnMapping.registrationDate mapping; ColumnMapping.attendanceDate mapping;
        ColumnMapping.ticketType mapping; ColumnMapping.status mapping;
        ColumnMapping.hasJoinedEvent mapping; ColumnMapping.approval_status mapping]).

(** A row in which every mapped column is read as a cell. *)
Definition plainRow (mapping : ColumnMapping.t) (row : gmap string string) : bool :=
  forallb (readsCell row) (mappedColumns mapping).

(** * Properties *)

(** ** Strings *)

Lemma append_nil (b : string) : "" +:+ b = b.
Proof. reflexivity. Qed.

Lemma append_cons (x : ascii) (a b : string) :
  String x a +:+ b = String x (a +:+ b).
Proof. reflexivity. Qed.

Lemma append_assoc (a b c : string) : (a +:+ b) +:+ c = a +:+ b +:+ c.
Proof.
  induction a as [|x a IH]; [done|]. by rewrite !append_cons, IH.
Qed.

Lemma append_empty_r (a : string) : a +:+ "" = a.
Proof.
  induction a as [|x a IH]; [done|]. by rewrite append_cons, IH.
Qed.

Lemma startsWith_spec (s p : string) :
  Js.startsWith s p = true <-> exists post, s = p +:+ post.
Proof.
  revert s. induction p as [|a p IH]; intros s; simpl.
  - split; [intros _; by exists s | done].
  - destruct s as [|b s]; simpl.
    + split; [done | intros [post H]; discriminate].
    + rewrite andb_true_iff, Ascii.eqb_eq, IH. split.
      * intros [-> [post ->]]. by exists post.
      * intros [post H]. rewrite append_cons in H.
        injection H as -> ->. split; [done | by exists post].
Qed.

Lemma includes_spec (s sub : string) :
  Js.includes s sub = true <-> exists pre post, s = pre +:+ sub +:+ post.
Proof.
  induction s as [|c s IH]; simpl; rewrite orb_true_iff, startsWith_spec.
  - split.
    + intros [[post H] | ?]; [|done]. by exists "", post.
    + intros [[|x pre] [post H]]; [left; by exists post | discriminate].
  - rewrite IH. split.
    + intros [[post H] | [pre [post H]]].
      * by exists "", post.
      * exists (String c pre), post. by rewrite append_cons, H.
    + intros [[|x pre] [post H]].
      * left. by exists post.
      * right. rewrite append_cons in H. injection H as -> ->. by exists pre, post.
Qed.

Lemma toLowerCase_app (a b : string) :
  Js.toLowerCase (a +:+ b) = Js.toLowerCase a +:+ Js.toLowerCase b.
Proof.
  induction a as [|x a IH]; [done|].
  rewrite append_cons. simpl. by rewrite IH.
Qed.

Lemma toLowerCase_split (s x y : string) :
  Js.toLowerCase s = x +:+ y ->
  exists a b, s = a +:+ b /\ Js.toLowerCase a = x /\ Js.toLowerCase b = y.
Proof.
  revert s. induction x as [|c x IH]; intros s H.
  - by exists "", s.
  - destruct s as [|d s]; [discriminate|]. rewrite append_cons in H. simpl in H.
    injection H as Hc H. destruct (IH _ H) as (a & b & -> & Ha & Hb).
    exists (String d a), b. simpl. by rewrite Hc, Ha.
Qed.

Lemma includes_toLowerCase (text word : string) :
  Js.includes (Js.toLowerCase text) word = true <-> containsIgnoreCase text word.
Proof.
  rewrite includes_spec. split.
  - intros (pre & post & H).
    apply toLowerCase_split in H as (a & b & -> & _ & H).
    apply toLowerCase_split in H as (m & c & -> & Hm & _).
    by exists a, m, c.
  - intros (pre & mid & post & -> & <-).
    exists (Js.toLowerCase pre), (Js.toLowerCase post).
    by rewrite !toLowerCase_app.
Qed.

Lemma truthy_spec (s : string) : Js.truthy s = true <-> s <> "".
Proof.
  unfold Js.truthy. rewrite negb_true_iff. split.
  - intros H ->. by rewrite String.eqb_refl in H.
  - intros H. by apply String.eqb_neq.
Qed.

Lemma truthy_opt_spec (o : option string) : Js.truthy_opt o = true <-> present o.
Proof.
  destruct o as [s|]; simpl.
  - rewrite truthy_spec. split; [intros H; by exists s | by intros (? & [= <-] & ?)].
  - split; [done | by intros (? & ? & _)].
Qed.

(** ** Disposition classifier *)

Lemma statusIncludes_spec (a : LumaAttendee.t) (word : string) :
  statusIncludes (LumaAttendee.status a) word = true <-> statusContains a word.
Proof.
  unfold statusIncludes, statusContains. destruct (LumaAttendee.status a) as [s|].
  - rewrite includes_toLowerCase. split; [intros H; by exists s | by intros (? & [= <-] & ?)].
  - split; [done | by intros (? & ? & _)].
Qed.

Lemma classify_registration (a : LumaAttendee.t) :
  ProcessedAttendee.hasRegistration (classify a) = true <->
  present (LumaAttendee.registrationDate a) \/
  statusContains a "registered" \/ statusContains a "registration".
Proof.
  simpl. rewrite !orb_true_iff, truthy_opt_spec, !statusIncludes_spec. tauto.
Qed.

Lemma classify_attendance (a : LumaAttendee.t) :
  ProcessedAttendee.hasAttendance (classify a) = true <->
  LumaAttendee.hasJoinedEvent a = Some true \/
  present (LumaAttendee.attendanceDate a) \/
  statusContains a "attended" \/ statusContains a "checked" \/
  statusContains a "present".
Proof.
  simpl. rewrite !orb_true_iff, bool_decide_eq_true, truthy_opt_spec,
    !statusIncludes_spec. tauto.
Qed.

(** C4. The disposition classifier is a total map over the attendees: it
    yields one classified attendee per input attendee, in order and with the
    attendee's fields unchanged. [hasRegistration] is true exactly when the
    registration date is present or the status contains "registered" or
    "registration" regardless of case; [hasAttendance] is true exactly when
    [hasJoinedEvent] is true, or the attendance date is present, or the
    status contains "attended", "checked" or "present" regardless of case.
    The flags are independent: every combination of their values occurs. *)
Theorem processAttendees_flags (attendees : list LumaAttendee.t) :
  length (processAttendees attendees) = length attendees /\
  (forall i a, attendees !! i = Some a ->
     exists p, processAttendees attendees !! i = Some p /\
       ProcessedAttendee.attendee p = a /\
       (ProcessedAttendee.hasRegistration p = true <->
          present (LumaAttendee.registrationDate a) \/
          statusContains a "registered" \/ statusContains a "registration") /\
       (ProcessedAttendee.hasAttendance p = true <->
          LumaAttendee.hasJoinedEvent a = Some true \/
          present (LumaAttendee.attendanceDate a) \/
          statusContains a "attended" \/ statusContains a "checked" \/
          statusContains a "present")) /\
  (forall r t : bool, exists a,
     ProcessedAttendee.hasRegistration (classify a) = r /\
     ProcessedAttendee.hasAttendance (classify a) = t).
Proof.
  split; [apply length_map|]. split.
  - intros i a Hi. exists (classify a). split.
    + unfold processAttendees. by rewrite list_lookup_fmap, Hi.
    + split; [done|]. split; [apply classify_registration | apply classify_attendance].
  - intros r t. exists (bareAttendee r t). by destruct r, t.
Qed.

(** ** Event deriver *)

Section DerivationFacts.

Variable Date_parse : string -> option Z.
Variable Date_now : nat -> Z.

Lemma pushEvents_app k p settings events :
  pushEvents Date_parse Date_now k p settings events =
  events ++ pushEvents Date_parse Date_now k p settings [].
Proof.
  unfold pushEvents.
  destruct (ProcessedAttendee.hasRegistration p),
    (ProcessedAttendee.hasAttendance p); simpl;
    by rewrite <- ?app_assoc, ?app_nil_r.
Qed.

Lemma createIntercomEvents_from_app k attendees settings events :
  createIntercomEvents_from Date_parse Date_now k attendees settings events =
  events ++ createIntercomEvents_from Date_parse Date_now k attendees settings [].
Proof.
  revert k events. induction attendees as [|p rest IH]; intros k events; simpl.
  - by rewrite app_nil_r.
  - rewrite IH, (IH _ (pushEvents _ _ _ _ _ [])), pushEvents_app.
    by rewrite app_assoc.
Qed.

Lemma pushEvents_emitted k p settings :
  emitted p (pushEvents Date_parse Date_now k p settings []).
Proof.
  unfold emitted, pushEvents, eventFor.
  destruct (ProcessedAttendee.hasRegistration p),
    (ProcessedAttendee.hasAttendance p); simpl;
    [eexists _, _ | eexists | eexists | done]; by repeat split.
Qed.

Lemma createIntercomEvents_from_chunks k attendees settings :
  exists chunks,
    createIntercomEvents_from Date_parse Date_now k attendees settings [] =
      concat chunks /\
    Forall2 emitted attendees chunks.
Proof.
  revert k. induction attendees as [|p rest IH]; intros k; simpl.
  - by exists [].
  - destruct (IH (S k)) as (chunks & Heq & Hall).
    exists (pushEvents Date_parse Date_now k p settings [] :: chunks). split.
    + by rewrite createIntercomEvents_from_app, Heq.
    + constructor; [apply pushEvents_emitted | done].
Qed.

(** C5. The derived event sequence is the concatenation, in attendee
    order, of one chunk per classified attendee: a "registered" event
    followed by an "attended" event when both flags are true, the single
    corresponding event when exactly one flag is true, and nothing when
    both are false. Every event carries its attendee's email, name and
    phone. *)
Theorem createIntercomEvents_chunks attendees settings :
  exists chunks : list (list IntercomEvent.t),
    createIntercomEvents Date_parse Date_now attendees settings = concat chunks /\
    Forall2 emitted attendees chunks.
Proof. apply createIntercomEvents_from_chunks. Qed.

Lemma pushEvents_metadata k p settings e :
  e ∈ pushEvents Date_parse Date_now k p settings [] ->
  exists m, IntercomEvent.metadata e = Some m /\
    Metadata.event_date m = combinedEventDate settings.
Proof.
  unfold pushEvents.
  destruct (ProcessedAttendee.hasRegistration p),
    (ProcessedAttendee.hasAttendance p); simpl;
    rewrite ?elem_of_cons, elem_of_nil; intros H;
    repeat destruct H as [H|H]; subst; try done; eauto.
Qed.

Lemma createIntercomEvents_from_metadata k attendees settings e :
  e ∈ createIntercomEvents_from Date_parse Date_now k attendees settings [] ->
  exists m, IntercomEvent.metadata e = Some m /\
    Metadata.event_date m = combinedEventDate settings.
Proof.
  revert k. induction attendees as [|p rest IH]; intros k; simpl.
  - by rewrite elem_of_nil.
  - rewrite createIntercomEvents_from_app, elem_of_app.
    intros [H|H]; [by eapply pushEvents_metadata | by eapply IH].
Qed.

Lemma combinedEventDate_cases settings :
  let date := settings_field settings EventSettings.eventDate in
  let time := settings_field settings EventSettings.eventTime in
  (forall d t, date = Some d -> d <> "" -> time = Some t -> t <> "" ->
     combinedEventDate settings = Some (d +:+ " " +:+ t)) /\
  (present date -> ~ present time -> combinedEventDate settings = date) /\
  (~ present date -> combinedEventDate settings = None).
Proof.
  intros date time. unfold combinedEventDate. fold date time.
  unfold Js.or_undefined.
  destruct (Js.truthy_opt date) eqn:Hd, (Js.truthy_opt time) eqn:Ht; simpl.
  - split; [|split].
    + by intros d t -> _ -> _.
    + intros _ H. destruct H. by apply truthy_opt_spec.
    + intros H. destruct H. by apply truthy_opt_spec.
  - split; [|split].
    + intros d t _ _ Ht1 Ht2. assert (present time) as H by by exists t.
      apply truthy_opt_spec in H. congruence.
    + done.
    + intros H. destruct H. by apply truthy_opt_spec.
  - split; [|split].
    + intros d t Hd1 Hd2 _ _. assert (present date) as H by by exists d.
      apply truthy_opt_spec in H. congruence.
    + intros H. apply truthy_opt_spec in H. congruence.
    + done.
  - split; [|split].
    + intros d t Hd1 Hd2 _ _. assert (present date) as H by by exists d.
      apply truthy_opt_spec in H. congruence.
    + intros H. apply truthy_opt_spec in H. congruence.
    + done.
Qed.

(** C6, as the code has it. Every derived event carries metadata whose
    [event_date] is the event date and the event time joined by one space
    when both are present, the event date alone when only the date is
    present, and is absent whenever the date is absent, whether or not a
    time is given. *)
Theorem createIntercomEvents_event_date attendees settings e :
  e ∈ createIntercomEvents Date_parse Date_now attendees settings ->
  let date := settings_field settings EventSettings.eventDate in
  let time := settings_field settings EventSettings.eventTime in
  exists m, IntercomEvent.metadata e = Some m /\
    (forall d t, date = Some d -> d <> "" -> time = Some t -> t <> "" ->
       Metadata.event_date m = Some (d +:+ " " +:+ t)) /\
    (present date -> ~ present time -> Metadata.event_date m = date) /\
    (~ present date -> Metadata.event_date m = None).
Proof.
  intros He date time.
  apply createIntercomEvents_from_metadata in He as (m & Hm & Hd).
  exists m. split; [done|]. rewrite Hd. apply combinedEventDate_cases.
Qed.

End DerivationFacts.

Lemma createIntercomEvents_event_date_witness :
  let events :=
    createIntercomEvents noParse fixedNow [classify (bareAttendee true false)]
      (Some dateAndTime) in
  exists e m, events = [e] /\ IntercomEvent.metadata e = Some m /\
    Metadata.event_date m = Some "2024-05-01 19:00:00".
Proof.
  eexists _, _. split; [reflexivity|].
  destruct (createIntercomEvents_event_date noParse fixedNow
              [classify (bareAttendee true false)] (Some dateAndTime) _
              ltac:(apply list_elem_of_here)) as (m & Hm & Hboth & _).
  injection Hm as <-. split; [reflexivity|].
  by apply (Hboth "2024-05-01" "19:00:00").
Defined.

(** C6 as stated fails: with a time and no date, the registered attendee's
    event has no [event_date] at all, so it is not the time. *)
Lemma event_date_time_only :
  let events :=
    createIntercomEvents noParse fixedNow [classify (bareAttendee true false)]
      (Some timeOnly) in
  exists e m, events = [e] /\ IntercomEvent.metadata e = Some m /\
    Metadata.event_date m = None /\
    Metadata.event_date m <> EventSettings.eventTime timeOnly.
Proof. eexists _, _. repeat split; [reflexivity..|done]. Qed.

(** ** Contact resolver and event publisher *)

Lemma errorMessage_IntercomError statusCode message body :
  errorMessage (IntercomError statusCode message body) =
  "Intercom API error (" +:+ statusCode_text statusCode +:+ "): " +:+
  errorDetails message body +:+ requestIdSuffix body.
Proof.
  unfold errorMessage, errorDetails, requestIdSuffix.
  destruct body as [[errors [rid|]]|]; simpl;
    [destruct (Js.truthy rid)|..];
    by rewrite ?append_assoc, ?append_empty_r.
Qed.

Lemma eventTypeOf_domainEvent e :
  domainEvent e -> EventType_name (eventTypeOf e) = IntercomEvent.event_name e.
Proof. unfold eventTypeOf. by intros [-> | ->]. Qed.

Lemma outcomeOf_corresponds e submission : corresponds e (outcomeOf e submission).
Proof. split; [done | apply eventTypeOf_domainEvent]. Qed.

Section PublisherFacts.

Context {World U : Type} `{api : IntercomApi World}.
Variable env : Env.

Implicit Types s : State World U.

Lemma getIntercomClient_configured testMode s :
  configured env testMode ->
  getIntercomClient (U:=U) env testMode s = (Ok (clientOf env testMode), s).
Proof.
  intros H. apply truthy_opt_spec in H. unfold getIntercomClient.
  destruct testMode; simpl in *; by rewrite H.
Qed.

Lemma getIntercomClient_unset testMode s :
  ~ configured env testMode ->
  getIntercomClient (U:=U) env testMode s = (Throw (notConfigured testMode), s).
Proof.
  intros H. unfold configured in H. rewrite <- truthy_opt_spec in H.
  apply not_true_is_false in H. unfold getIntercomClient.
  destruct testMode; simpl in *; by rewrite H.
Qed.

(** Symbolic execution of the resolver, one goal per path. *)
Ltac run_resolver :=
  unfold ensureUserExists, bind;
  rewrite getIntercomClient_configured by done;
  unfold try_catch, await, findAndUpdate, bind, await, console_warn, log, ret;
  simpl;
  repeat (case_match; simplify_eq/=).

Lemma ensureUserExists_returns email name phone testMode s :
  configured env testMode ->
  exists s1 tr,
    ensureUserExists env email name phone testMode s = (Ok tt, s1) /\
    locals s1 = locals s /\
    trace s1 = trace s ++ ContactsCreate (userDataOf email name phone) :: tr /\
    Forall (resolverFollowUp email name phone) tr.
Proof.
  intros Hc. run_resolver; fold (userDataOf email name phone);
    repeat match goal with u : unit |- _ => destruct u end;
    eexists _, _; (split; [reflexivity|]); (split; [reflexivity|]); simpl;
    rewrite <- ?app_assoc; simpl; (split; [reflexivity|]);
    repeat (apply Forall_cons_2 || apply Forall_nil_2); simpl; try done.
  all: split_and!; try done.
  all: match goal with H : bool_decide (is_Some _) || _ = true |- _ =>
         apply orb_true_iff in H; by rewrite !bool_decide_eq_true in H end.
Qed.

Lemma publishEvent_run event testMode s :
  configured env testMode ->
  exists s1,
    ensureUserExists env (IntercomEvent.email event) (IntercomEvent.name event)
      (IntercomEvent.phone_number event) testMode s = (Ok tt, s1) /\
    let submission :=
      events_create (clientOf env testMode) (eventPayload event) (remote s1) in
    publishEvent env event testMode s =
      (Ok (outcomeOf event submission.1),
       mkState submission.2
         (trace s1 ++ [SetTimeout 200; EventsCreate (eventPayload event)])
         (locals s1)).
Proof.
  intros Hc.
  destruct (ensureUserExists_returns (IntercomEvent.email event)
    (IntercomEvent.name event) (IntercomEvent.phone_number event) testMode s Hc)
    as (s1 & tr & Hrun & _).
  exists s1. split; [done|]. unfold publishEvent, bind at 1.
  rewrite getIntercomClient_configured by done.
  unfold try_catch, bind. rewrite Hrun.
  unfold setTimeout, log, await, ret. simpl.
  destruct (events_create _ _ _) as [[[]|err] w]; simpl;
    by rewrite <- app_assoc.
Qed.

Lemma publishEvent_unset event testMode s :
  ~ configured env testMode ->
  publishEvent env event testMode s = (Throw (notConfigured testMode), s).
Proof.
  intros Hc. unfold publishEvent, bind.
  by rewrite getIntercomClient_unset.
Qed.

(** Publishing one event with a configured credential: an outcome about
    that event, the caller's variables untouched, and only steps of that
    event's publication added to the log, the submission last. *)
Lemma publishEvent_steps event testMode s :
  configured env testMode ->
  exists r s' tr,
    publishEvent env event testMode s = (Ok r, s') /\
    locals s' = locals s /\
    trace s' = trace s ++ tr ++ [EventsCreate (eventPayload event)] /\
    Forall (publishStep event) tr /\
    corresponds event r.
Proof.
  intros Hc. destruct (publishEvent_run event testMode s Hc) as (s1 & Hres & Hrun).
  destruct (ensureUserExists_returns (IntercomEvent.email event)
    (IntercomEvent.name event) (IntercomEvent.phone_number event) testMode s Hc)
    as (s1' & tr & Hres' & Hloc & Htr & Hall).
  rewrite Hres in Hres'. injection Hres' as <-.
  eexists _, _, (ContactsCreate _ :: tr ++ [SetTimeout 200]).
  split; [exact Hrun|]. simpl. split; [done|]. split.
  - rewrite Htr. by rewrite <- !app_assoc.
  - split; [|apply outcomeOf_corresponds].
    constructor; [done|]. apply Forall_app. split.
    + eapply Forall_impl; [exact Hall|]. by intros [].
    + by repeat constructor.
Qed.

End PublisherFacts.

Lemma trimmed_supplied (field : option string) : suppliedField field (trimmed field).
Proof.
  unfold trimmed, suppliedField. destruct field as [v|]; [|done].
  destruct (Js.truthy v) eqn:Hv; simpl.
  - destruct (Js.truthy (Js.trim v)) eqn:Ht.
    + apply truthy_spec in Ht. split; [done | by exists v].
    + intros x [= <-]. apply not_true_iff_false in Ht.
      rewrite truthy_spec in Ht. by destruct (decide (Js.trim v = "")).
  - intros x [= <-]. apply not_true_iff_false in Hv. rewrite truthy_spec in Hv.
    destruct (decide (v = "")) as [->|]; done.
Qed.

(** The field that is sent is determined by the field that was supplied. *)
Lemma suppliedField_trimmed (raw sent : option string) :
  suppliedField raw sent -> sent = trimmed raw.
Proof.
  pose proof (trimmed_supplied raw) as Ht. revert Ht.
  unfold suppliedField. destruct sent as [v|], (trimmed raw) as [v'|]; try done.
  - intros (_ & x & -> & ->) (_ & y & [= <-] & ->). done.
  - intros Hblank (Hv & x & -> & ->). by destruct Hv; apply Hblank.
  - intros (Hv & x & -> & ->) Hblank. by destruct Hv; apply Hblank.
Qed.

Section PublisherClaims.

Context {World U : Type} `{api : IntercomApi World}.
Variable env : Env.

Implicit Types s : State World U.

(** C2, as the code has it. With the access token that [testMode] selects
    set in the environment, [publishEvent] returns an outcome for every
    event and every state of the remote system, whatever the remote calls
    do. The outcome carries the event's email and kind. It is a success
    without error text when the event submission resolves. When the
    submission rejects with a remote-API error, it is a failure whose text
    is "Intercom API error (status): details" where the details are the
    per-field messages joined by ", " (the error's own message when the
    body has none), followed by " Request ID: id" when the body carries a
    non-empty request id. When it rejects with another error the text is
    that error's message, and "Unknown error" for a thrown non-error. *)
Theorem publishEvent_outcome event testMode s :
  configured env testMode ->
  exists s1 r s',
    ensureUserExists env (IntercomEvent.email event) (IntercomEvent.name event)
      (IntercomEvent.phone_number event) testMode s = (Ok tt, s1) /\
    publishEvent env event testMode s = (Ok r, s') /\
    ProcessingResult.email r = IntercomEvent.email event /\
    (domainEvent event ->
     EventType_name (ProcessingResult.eventType r) = IntercomEvent.event_name event) /\
    match (events_create (clientOf env testMode) (eventPayload event) (remote s1)).1 with
    | Ok _ =>
        ProcessingResult.success r = true /\ ProcessingResult.error r = None
    | Throw (IntercomError statusCode message body) =>
        ProcessingResult.success r = false /\
        ProcessingResult.error r =
          Some ("Intercom API error (" +:+ statusCode_text statusCode +:+ "): " +:+
                errorDetails message body +:+ requestIdSuffix body)
    | Throw (JsError message) =>
        ProcessingResult.success r = false /\
        ProcessingResult.error r = Some message
    | Throw Thrown =>
        ProcessingResult.success r = false /\
        ProcessingResult.error r = Some "Unknown error"
    end.
Proof.
  intros Hc. destruct (publishEvent_run env event testMode s Hc) as (s1 & Hres & Hrun).
  eexists s1, _, _. split; [exact Hres|]. split; [exact Hrun|].
  split; [done|]. split; [apply eventTypeOf_domainEvent|].
  destruct (events_create _ _ _) as [[[]|[code msg body|msg|]] w]; simpl;
    try done.
  by rewrite <- errorMessage_IntercomError.
Qed.

(** C3. When the contact-create call of an event's publication is rejected
    with status 409 or 422, the resolver searches for the contact by the
    event's exact email. When the search finds a contact and a name or a
    phone was supplied, it attempts one update, addressed to the first
    contact found and carrying exactly the trimmed non-empty name and
    phone; it skips the update when neither was supplied or no contact was
    found. A failing search or update is swallowed with a warning, and the
    resolver returns normally in every case. The publication then waits
    the settle delay and submits the event, and the outcome is a success
    exactly when that submission resolves. *)
Theorem conflict_reaches_submission event testMode s statusCode message body w1 :
  configured env testMode ->
  contacts_create (clientOf env testMode)
    (userDataOf (IntercomEvent.email event) (IntercomEvent.name event)
       (IntercomEvent.phone_number event)) (remote s)
  = (Throw (IntercomError (Some statusCode) message body), w1) ->
  statusCode = 409%Z \/ statusCode = 422%Z ->
  exists s1 tr r s',
    ensureUserExists env (IntercomEvent.email event) (IntercomEvent.name event)
      (IntercomEvent.phone_number event) testMode s = (Ok tt, s1) /\
    trace s1 =
      trace s ++
      ContactsCreate (userDataOf (IntercomEvent.email event)
        (IntercomEvent.name event) (IntercomEvent.phone_number event)) ::
      ContactsSearch (IntercomEvent.email event) :: tr /\
    conflictFollowUp (clientOf env testMode) (IntercomEvent.email event)
      (IntercomEvent.name event) (IntercomEvent.phone_number event)
      (contacts_search (clientOf env testMode) (IntercomEvent.email event) w1)
      tr (remote s1) /\
    publishEvent env event testMode s = (Ok r, s') /\
    trace s' = trace s1 ++ [SetTimeout 200; EventsCreate (eventPayload event)] /\
    (ProcessingResult.success r = true <->
     exists w, events_create (clientOf env testMode) (eventPayload event) (remote s1)
               = (Ok tt, w)).
Proof.
  intros Hc Hcreate Hcode.
  destruct (publishEvent_run env event testMode s Hc) as (s1 & Hres & Hrun).
  assert (exists tr,
    trace s1 =
      trace s ++
      ContactsCreate (userDataOf (IntercomEvent.email event)
        (IntercomEvent.name event) (IntercomEvent.phone_number event)) ::
      ContactsSearch (IntercomEvent.email event) :: tr /\
    conflictFollowUp (clientOf env testMode) (IntercomEvent.email event)
      (IntercomEvent.name event) (IntercomEvent.phone_number event)
      (contacts_search (clientOf env testMode) (IntercomEvent.email event) w1)
      tr (remote s1)) as (tr & Htr & Hfollow).
  { clear Hrun. revert Hres. unfold ensureUserExists, bind.
    rewrite getIntercomClient_configured by done.
    unfold try_catch, await. fold (userDataOf (IntercomEvent.email event)
      (IntercomEvent.name event) (IntercomEvent.phone_number event)).
    rewrite Hcreate.
    assert (bool_decide (Some statusCode = Some 422%Z) ||
            bool_decide (Some statusCode = Some 409%Z) = true) as ->.
    { destruct Hcode as [-> | ->]; done. }
    unfold findAndUpdate, bind, await, console_warn, log, ret,
      conflictFollowUp, foundContact. simpl.
    pose proof (trimmed_supplied (IntercomEvent.name event)) as Hn.
    pose proof (trimmed_supplied (IntercomEvent.phone_number event)) as Hp.
    destruct (contacts_search _ _ w1) as [[searchResult|searchError] w2]; simpl;
      [|intros [= <-]; simpl; rewrite <- !app_assoc; by eexists].
    destruct (SearchResult.data searchResult) as [[|contact rest]|]; simpl;
      [intros [= <-]; simpl; rewrite <- !app_assoc; by eexists | |
       intros [= <-]; simpl; rewrite <- !app_assoc; by eexists].
    destruct (bool_decide (is_Some (trimmed (IntercomEvent.phone_number event))) ||
              bool_decide (is_Some (trimmed (IntercomEvent.name event)))) eqn:Hsupplied.
    - apply orb_true_iff in Hsupplied. rewrite !bool_decide_eq_true in Hsupplied.
      match goal with |- context [contacts_update ?c ?u ?w] =>
        destruct (contacts_update c u w) as [[[]|updateError] w3] eqn:Hupdate end;
        simpl; intros [= <-]; simpl; rewrite <- !app_assoc; simpl;
        eexists; (split; [reflexivity|]);
        eexists (UpdateData.mk _ _ _); simpl;
        (split; [reflexivity|]); (split; [exact Hn|]); (split; [exact Hp|]);
        right; (split; [tauto|]); simpl in Hupdate; by rewrite Hupdate.
    - apply orb_false_iff in Hsupplied. rewrite !bool_decide_eq_false in Hsupplied.
      destruct Hsupplied as [Hphone Hname].
      intros [= <-]. simpl. rewrite <- !app_assoc. eexists. split; [reflexivity|].
      eexists (UpdateData.mk _ _ _). simpl.
      split; [reflexivity|]. split; [exact Hn|]. split; [exact Hp|]. left.
      split_and!; try done.
      + by destruct (trimmed (IntercomEvent.name event)); [destruct Hname|].
      + by destruct (trimmed (IntercomEvent.phone_number event)); [destruct Hphone|]. }
  eexists s1, tr, _, _. split; [exact Hres|]. split; [exact Htr|].
  split; [exact Hfollow|]. split; [exact Hrun|]. split; [done|]. simpl.
  destruct (events_create _ _ _) as [[[]|err] w]; simpl.
  - split; [by exists w | done].
  - split; [done | by intros [? ?]].
Qed.

End PublisherClaims.

Lemma publishEvent_outcome_witness :
  exists r s',
    publishEvent liveOnly (sampleEvent "registered-for-event" "a@x.com") false
      (demoState [] tt) = (Ok r, s') /\
    ProcessingResult.success r = true /\
    ProcessingResult.email r = "a@x.com".
Proof.
  destruct (publishEvent_outcome liveOnly
              (sampleEvent "registered-for-event" "a@x.com") false (demoState [] tt))
    as (s1 & r & s' & Hres & Hrun & Hemail & _ & Hsub).
  { exists "live-token". split; [reflexivity | discriminate]. }
  exists r, s'. split; [exact Hrun|].
  injection Hres as <-. split; [apply Hsub | exact Hemail].
Defined.

(** C2 as stated fails: with no access token in the environment,
    [publishEvent] raises the configuration error instead of returning an
    outcome. *)
Lemma publishEvent_raises_without_token :
  publishEvent noTokens (sampleEvent "registered-for-event" "a@x.com") false
    (demoState [] tt)
  = (Throw (JsError "INTERCOM_ACCESS_TOKEN environment variable is not set. Please add it to your .env.local file."),
     demoState [] tt) /\
  ~ exists r s',
      publishEvent noTokens (sampleEvent "registered-for-event" "a@x.com") false
        (demoState [] tt) = (Ok r, s').
Proof. split; [reflexivity | by intros (r & s' & H)]. Qed.

Lemma conflict_reaches_submission_witness :
  exists r s',
    publishEvent liveOnly (sampleEvent "attended-event" "a@x.com") false
      (demoState ["a@x.com"] tt) = (Ok r, s') /\
    ProcessingResult.success r = true /\
    trace s' =
      [ContactsCreate (userDataOf "a@x.com" (Some " Ada ") (Some ""));
       ContactsSearch "a@x.com";
       ContactsUpdate {| UpdateData.contact_id := "a@x.com";
                         UpdateData.phone := None;
                         UpdateData.name := Some "Ada" |};
       SetTimeout 200;
       EventsCreate (eventPayload (sampleEvent "attended-event" "a@x.com"))].
Proof.
  destruct (conflict_reaches_submission liveOnly
              (sampleEvent "attended-event" "a@x.com") false
              (demoState ["a@x.com"] tt) 409 "Conflict" None ["a@x.com"])
    as (s1 & tr & r & s' & Hres & Htr & _ & Hrun & Htr' & Hsucc).
  - exists "live-token". split; [reflexivity | discriminate].
  - reflexivity.
  - by left.
  - exists r, s'. split; [exact Hrun|]. injection Hres as <-. split.
    + apply Hsucc. by eexists.
    + rewrite Htr'. reflexivity.
Defined.

(** ** Batch orchestrator *)

Lemma reported_app tr1 tr2 : reported (tr1 ++ tr2) = reported tr1 ++ reported tr2.
Proof. apply omap_app. Qed.

Lemma reported_cons a tr :
  reported (a :: tr) =
  match a with
  | OnProgress r _ _ => r :: reported tr
  | _ => reported tr
  end.
Proof. by destruct a. Qed.

Lemma reported_publishStep e tr : Forall (publishStep e) tr -> reported tr = [].
Proof.
  induction 1 as [|a tr Ha _ IH]; [done|].
  rewrite reported_cons, IH. by destruct a.
Qed.

Lemma reported_pacing total : reported (pacingActions total) = [].
Proof. unfold pacingActions. by case_match. Qed.

Lemma reported_published e step : published e step -> reported step.1 = [].
Proof.
  intros [(pre & -> & Hpre) _].
  by rewrite reported_app, (reported_publishStep e).
Qed.

Lemma reported_progressTrace total i todo steps :
  Forall2 published todo steps -> reported (progressTrace total i steps) = steps.*2.
Proof.
  intros H. revert i. induction H as [|e [tr r] todo steps He _ IH]; intros i; [done|].
  apply reported_published in He. simpl in *.
  by rewrite reported_app, He, reported_cons, reported_app, reported_pacing, IH.
Qed.

Lemma published_corresponds todo steps :
  Forall2 published todo steps -> Forall2 corresponds todo steps.*2.
Proof.
  intros H. apply Forall2_fmap_r. eapply Forall2_impl; [exact H|].
  by intros e step [_ ?].
Qed.

Section OrchestratorFacts.

Context {World U : Type} `{api : IntercomApi World}.
Variable env : Env.

Implicit Types s : State World U.

Lemma pacing_run events s :
  pacing events s =
  (Ok tt, mkState (remote s) (trace s ++ pacingActions (length events)) (locals s)).
Proof.
  unfold pacing, pacingActions. destruct s. case_match; simpl; [done|].
  by rewrite app_nil_r.
Qed.

Lemma publishEvent_published event testMode s :
  configured env testMode ->
  exists step s',
    publishEvent env event testMode s = (Ok step.2, s') /\
    locals s' = locals s /\
    trace s' = trace s ++ step.1 /\
    published event step.
Proof.
  intros Hc.
  destruct (publishEvent_steps env event testMode s Hc)
    as (r & s' & tr & Hrun & Hloc & Htr & Hall & Hcorr).
  exists (tr ++ [EventsCreate (eventPayload event)], r), s'.
  split_and!; try done. split; [|done]. by exists tr.
Qed.

Lemma publishEvents_from_run events testMode todo results s :
  configured env testMode ->
  exists steps s',
    publishEvents_from env events todo testMode results s =
      (Ok (results ++ steps.*2), s') /\
    Forall2 published todo steps /\
    trace s' = trace s ++ plainTrace (length events) steps /\
    locals s' = locals s.
Proof.
  intros Hc. revert results s.
  induction todo as [|e todo IH]; intros results s; simpl.
  - exists [], s. by rewrite !app_nil_r.
  - destruct (publishEvent_published e testMode s Hc)
      as ([tr r] & s1 & Hrun & Hloc & Htr & Hpub).
    unfold bind at 1. rewrite Hrun. unfold bind. rewrite pacing_run.
    edestruct (IH (results ++ [r])) as (steps & s' & Hloop & Hall & Htr' & Hloc').
    rewrite Hloop. exists ((tr, r) :: steps), s'. simpl in *. split_and!.
    + by rewrite <- app_assoc.
    + by constructor.
    + rewrite Htr', Htr. by rewrite <- !app_assoc.
    + by rewrite Hloc', Hloc.
Qed.

(** The progress loop, for a callback that returns normally as long as an
    invariant [I] of the caller's variables holds, and keeps it. *)
Lemma publishEventsWithProgress_from_run (I : U -> Prop) (cb : Callback U)
    events testMode todo i s :
  configured env testMode ->
  (forall r j t u, I u -> exists u', cb r j t u = (Ok tt, u') /\ I u') ->
  I (locals s) ->
  exists steps s',
    publishEventsWithProgress_from env events todo i cb testMode s = (Ok tt, s') /\
    Forall2 published todo steps /\
    trace s' = trace s ++ progressTrace (length events) i steps /\
    locals s' = feed cb (length events) i steps.*2 (locals s) /\
    I (locals s').
Proof.
  intros Hc Hcb. revert i s.
  induction todo as [|e todo IH]; intros i s HI; simpl.
  - exists [], s. by rewrite app_nil_r.
  - destruct (publishEvent_published e testMode s Hc)
      as ([tr r] & s1 & Hrun & Hloc & Htr & Hpub).
    unfold bind at 1. rewrite Hrun. unfold bind at 1, call_onProgress.
    simpl in *. rewrite Hloc.
    destruct (Hcb r (i + 1) (length events) (locals s) HI) as (u' & Hu & HI').
    rewrite Hu. unfold bind. rewrite pacing_run. simpl.
    edestruct (IH (S i)) as (steps & s' & Hloop & Hall & Htr' & Hloc' & HI'');
      [|rewrite Hloop].
    { exact HI'. }
    exists ((tr, r) :: steps), s'. simpl in *. split_and!; try done.
    + by constructor.
    + rewrite Htr', Htr. by rewrite <- !app_assoc.
    + by rewrite Hloc', Hu.
Qed.

Lemma publishEventsWithProgress_from_unset (cb : Callback U) events testMode e todo i s :
  ~ configured env testMode ->
  publishEventsWithProgress_from env events (e :: todo) i cb testMode s =
  (Throw (notConfigured testMode), s).
Proof.
  intros Hc. simpl. unfold bind. by rewrite publishEvent_unset.
Qed.

(** C1, as the code has it. With the access token that [testMode] selects
    set in the environment, [publishEvents] returns, for every list of
    events, a list of outcomes of the same length in which the outcome at
    each position has the email and the kind of the event at that
    position; and [publishEventsWithProgress], given a callback that does
    not throw, returns after passing such a list of outcomes to the
    callback, one call per event and in event order. *)
Theorem outcomes_match_events events testMode (cb : Callback U) s :
  configured env testMode ->
  neverThrows cb ->
  (exists results s',
     publishEvents env events testMode s = (Ok results, s') /\
     length results = length events /\
     Forall2 corresponds events results) /\
  (exists results s',
     publishEventsWithProgress env events cb testMode s = (Ok tt, s') /\
     reported (trace s') = reported (trace s) ++ results /\
     length results = length events /\
     Forall2 corresponds events results).
Proof.
  intros Hc Hcb. split.
  - destruct (publishEvents_from_run events testMode events [] s Hc)
      as (steps & s' & Hrun & Hall & _).
    exists steps.*2, s'. split; [exact Hrun|].
    apply published_corresponds in Hall.
    split; [symmetry; by eapply Forall2_length | done].
  - destruct (publishEventsWithProgress_from_run (fun _ => True) cb events
                testMode events 0 s Hc) as (steps & s' & Hrun & Hall & Htr & _).
    { intros r j t u _. destruct (Hcb r j t u) as [u' Hu]. by exists u'. }
    { done. }
    exists steps.*2, s'. split; [exact Hrun|]. split.
    + by rewrite Htr, reported_app, (reported_progressTrace _ _ events).
    + apply published_corresponds in Hall.
      split; [symmetry; by eapply Forall2_length | done].
Qed.

(** C7, as the code has it. With the access token set and a callback that
    does not throw, a run of [publishEventsWithProgress] performs, for
    each event in order, the steps of that event's publication, ending
    with its submission, then the call [onProgress(outcome, i+1, total)],
    and then the pacing delay, which is waited after every event, the
    last one included, exactly when the batch has more than one event. A
    run of [publishEvents] performs the same steps without the progress
    call and returns the outcomes in event order. *)
Theorem batch_step_order events testMode (cb : Callback U) s :
  configured env testMode ->
  neverThrows cb ->
  (exists steps s',
     publishEventsWithProgress env events cb testMode s = (Ok tt, s') /\
     Forall2 published events steps /\
     trace s' = trace s ++ progressTrace (length events) 0 steps) /\
  (exists steps s',
     publishEvents env events testMode s = (Ok steps.*2, s') /\
     Forall2 published events steps /\
     trace s' = trace s ++ plainTrace (length events) steps).
Proof.
  intros Hc Hcb. split.
  - destruct (publishEventsWithProgress_from_run (fun _ => True) cb events
                testMode events 0 s Hc) as (steps & s' & Hrun & Hall & Htr & _).
    { intros r j t u _. destruct (Hcb r j t u) as [u' Hu]. by exists u'. }
    { done. }
    by exists steps, s'.
  - destruct (publishEvents_from_run events testMode events [] s Hc)
      as (steps & s' & Hrun & Hall & Htr & _).
    by exists steps, s'.
Qed.

End OrchestratorFacts.

Lemma liveOnly_configured : configured liveOnly false.
Proof. exists "live-token". split; [reflexivity | discriminate]. Qed.

Lemma collect_neverThrows : neverThrows collect.
Proof. intros r i t u. by eexists. Qed.

Lemma outcomes_match_events_witness :
  exists results s',
    publishEvents liveOnly twoEvents false freshCollector = (Ok results, s') /\
    length results = 2%nat.
Proof.
  destruct (outcomes_match_events liveOnly twoEvents false collect freshCollector
              liveOnly_configured collect_neverThrows)
    as [(results & s' & Hrun & Hlen & _) _].
  by exists results, s'.
Defined.

(** C1 as stated fails: with no access token in the environment a batch of
    one event yields no outcome at all. [publishEvents] raises instead of
    returning a list, and [publishEventsWithProgress] raises before the
    callback has been given anything. *)
Lemma no_outcomes_without_token :
  (~ exists results s',
       publishEvents noTokens [sampleEvent "registered-for-event" "a@x.com"] false
         freshCollector = (Ok results, s')) /\
  let run :=
    publishEventsWithProgress noTokens [sampleEvent "registered-for-event" "a@x.com"]
      collect false freshCollector in
  run.1 = Throw (notConfigured false) /\
  reported (trace run.2) = [] /\
  locals run.2 = [].
Proof. split; [by intros (results & s' & H) | done]. Qed.

Lemma batch_step_order_witness :
  exists steps s',
    publishEventsWithProgress liveOnly twoEvents collect false freshCollector
      = (Ok tt, s') /\
    trace s' = progressTrace 2 0 steps /\
    length steps = 2%nat.
Proof.
  destruct (batch_step_order liveOnly twoEvents false collect freshCollector
              liveOnly_configured collect_neverThrows)
    as [(steps & s' & Hrun & Hall & Htr) _].
  exists steps, s'. split; [exact Hrun|]. split; [exact Htr|].
  symmetry. exact (Forall2_length _ _ _ Hall).
Defined.

(** C7 as stated fails: in a batch of two events the pacing delay is also
    waited after the progress call of the second, last event. *)
Lemma pacing_follows_last_event :
  let run :=
    publishEventsWithProgress liveOnly twoEvents collect false freshCollector in
  (exists pre r, trace run.2 = pre ++ [OnProgress r 2 2; SetTimeout 100]) /\
  ~ noPacingAfterLast 2 (trace run.2).
Proof.
  intros run.
  assert (exists pre r, trace run.2 = pre ++ [OnProgress r 2 2; SetTimeout 100])
    as (pre & r & Htr).
  { exists (take 10 (trace run.2)),
      {| ProcessingResult.success := true;
         ProcessingResult.email := "a@x.com";
         ProcessingResult.eventType := AttendedEvent;
         ProcessingResult.error := None |}.
    reflexivity. }
  split; [by exists pre, r|].
  intros H. apply (H pre r [SetTimeout 100] Htr). by left.
Qed.

(** ** Progress stream *)

Lemma successes_snoc rs r :
  successes (rs ++ [r]) =
  if ProcessingResult.success r then S (successes rs) else successes rs.
Proof.
  unfold successes. rewrite filter_app, length_app.
  destruct (ProcessingResult.success r) eqn:Hr.
  - rewrite filter_cons_True by done. simpl. lia.
  - rewrite filter_cons_False by (rewrite Hr; done). simpl. lia.
Qed.

Lemma failures_snoc rs r :
  failures (rs ++ [r]) =
  if ProcessingResult.success r then failures rs else S (failures rs).
Proof.
  unfold failures. rewrite filter_app, length_app.
  destruct (ProcessingResult.success r) eqn:Hr.
  - rewrite filter_cons_False by (rewrite Hr; done). simpl. lia.
  - rewrite filter_cons_True by done. simpl. lia.
Qed.

Lemma onProgress_open r j t u :
  streamOpen u -> exists u', onProgress r j t u = (Ok tt, u') /\ streamOpen u'.
Proof.
  intros Hopen. unfold onProgress, on_controller, enqueue. simpl.
  unfold streamOpen in Hopen. rewrite Hopen. by eexists.
Qed.

Lemma progressOf_lookup total pre r rest :
  progressOf total (pre ++ r :: rest) !! length pre =
  Some (MsgProgress r (length pre + 1) total
          (successes (pre ++ [r])) (failures (pre ++ [r]))).
Proof.
  unfold progressOf. rewrite list_lookup_imap.
  rewrite list_lookup_middle by done. simpl.
  rewrite (cons_middle r pre rest), app_assoc.
  rewrite take_app_length' by (rewrite length_app; simpl; lia).
  by rewrite Nat.add_1_r.
Qed.

(** The stream variables after the progress calls for [rest], when [pre]
    has been reported before. *)
Lemma feed_onProgress total pre rest c :
  feed onProgress total (length pre) rest
    (mkLocals (mkController c false) pre (successes pre) (failures pre)) =
  mkLocals
    (mkController (c ++ drop (length pre) (progressOf total (pre ++ rest))) false)
    (pre ++ rest) (successes (pre ++ rest)) (failures (pre ++ rest)).
Proof.
  revert pre c. induction rest as [|r rest IH]; intros pre c.
  - simpl. rewrite app_nil_r, drop_ge, app_nil_r; [done|].
    unfold progressOf. by rewrite length_imap.
  - simpl. unfold onProgress at 1, on_controller, enqueue. simpl.
    rewrite <- successes_snoc, <- failures_snoc.
    replace (S (length pre)) with (length (pre ++ [r]))
      by (rewrite length_app; simpl; lia).
    rewrite IH. rewrite <- !(assoc_L (++) pre [r] rest). simpl.
    rewrite (drop_S _ _ _ (progressOf_lookup total pre r rest)).
    rewrite <- (assoc_L (++) c). simpl.
    by replace (length (pre ++ [r])) with (S (length pre))
      by (rewrite length_app; simpl; lia).
Qed.

Section StreamFacts.

Context {World : Type} `{api : IntercomApi World}.
Variable env : Env.

Lemma sendMessage_open (data : Message) (s : State World StreamLocals) :
  streamOpen (locals s) ->
  sendMessage data s =
  (Ok tt,
   mkState (remote s) (trace s)
     (mkLocals (mkController (chunks (controller (locals s)) ++ [data]) false)
        (results (locals s)) (successful (locals s)) (failed (locals s)))).
Proof.
  intros Hopen. unfold sendMessage, on_locals, on_controller, enqueue.
  unfold streamOpen in Hopen. by rewrite Hopen.
Qed.

(** The run of [start] when the loop completes: the access token is set,
    or there is no event to publish. *)
Lemma start_completes events totalProcessed errors testMode w :
  configured env testMode \/ events = [] ->
  exists steps s',
    start env events totalProcessed errors testMode (freshStream w) = (Ok tt, s') /\
    Forall2 published events steps /\
    trace s' = progressTrace (length events) 0 steps /\
    locals s' =
      mkLocals
        (mkController
           (MsgStart (length events) totalProcessed ::
            progressOf (length events) steps.*2 ++
            [MsgComplete totalProcessed (successes steps.*2) (failures steps.*2)
               steps.*2 (if (0 <? length errors)%nat then Some errors else None)])
           true)
        steps.*2 (successes steps.*2) (failures steps.*2).
Proof.
  intros Hc.
  assert (exists steps s1,
    publishEventsWithProgress env events onProgress testMode
      (mkState w []
         (mkLocals (mkController [MsgStart (length events) totalProcessed] false)
            [] 0 0)) = (Ok tt, s1) /\
    Forall2 published events steps /\
    trace s1 = progressTrace (length events) 0 steps /\
    locals s1 =
      feed onProgress (length events) 0 steps.*2
        (mkLocals (mkController [MsgStart (length events) totalProcessed] false)
           [] 0 0)) as (steps & s1 & Hloop & Hall & Htr & Hloc).
  { destruct Hc as [Hc | ->].
    - edestruct (publishEventsWithProgress_from_run env streamOpen onProgress
        events testMode events 0) as (steps & s1 & Hrun & Hall & Htr & Hloc & _);
        [exact Hc | apply onProgress_open | |
         exists steps, s1; split_and!; [exact Hrun | exact Hall | exact Htr | exact Hloc]].
      done.
    - by exists [], (mkState w []
        (mkLocals (mkController [MsgStart 0 totalProcessed] false) [] 0 0)). }
  rewrite (feed_onProgress (length events) [] steps.*2
             [MsgStart (length events) totalProcessed]) in Hloc.
  simpl in Hloc. rewrite drop_0 in Hloc.
  eexists steps, _. split; [|split; [exact Hall|]].
  - unfold start, bind at 1. rewrite sendMessage_open by done.
    unfold bind at 1, on_locals at 1. simpl.
    unfold finally, try_catch, bind. rewrite Hloop.
    rewrite sendMessage_open by (unfold streamOpen; by rewrite Hloc).
    unfold on_locals, on_controller, close. rewrite Hloc. simpl. reflexivity.
  - simpl. by split.
Qed.

(** The run of [start] when the access token is not set and there is an
    event to publish: the loop raises at the first event. *)
Lemma start_raises e events totalProcessed errors testMode w :
  ~ configured env testMode ->
  start env (e :: events) totalProcessed errors testMode (freshStream w) =
  (Ok tt,
   mkState w []
     (mkLocals
        (mkController
           [MsgStart (S (length events)) totalProcessed;
            MsgError
              ((if testMode then "INTERCOM_ACCESS_TOKEN_TEST" else "INTERCOM_ACCESS_TOKEN")
               +:+ " environment variable is not set. Please add it to your .env.local file.")]
           true)
        [] 0 0)).
Proof.
  intros Hc. unfold start, bind at 1. rewrite sendMessage_open by done.
  unfold bind at 1, on_locals at 1. simpl.
  unfold finally, try_catch, bind, publishEventsWithProgress.
  by rewrite publishEventsWithProgress_from_unset.
Qed.

(** C8. On a fresh stream, [start] enqueues exactly: one start message
    with the event and attendee totals; then one progress message per
    outcome handed to the progress callback, in order, each with the
    outcome, its 1-based index, the total and the success and failure
    counts so far; then one terminal message; and it closes the stream
    after that, on both paths. The terminal message is [complete], with
    all outcomes (one per event), their counts and the row-level warnings
    if any, when the orchestrator loop returns, which it does when the
    access token is set or there is no event; it is [error], with the
    message of the escaped exception, when the loop raises, which it does
    at the first event when the access token is not set. *)
Theorem stream_protocol events totalProcessed errors testMode w :
  exists s' rs terminal,
    start env events totalProcessed errors testMode (freshStream w) = (Ok tt, s') /\
    chunks (controller (locals s')) =
      MsgStart (length events) totalProcessed ::
      progressOf (length events) rs ++ [terminal] /\
    closed (controller (locals s')) = true /\
    reported (trace s') = rs /\
    ((configured env testMode \/ events = []) /\
     Forall2 corresponds events rs /\
     terminal =
       MsgComplete totalProcessed (successes rs) (failures rs) rs
         (match errors with [] => None | _ :: _ => Some errors end)
     \/
     (~ configured env testMode /\ events <> []) /\
     rs = [] /\
     terminal =
       MsgError
         ((if testMode then "INTERCOM_ACCESS_TOKEN_TEST" else "INTERCOM_ACCESS_TOKEN")
          +:+ " environment variable is not set. Please add it to your .env.local file.")).
Proof.
  destruct (Js.truthy_opt (accessToken env testMode)) eqn:Htok;
    [|destruct events as [|e events]].
  - apply truthy_opt_spec in Htok.
    destruct (start_completes events totalProcessed errors testMode w (or_introl Htok))
      as (steps & s' & Hrun & Hall & Htr & Hloc).
    exists s', steps.*2, (MsgComplete totalProcessed (successes steps.*2)
      (failures steps.*2) steps.*2 (match errors with [] => None | _ :: _ => Some errors end)).
    split; [exact Hrun|]. rewrite Hloc, Htr. simpl. split_and!.
    + by destruct errors.
    + done.
    + by eapply reported_progressTrace.
    + left. split_and!; [by left | by apply published_corresponds | done].
  - destruct (start_completes [] totalProcessed errors testMode w (or_intror eq_refl))
      as (steps & s' & Hrun & Hall & Htr & Hloc).
    exists s', steps.*2, (MsgComplete totalProcessed (successes steps.*2)
      (failures steps.*2) steps.*2 (match errors with [] => None | _ :: _ => Some errors end)).
    split; [exact Hrun|]. rewrite Hloc, Htr. simpl. split_and!.
    + by destruct errors.
    + done.
    + by eapply reported_progressTrace.
    + left. split_and!; [by right | by apply published_corresponds | done].
  - assert (~ configured env testMode) as Hc.
    { unfold configured. rewrite <- truthy_opt_spec. by rewrite Htok. }
    eexists _, [], _. split; [by apply start_raises|]. simpl.
    split_and!; try done. right. by split_and!.
Qed.

End StreamFacts.

(** ** Extraction loop *)

Lemma length_append (a b : string) :
  String.length (a +:+ b) = (String.length a + String.length b)%nat.
Proof.
  induction a as [|x a IH]; [done|]. rewrite append_cons. simpl. by rewrite IH.
Qed.

Lemma append_inj_r (a b c : string) : a +:+ c = b +:+ c -> a = b.
Proof.
  intros H.
  assert (String.length a = String.length b) as Hlen.
  { apply (f_equal String.length) in H. rewrite !length_append in H. lia. }
  revert b H Hlen. induction a as [|x a IH]; intros [|y b] H Hlen; try done.
  rewrite !append_cons in H. injection H as -> H. f_equal.
  apply IH; [done | by injection Hlen].
Qed.

Lemma rowError_inj i j : rowError i = rowError j -> i = j.
Proof.
  unfold rowError. intros H. apply (inj (String.app "Row ")) in H.
  apply append_inj_r in H. apply (inj pretty) in H. lia.
Qed.

Section ExtractionFacts.

Variable mapping : ColumnMapping.t.
Variable testMode : bool.

Lemma extractAttendees_from_acc i rows attendees errors :
  extractAttendees_from i rows mapping testMode attendees errors =
  (attendees ++ (extractAttendees_from i rows mapping testMode [] []).1,
   errors ++ (extractAttendees_from i rows mapping testMode [] []).2).
Proof.
  revert i attendees errors.
  induction rows as [|row rest IH]; intros i attendees errors; simpl.
  - by rewrite !app_nil_r.
  - destruct (invited row mapping); [apply IH|].
    destruct (parseAttendee row mapping) as [a|].
    + rewrite IH, (IH _ [_] []). simpl. by rewrite <- app_assoc.
    + rewrite IH, (IH _ [] [_]). simpl. by rewrite <- app_assoc.
Qed.

Lemma extractAttendees_from_app i rows1 rows2 :
  extractAttendees_from i (rows1 ++ rows2) mapping testMode [] [] =
  ((extractAttendees_from i rows1 mapping testMode [] []).1 ++
   (extractAttendees_from (i + length rows1) rows2 mapping testMode [] []).1,
   (extractAttendees_from i rows1 mapping testMode [] []).2 ++
   (extractAttendees_from (i + length rows1) rows2 mapping testMode [] []).2).
Proof.
  revert i. induction rows1 as [|row rest IH]; intros i; simpl.
  - rewrite Nat.add_0_r. by destruct (extractAttendees_from _ _ _ _ _ _).
  - replace (i + S (length rest))%nat with (S i + length rest)%nat by lia.
    destruct (invited row mapping); [apply IH|].
    destruct (parseAttendee row mapping) as [a|].
    + rewrite extractAttendees_from_acc, IH.
      by rewrite (extractAttendees_from_acc _ rest [_] []).
    + rewrite extractAttendees_from_acc, IH.
      by rewrite (extractAttendees_from_acc _ rest [] [_]).
Qed.

(** The attendees do not depend on the row numbering. *)
Lemma extractAttendees_from_index i j rows :
  (extractAttendees_from i rows mapping testMode [] []).1 =
  (extractAttendees_from j rows mapping testMode [] []).1.
Proof.
  revert i j. induction rows as [|row rest IH]; intros i j; simpl; [done|].
  destruct (invited row mapping); [apply IH|].
  destruct (parseAttendee row mapping) as [a|].
  - rewrite extractAttendees_from_acc, (extractAttendees_from_acc (S j)). simpl.
    f_equal. apply IH.
  - rewrite extractAttendees_from_acc, (extractAttendees_from_acc (S j)). simpl.
    apply IH.
Qed.

(** Every error message names a row of the range that was visited. *)
Lemma extractAttendees_from_errors i rows msg :
  msg ∈ (extractAttendees_from i rows mapping testMode [] []).2 ->
  exists j, (i <= j < i + length rows)%nat /\ msg = rowError j.
Proof.
  revert i msg. induction rows as [|row rest IH]; intros i msg; simpl.
  - by rewrite elem_of_nil.
  - assert (forall m,
      m ∈ (extractAttendees_from (S i) rest mapping testMode [] []).2 ->
      exists j, (i <= j < i + S (length rest))%nat /\ m = rowError j) as Hrest.
    { intros m Hm. destruct (IH _ _ Hm) as (j & Hj & ->).
      exists j. split; [lia | done]. }
    destruct (invited row mapping); [apply Hrest|].
    destruct (parseAttendee row mapping) as [a|].
    + rewrite extractAttendees_from_acc. simpl. apply Hrest.
    + rewrite extractAttendees_from_acc. simpl. rewrite elem_of_cons.
      intros [-> | Hm]; [|by apply Hrest]. exists i. split; [lia | done].
Qed.

(** C9. A row whose approval-status cell, trimmed and lower-cased, is
    "invited" (the mapping naming that column) is passed over by the
    extraction loop before it is normalized: the loop continues with the
    next row and the same attendees and errors. Hence a batch that
    contains the row has exactly the attendees, and so exactly the derived
    events, of the batch without it, and none of its error messages names
    that row, whatever its email cell holds. *)
Theorem invited_row_skipped column row :
  ColumnMapping.approval_status mapping = Some column ->
  column <> "" ->
  Js.toLowerCase (Js.trim (cell row column)) = "invited" ->
  (forall i rest attendees errors,
     extractAttendees_from i (row :: rest) mapping testMode attendees errors =
     extractAttendees_from (S i) rest mapping testMode attendees errors) /\
  (forall before after,
     (extractAttendees (before ++ row :: after) mapping testMode).1 =
     (extractAttendees (before ++ after) mapping testMode).1 /\
     (forall Date_parse Date_now eventSettings,
        createIntercomEvents Date_parse Date_now
          (processAttendees (extractAttendees (before ++ row :: after) mapping testMode).1)
          eventSettings =
        createIntercomEvents Date_parse Date_now
          (processAttendees (extractAttendees (before ++ after) mapping testMode).1)
          eventSettings) /\
     rowError (length before) ∉
       (extractAttendees (before ++ row :: after) mapping testMode).2).
Proof.
  intros Hcol Hne Hval.
  assert (invited row mapping = true) as Hinv.
  { unfold invited. rewrite Hcol. apply truthy_spec in Hne. rewrite Hne, Hval.
    done. }
  assert (forall i rest attendees errors,
     extractAttendees_from i (row :: rest) mapping testMode attendees errors =
     extractAttendees_from (S i) rest mapping testMode attendees errors) as Hskip.
  { intros i rest attendees errors. simpl. by rewrite Hinv. }
  split; [exact Hskip|]. intros before after.
  assert ((extractAttendees (before ++ row :: after) mapping testMode).1 =
          (extractAttendees (before ++ after) mapping testMode).1) as Hsame.
  { unfold extractAttendees. rewrite !extractAttendees_from_app, Hskip.
    cbn [fst]. f_equal. apply extractAttendees_from_index. }
  split; [exact Hsame|]. split; [intros; by rewrite Hsame|].
  unfold extractAttendees. rewrite extractAttendees_from_app, Hskip.
  cbn [snd]. rewrite elem_of_app. intros [H|H];
    apply extractAttendees_from_errors in H as (j & Hj & Heq);
    apply rowError_inj in Heq; simpl in Hj; lia.
Qed.

End ExtractionFacts.

Lemma invited_row_skipped_witness :
  extractAttendees_from 1 [invitedRow; badRow] demoMapping false [] [] =
  extractAttendees_from 2 [badRow] demoMapping false [] [] /\
  (extractAttendees ([registeredRow] ++ invitedRow :: [badRow]) demoMapping false).1 =
  (extractAttendees ([registeredRow] ++ [badRow]) demoMapping false).1 /\
  rowError 1 ∉ (extractAttendees ([registeredRow] ++ invitedRow :: [badRow]) demoMapping false).2.
Proof.
  destruct (invited_row_skipped demoMapping false "Approval" invitedRow)
    as [Hskip Hbatch]; [reflexivity | discriminate | reflexivity |].
  split; [apply Hskip|].
  destruct (Hbatch [registeredRow] [badRow]) as (Hsame & _ & Herr).
  by split.
Defined.

(** ** Test mode *)

Lemma includes_char_indexOf (s : string) (c : ascii) :
  Js.includes s (String c "") = false <-> Js.indexOf s c = (-1)%Z.
Proof.
  induction s as [|b s IH]; simpl; [done|].
  rewrite andb_true_r, (Ascii.eqb_sym c b).
  destruct (Ascii.eqb b c); simpl; [done|].
  rewrite IH. destruct (Z.eqb_spec (Js.indexOf s c) (-1)) as [Heq|Hne]; [done|].
  split; [done|]. intros H. assert (Js.indexOf s c = (-2)%Z) as H2 by lia.
  clear -H2. exfalso. revert H2.
  assert (forall t, (-1 <= Js.indexOf t c)%Z) as Hge.
  { induction t as [|x t IHt]; simpl; [lia|].
    destruct (Ascii.eqb x c); [lia|]. destruct (Z.eqb_spec (Js.indexOf t c) (-1)); lia. }
  specialize (Hge s). lia.
Qed.

Lemma indexOf_split (s : string) (c : ascii) :
  Js.indexOf s c <> (-1)%Z ->
  exists l d, s = l +:+ String c d /\ Js.indexOf l c = (-1)%Z /\
    Js.indexOf s c = Z.of_nat (String.length l).
Proof.
  induction s as [|b s IH]; simpl; [done|].
  destruct (Ascii.eqb_spec b c) as [->|Hbc].
  - intros _. by exists "", s.
  - destruct (Z.eqb_spec (Js.indexOf s c) (-1)) as [Heq|Hne]; [done|].
    intros _. destruct (IH Hne) as (l & d & -> & Hl & Hi).
    exists (String b l), d. rewrite append_cons. split; [done|]. simpl.
    destruct (Ascii.eqb_spec b c); [done|]. rewrite Hl. simpl. split; [done|]. lia.
Qed.

Lemma take_through (l : string) (c : ascii) (d : string) :
  Js.take (S (String.length l)) (l +:+ String c d) = l +:+ String c "".
Proof.
  induction l as [|x l IH]; [done|].
  rewrite !append_cons. simpl. f_equal. exact IH.
Qed.

Lemma substring_through (l : string) (c : ascii) (d : string) :
  Js.substring (l +:+ String c d) 0 (Z.of_nat (String.length l) + 1) =
  l +:+ String c "".
Proof.
  unfold Js.substring. rewrite length_append. simpl String.length.
  set (n := String.length l). set (m := String.length d).
  replace (Z.min (Z.max 0 0) (Z.of_nat (n + S m))) with 0%Z by lia.
  replace (Z.min (Z.max (Z.of_nat n + 1) 0) (Z.of_nat (n + S m)))
    with (Z.of_nat (S n)) by lia.
  replace (Z.max 0 (Z.of_nat (S n))) with (Z.of_nat (S n)) by lia.
  replace (Z.min 0 (Z.of_nat (S n))) with 0%Z by lia.
  rewrite Z.sub_0_r, Nat2Z.id. simpl Z.to_nat. simpl Js.drop.
  apply take_through.
Qed.

(** [replaceEmailDomain] keeps the part up to and including the first "@"
    and puts "example.com" in place of everything after it; an address
    without "@" is returned as it is. *)
Lemma replaceEmailDomain_at (email : string) :
  Js.includes email "@" = true ->
  exists l d, email = l +:+ "@" +:+ d /\ Js.includes l "@" = false /\
    replaceEmailDomain email = l +:+ "@example.com".
Proof.
  intros H. assert (Js.indexOf email "@" <> (-1)%Z) as Hi.
  { rewrite <- includes_char_indexOf. by rewrite H. }
  destruct (indexOf_split _ _ Hi) as (l & d & -> & Hl & Hidx).
  exists l, d. split; [done|]. split; [by apply includes_char_indexOf|].
  unfold replaceEmailDomain. rewrite Hidx.
  destruct (Z.eqb_spec (Z.of_nat (String.length l)) (-1)); [lia|].
  by rewrite substring_through, append_assoc.
Qed.

Lemma replaceEmailDomain_no_at (email : string) :
  Js.includes email "@" = false -> replaceEmailDomain email = email.
Proof.
  intros H. apply includes_char_indexOf in H. unfold replaceEmailDomain.
  by rewrite H.
Qed.

Lemma replaceEmailDomain_example (email : string) :
  Js.includes email "@" = true -> exampleAddress (replaceEmailDomain email).
Proof.
  intros H. destruct (replaceEmailDomain_at email H) as (l & d & _ & Hl & ->).
  by exists l.
Qed.

(** Normalization rejects an email cell without "@". *)
Lemma parseAttendee_email row mapping a :
  parseAttendee row mapping = Some a ->
  Js.includes (LumaAttendee.email a) "@" = true.
Proof.
  unfold parseAttendee. case_match eqn:Hguard; [done|]. intros [= <-]. simpl.
  apply orb_false_iff in Hguard as [_ Hat]. by apply negb_false_iff in Hat.
Qed.

Lemma extractAttendees_from_test i rows mapping :
  (extractAttendees_from i rows mapping true [] []).1 =
  (fun a => setEmail a (replaceEmailDomain (LumaAttendee.email a))) <$>
    (extractAttendees_from i rows mapping false [] []).1 /\
  Forall (fun a => Js.includes (LumaAttendee.email a) "@" = true)
    (extractAttendees_from i rows mapping false [] []).1.
Proof.
  revert i. induction rows as [|row rest IH]; intros i; simpl; [done|].
  destruct (invited row mapping); [apply IH|].
  destruct (parseAttendee row mapping) as [a|] eqn:Ha.
  - rewrite extractAttendees_from_acc, (extractAttendees_from_acc _ false).
    destruct (IH (S i)) as [-> Hall]. simpl. split; [done|].
    constructor; [by eapply parseAttendee_email | done].
  - rewrite extractAttendees_from_acc, (extractAttendees_from_acc _ false).
    simpl. apply IH.
Qed.

Section DerivedEmails.

Variable Date_parse : string -> option Z.
Variable Date_now : nat -> Z.

Lemma createIntercomEvents_from_email k attendees settings e :
  e ∈ createIntercomEvents_from Date_parse Date_now k attendees settings [] ->
  exists p, p ∈ attendees /\
    IntercomEvent.email e = LumaAttendee.email (ProcessedAttendee.attendee p).
Proof.
  revert k. induction attendees as [|p rest IH]; intros k; simpl.
  - by rewrite elem_of_nil.
  - rewrite createIntercomEvents_from_app, elem_of_app. intros [H|H].
    + exists p. split; [by left|]. revert H. unfold pushEvents.
      destruct (ProcessedAttendee.hasRegistration p),
        (ProcessedAttendee.hasAttendance p); simpl;
        rewrite ?elem_of_cons, elem_of_nil; intros H;
        repeat destruct H as [H|H]; by subst.
    + destruct (IH _ H) as (q & Hq & Heq). exists q. split; [by right | done].
Qed.

End DerivedEmails.

Lemma publishStep_target e a email :
  publishStep e a -> targetEmail a = Some email -> email = IntercomEvent.email e.
Proof.
  destruct a; simpl; try done.
  - by intros -> [= <-].
  - by intros -> [= <-].
  - by intros -> [= <-].
Qed.

Lemma progressTrace_targets (P : string -> Prop) total i events steps :
  Forall2 published events steps ->
  Forall (fun e => P (IntercomEvent.email e)) events ->
  Forall (fun a => forall email, targetEmail a = Some email -> P email)
    (progressTrace total i steps).
Proof.
  intros H. revert i. induction H as [|e [tr r] events steps He _ IH]; intros i HP.
  - constructor.
  - apply Forall_cons in HP as [HPe HP]. simpl.
    destruct He as [(pre & Htr & Hpre) _]. simpl in Htr. subst tr.
    rewrite !Forall_app. split_and!.
    + eapply Forall_impl; [exact Hpre|]. intros a Ha email Hem.
      by rewrite (publishStep_target e a email).
    + constructor; [|constructor]. simpl. by intros email [= <-].
    + constructor; [done|]. rewrite Forall_app. split; [|by apply IH].
      unfold pacingActions. case_match; by repeat constructor.
Qed.

Section TestMode.

Context {World : Type} `{api : IntercomApi World}.
Variable env : Env.
Variable Date_parse : string -> option Z.
Variable Date_now : nat -> Z.

(** C10. In test mode the attendees of a batch are the attendees that
    would be accepted otherwise, each with its email rewritten by
    [replaceEmailDomain]: the part up to and including the first "@" is
    kept and "example.com" replaces everything after it. So every
    attendee, every derived event, and every contact-create,
    contact-search and event-create call of the streamed run is aimed at
    an address of the form local@example.com. An address without "@"
    would be left unchanged by the replacement, but normalization accepts
    no such address. *)
Theorem test_mode_targets_example_domain rows mapping eventSettings w :
  let accepted := (extractAttendees rows mapping false).1 in
  let attendees := (extractAttendees rows mapping true).1 in
  let events :=
    createIntercomEvents Date_parse Date_now (processAttendees attendees)
      eventSettings in
  attendees =
    ((fun a => setEmail a (replaceEmailDomain (LumaAttendee.email a))) <$> accepted) /\
  (forall a, a ∈ accepted ->
     exists l d, LumaAttendee.email a = l +:+ "@" +:+ d /\
       Js.includes l "@" = false /\
       replaceEmailDomain (LumaAttendee.email a) = l +:+ "@example.com") /\
  (forall a, a ∈ attendees -> exampleAddress (LumaAttendee.email a)) /\
  (forall e, e ∈ events -> exampleAddress (IntercomEvent.email e)) /\
  (forall run,
     POST env Date_parse Date_now rows mapping eventSettings true w = EventStream run ->
     Forall (fun a => forall email, targetEmail a = Some email -> exampleAddress email)
       (trace run.2)) /\
  (forall email, Js.includes email "@" = false -> replaceEmailDomain email = email) /\
  (forall row a, parseAttendee row mapping = Some a ->
     Js.includes (LumaAttendee.email a) "@" = true).
Proof.
  intros accepted attendees events.
  destruct (extractAttendees_from_test 0 rows mapping) as [Hmap Hat].
  fold (extractAttendees rows mapping true) in Hmap.
  fold (extractAttendees rows mapping false) in Hmap, Hat.
  fold accepted in Hmap, Hat. fold attendees in Hmap.
  rewrite Forall_forall in Hat.
  assert (forall a, a ∈ attendees -> exampleAddress (LumaAttendee.email a)) as Hatt.
  { intros a. rewrite Hmap, list_elem_of_fmap. intros (b & -> & Hb). simpl.
    apply replaceEmailDomain_example. by apply Hat. }
  assert (forall e, e ∈ events -> exampleAddress (IntercomEvent.email e)) as Hev.
  { intros e He. apply createIntercomEvents_from_email in He as (p & Hp & ->).
    unfold processAttendees in Hp. apply list_elem_of_fmap in Hp as (a & -> & Ha).
    simpl. by apply Hatt. }
  split_and!; try done.
  - intros a Ha. apply replaceEmailDomain_at. by apply Hat.
  - intros run. unfold POST. fold events.
    destruct (extractAttendees rows mapping true) as [atts errors] eqn:Hex.
    simpl in attendees. subst attendees.
    destruct (length atts =? 0)%nat; [done|]. fold events.
    destruct (length events =? 0)%nat eqn:Hlen; [done|]. intros [= <-].
    destruct (Js.truthy_opt (accessToken env true)) eqn:Htok.
    + apply truthy_opt_spec in Htok.
      destruct (start_completes env events (length atts) errors true w
                  (or_introl Htok)) as (steps & s' & Hrun & Hall & Htr & _).
      rewrite Hrun. simpl. rewrite Htr.
      eapply progressTrace_targets; [exact Hall|]. by apply Forall_forall.
    + assert (~ configured env true) as Hc.
      { unfold configured. rewrite <- truthy_opt_spec. by rewrite Htok. }
      destruct events as [|e events']; [done|].
      rewrite start_raises by done. constructor.
  - apply replaceEmailDomain_no_at.
  - intros row a. apply parseAttendee_email.
Qed.

End TestMode.

(** ** Worked examples *)

Example js_string_operations :
  Js.trim "  a b  " = "a b" /\
  Js.toLowerCase "Registered" = "registered" /\
  Js.includes "pre-registration" "registration" = true /\
  Js.indexOf "abc" "c" = 2%Z /\
  Js.substring "hello" 3 1 = "el" /\
  replaceEmailDomain "a@b@c.com" = "a@example.com" /\
  replaceEmailDomain "nobody" = "nobody" /\
  rowError 0 = "Row 2: Missing or invalid email address".
Proof. by repeat split. Qed.

(** A row with an email and the status "Registered" yields one
    "registered" event stamped with the current second, whose payload has
    no metadata when no event settings are given. *)
Example registered_row_scenario :
  (extractAttendees [registeredRow] demoMapping false).2 = [] /\
  eventPayload <$>
    createIntercomEvents noParse fixedNow
      (processAttendees (extractAttendees [registeredRow] demoMapping false).1) None =
  [{| EventPayload.event_name := "registered-for-event";
      EventPayload.created_at := 1700000000;
      EventPayload.email := "a@x.com";
      EventPayload.metadata := None |}].
Proof. by split. Qed.

(** A batch of two rows of which the second submission is rejected with a
    500: the stream carries the start message, two progress messages with
    the counts (1, 0) and (1, 1), and the complete message; then it is
    closed. *)
Example two_row_scenario :
  exists s,
    POST liveOnly noParse fixedNow [registeredRow; secondRow] demoMapping None
      false 0%nat = EventStream (Ok tt, s) /\
    controller (locals s) =
      mkController
        [MsgStart 2 2;
         MsgProgress (okOutcome "a@x.com") 1 2 1 0;
         MsgProgress
           (failedOutcome "b@x.com" "Intercom API error (500): Internal Server Error")
           2 2 1 1;
         MsgComplete 2 1 1
           [okOutcome "a@x.com";
            failedOutcome "b@x.com" "Intercom API error (500): Internal Server Error"]
           None]
        true.
Proof. eexists. split; [vm_compute; reflexivity | reflexivity]. Qed.

(** The pacing delay depends on the size of the batch only: none in a batch
    of one event, one after each event of a larger batch. *)
Example pacing_by_batch_size :
  pacingActions 0 = [] /\ pacingActions 1 = [] /\
  pacingActions 2 = [SetTimeout 100] /\ pacingActions 3 = [SetTimeout 100].
Proof. by repeat split. Qed.

(** * Further properties *)

(** ** Column names *)

Lemma isWhiteSpace_toLowerChar (c : ascii) :
  Js.isWhiteSpace (Js.toLowerChar c) = Js.isWhiteSpace c.
Proof. by destruct c as [[] [] [] [] [] [] [] []]. Qed.

Lemma toLowerChar_idem (c : ascii) :
  Js.toLowerChar (Js.toLowerChar c) = Js.toLowerChar c.
Proof. by destruct c as [[] [] [] [] [] [] [] []]. Qed.

Lemma toLowerCase_idem (s : string) :
  Js.toLowerCase (Js.toLowerCase s) = Js.toLowerCase s.
Proof.
  induction s as [|c s IH]; [done|]. simpl. by rewrite toLowerChar_idem, IH.
Qed.

Lemma removeWhiteSpace_trimStart (s : string) :
  removeWhiteSpace (Js.trimStart s) = removeWhiteSpace s.
Proof.
  induction s as [|c s IH]; [done|]. simpl.
  destruct (Js.isWhiteSpace c) eqn:Hc; simpl; by rewrite ?Hc.
Qed.

Lemma removeWhiteSpace_trimEnd (s : string) :
  removeWhiteSpace (Js.trimEnd s) = removeWhiteSpace s.
Proof.
  induction s as [|c s IH]; [done|]. simpl.
  destruct (Js.trimEnd s) as [|d t] eqn:Ht.
  - simpl in IH. rewrite <- IH. destruct (Js.isWhiteSpace c) eqn:Hc; simpl; by rewrite ?Hc.
  - simpl. by rewrite <- IH.
Qed.

Lemma removeWhiteSpace_toLowerCase (s : string) :
  removeWhiteSpace (Js.toLowerCase s) = Js.toLowerCase (removeWhiteSpace s).
Proof.
  induction s as [|c s IH]; [done|]. simpl. rewrite isWhiteSpace_toLowerChar.
  destruct (Js.isWhiteSpace c); simpl; by rewrite IH.
Qed.

Lemma removeWhiteSpace_idem (s : string) :
  removeWhiteSpace (removeWhiteSpace s) = removeWhiteSpace s.
Proof.
  induction s as [|c s IH]; [done|]. simpl.
  destruct (Js.isWhiteSpace c) eqn:Hc; simpl; by rewrite ?Hc, IH.
Qed.

Lemma removeWhiteSpace_app (a b : string) :
  removeWhiteSpace (a +:+ b) = removeWhiteSpace a +:+ removeWhiteSpace b.
Proof.
  induction a as [|c a IH]; [done|]. rewrite append_cons. simpl.
  destruct (Js.isWhiteSpace c); by rewrite IH.
Qed.

Lemma removeWhiteSpace_char (s a : string) (c : ascii) (b : string) :
  removeWhiteSpace s = a +:+ String c b -> Js.isWhiteSpace c = false.
Proof.
  revert a. induction s as [|d s IH]; intros a; simpl.
  - by destruct a.
  - destruct (Js.isWhiteSpace d) eqn:Hd; [apply IH|].
    destruct a as [|x a]; [by intros [= <- _]|].
    rewrite append_cons. intros [= _ H]. by eapply IH.
Qed.

(** The trim in [normalizeColumnName] is subsumed by the removal of all
    whitespace. *)
Lemma normalizeColumnName_alt (column : string) :
  normalizeColumnName column = removeWhiteSpace (Js.toLowerCase column).
Proof.
  unfold normalizeColumnName, Js.trim.
  by rewrite removeWhiteSpace_trimEnd, removeWhiteSpace_trimStart.
Qed.

(** X1. [normalizeColumnName] yields a normal form: normalizing twice
    changes nothing, the case of the letters has no influence, the trim
    step is redundant (the result is the lower-cased name with every
    whitespace character removed, whether leading, trailing or inner), and
    the result contains no whitespace and no capital letter. *)
Theorem normalizeColumnName_normal_form (column : string) :
  normalizeColumnName (normalizeColumnName column) = normalizeColumnName column /\
  normalizeColumnName (Js.toLowerCase column) = normalizeColumnName column /\
  normalizeColumnName column = removeWhiteSpace (Js.toLowerCase column) /\
  (forall a c b, normalizeColumnName column = a +:+ String c b ->
     Js.isWhiteSpace c = false /\ Js.toLowerChar c = c).
Proof.
  rewrite !normalizeColumnName_alt. split_and!.
  - rewrite (removeWhiteSpace_toLowerCase column), toLowerCase_idem.
    by rewrite removeWhiteSpace_toLowerCase, removeWhiteSpace_idem.
  - by rewrite toLowerCase_idem.
  - done.
  - intros a c b H. split; [by eapply removeWhiteSpace_char|].
    rewrite removeWhiteSpace_toLowerCase in H.
    apply toLowerCase_split in H as (a' & b' & _ & _ & H).
    destruct b' as [|d b']; [done|]. simpl in H. injection H as <- _.
    apply toLowerChar_idem.
Qed.

(** ** Suggested mapping *)

Lemma oneOf_spec (names : list string) (n : string) :
  oneOf names n = true <-> n ∈ names.
Proof.
  unfold oneOf. rewrite existsb_exists. split.
  - intros (x & Hx & Heq). apply String.eqb_eq in Heq as ->.
    by apply list_elem_of_In.
  - intros H. exists n. split; [by apply list_elem_of_In | apply String.eqb_refl].
Qed.

Lemma oneOf_false (names : list string) (n : string) :
  oneOf names n = false <-> n ∉ names.
Proof. rewrite <- oneOf_spec. by destruct (oneOf names n). Qed.

Lemma firstColumn_ext (p q : string -> bool) cols :
  (forall n, p n = q n) -> firstColumn p cols = firstColumn q cols.
Proof.
  intros H. induction cols as [|col rest IH]; [done|]. simpl. by rewrite H, IH.
Qed.

Lemma firstColumn_Some (p : string -> bool) columns c :
  firstColumn p (normalizedColumnsOf columns) = Some c <->
  exists pre post, columns = pre ++ c :: post /\
    p (normalizeColumnName c) = true /\
    Forall (fun x => p (normalizeColumnName x) = false) pre.
Proof.
  induction columns as [|x columns IH]; simpl.
  - split; [done | by intros ([|??] & ? & ? & _)].
  - destruct (p (normalizeColumnName x)) eqn:Hx.
    + split.
      * intros [= ->]. by exists [], columns.
      * intros ([|y pre] & post & Heq & Hc & Hpre); simplify_eq/=; [done|].
        apply Forall_cons in Hpre as [Hy _]. congruence.
    + rewrite IH. split.
      * intros (pre & post & -> & Hc & Hpre). exists (x :: pre), post.
        split_and!; [done | done | by constructor].
      * intros ([|y pre] & post & Heq & Hc & Hpre); simplify_eq/=; [congruence|].
        apply Forall_cons in Hpre as [_ Hpre]. by exists pre, post.
Qed.

Lemma firstColumn_None (p : string -> bool) columns :
  firstColumn p (normalizedColumnsOf columns) = None <->
  Forall (fun x => p (normalizeColumnName x) = false) columns.
Proof.
  induction columns as [|x columns IH]; simpl; [done|].
  rewrite Forall_cons. destruct (p (normalizeColumnName x)).
  - split; [done | by intros [? _]].
  - rewrite IH. split; [by split | by intros [_ ?]].
Qed.

Lemma firstColumn_firstNamed names columns c :
  firstNamed names columns c ->
  firstColumn (oneOf names) (normalizedColumnsOf columns) = Some c.
Proof.
  intros (pre & post & -> & Hc & Hpre). apply firstColumn_Some.
  exists pre, post. split_and!; [done | by apply oneOf_spec|].
  eapply Forall_impl; [exact Hpre|]. intros x. by rewrite oneOf_false.
Qed.

Lemma firstColumn_noneNamed names columns :
  noneNamed names columns ->
  firstColumn (oneOf names) (normalizedColumnsOf columns) = None.
Proof.
  intros H. apply firstColumn_None. eapply Forall_impl; [exact H|].
  intros x. by rewrite oneOf_false.
Qed.

Lemma firstColumn_in (p : string -> bool) columns c :
  firstColumn p (normalizedColumnsOf columns) = Some c -> c ∈ columns.
Proof.
  rewrite firstColumn_Some. intros (pre & post & -> & _). set_solver.
Qed.

(** A column that a loop picks has a non-empty name when the loop's test
    rejects the empty normalized name. *)
Lemma firstColumn_truthy (p : string -> bool) columns c :
  p "" = false ->
  firstColumn p (normalizedColumnsOf columns) = Some c -> Js.truthy c = true.
Proof.
  intros Hp. rewrite firstColumn_Some. intros (_ & _ & _ & Hc & _).
  apply truthy_spec. intros ->.
  change (normalizeColumnName "") with "" in Hc. by rewrite Hp in Hc.
Qed.

Lemma withFallback_found (p q : string -> bool) columns c :
  p "" = false ->
  firstColumn p (normalizedColumnsOf columns) = Some c ->
  withFallback (firstColumn p (normalizedColumnsOf columns)) q
    (normalizedColumnsOf columns) = Some c.
Proof.
  intros Hp Hc. unfold withFallback. rewrite Hc. simpl.
  by rewrite (firstColumn_truthy p columns c).
Qed.

Lemma withFallback_not_found (p q : string -> bool) columns :
  firstColumn p (normalizedColumnsOf columns) = None ->
  withFallback (firstColumn p (normalizedColumnsOf columns)) q
    (normalizedColumnsOf columns) = firstColumn q (normalizedColumnsOf columns).
Proof.
  intros Hc. unfold withFallback. rewrite Hc. simpl. by case_match.
Qed.

Lemma withFallback_in (p q : string -> bool) columns c :
  withFallback (firstColumn p (normalizedColumnsOf columns)) q
    (normalizedColumnsOf columns) = Some c -> c ∈ columns.
Proof.
  unfold withFallback. case_match; [apply firstColumn_in|].
  destruct (firstColumn q _) eqn:Hq; [|apply firstColumn_in].
  intros [= <-]. by eapply firstColumn_in.
Qed.

(** X2. Every column that [suggestMapping] proposes is one of the columns
    it was given. So the only column that the upload route's check can
    report as missing for a suggested mapping is the empty email column of
    a CSV in which no email column was recognized. *)
Theorem suggestMapping_columns_exist (columns : list string) :
  let mapping := suggestMapping columns in
  (ColumnMapping.email mapping = "" \/ ColumnMapping.email mapping ∈ columns) /\
  Forall (fun field => forall c, field = Some c -> c ∈ columns)
    [ColumnMapping.name mapping; ColumnMapping.phone_number mapping;
     ColumnMapping.registrationDate mapping; ColumnMapping.attendanceDate mapping;
     ColumnMapping.ticketType mapping; ColumnMapping.status mapping;
     ColumnMapping.hasJoinedEvent mapping; ColumnMapping.approval_status mapping] /\
  Forall (fun c => c = "" /\ ColumnMapping.email mapping = "")
    (missingColumns mapping columns).
Proof.
  intros mapping.
  assert (ColumnMapping.email mapping = "" \/ ColumnMapping.email mapping ∈ columns)
    as Hemail.
  { unfold mapping, suggestMapping. cbn [ColumnMapping.email].
    fold (normalizedColumnsOf columns).
    destruct (withFallback _ _ _) as [c|] eqn:Hc; [|by left].
    right. by eapply withFallback_in. }
  assert (Forall (fun field => forall c, field = Some c -> c ∈ columns)
    [ColumnMapping.name mapping; ColumnMapping.phone_number mapping;
     ColumnMapping.registrationDate mapping; ColumnMapping.attendanceDate mapping;
     ColumnMapping.ticketType mapping; ColumnMapping.status mapping;
     ColumnMapping.hasJoinedEvent mapping; ColumnMapping.approval_status mapping])
    as Hfields.
  { unfold mapping, suggestMapping. fold (normalizedColumnsOf columns).
    repeat (apply Forall_cons_2 || apply Forall_nil_2); intros c; simpl;
      first [apply withFallback_in | apply firstColumn_in]. }
  split_and!; [done | done |].
  unfold missingColumns. apply Forall_app. split.
  - apply Forall_forall. intros c [Hmiss Hin]%list_elem_of_filter.
    apply list_elem_of_singleton in Hin as ->.
    destruct Hemail as [He | He]; [done | by destruct Hmiss].
  - apply Forall_forall. intros c [Hmiss Hin]%list_elem_of_filter.
    apply list_elem_of_omap in Hin as (field & Hfield & Hc).
    destruct (Js.truthy_opt field); [subst field | done].
    rewrite Forall_forall in Hfields. destruct Hmiss. by eapply Hfields.
Qed.

#[local] Set Warnings "-clear-no-such-hyp".

Lemma noneNamed_weaken names names' columns :
  (forall n, n ∈ names' -> n ∈ names) ->
  noneNamed names columns -> noneNamed names' columns.
Proof.
  intros Hsub H. eapply Forall_impl; [exact H|]. intros x Hx Hin. by apply Hx, Hsub.
Qed.

Lemma firstNamed_extend names names' columns c :
  (forall n, n ∈ names -> n ∈ names') ->
  noneNamed (filter (fun n => n ∉ names) names') columns ->
  firstNamed names columns c -> firstNamed names' columns c.
Proof.
  intros Hsub Hnone (pre & post & -> & Hc & Hpre).
  exists pre, post. split_and!; [done | by apply Hsub|].
  apply Forall_app in Hnone as [Hnone _].
  apply Forall_forall. intros x Hx Hin.
  rewrite Forall_forall in Hpre, Hnone.
  destruct (decide (normalizeColumnName x ∈ names)) as [Hn|Hn]; [by eapply Hpre|].
  eapply Hnone; [exact Hx|]. by apply list_elem_of_filter.
Qed.

(** X3. The suggested email column is the first column whose normalized
    name is "email", even when a column with an alternative spelling comes
    earlier; without such a column it is the first column named "e-mail",
    "emailaddress" or "e_mail"; and it is empty exactly when no column has
    any of these names. *)
Theorem suggestMapping_email (columns : list string) :
  let email := ColumnMapping.email (suggestMapping columns) in
  (forall c, firstNamed ["email"] columns c -> email = c) /\
  (forall c, noneNamed ["email"] columns ->
     firstNamed ["e-mail"; "emailaddress"; "e_mail"] columns c -> email = c) /\
  (email = "" <->
   noneNamed ["email"; "e-mail"; "emailaddress"; "e_mail"] columns).
Proof.
  intros email. unfold email, suggestMapping. cbn [ColumnMapping.email].
  fold (normalizedColumnsOf columns). split_and!.
  - intros c Hc. apply firstColumn_firstNamed in Hc.
    by rewrite (withFallback_found _ _ _ c).
  - intros c Hnone Hc. apply firstColumn_noneNamed in Hnone.
    apply firstColumn_firstNamed in Hc.
    by rewrite withFallback_not_found, Hc.
  - destruct (firstColumn (oneOf ["email"]) (normalizedColumnsOf columns))
      as [c|] eqn:H1.
    + pose proof (firstColumn_truthy _ _ _ eq_refl H1) as Hc.
      unfold withFallback. simpl. rewrite Hc. simpl.
      apply truthy_spec in Hc. split; [done|]. intros Hnone.
      apply (noneNamed_weaken _ ["email"]) in Hnone; [|set_solver].
      apply firstColumn_noneNamed in Hnone. congruence.
    + unfold withFallback. simpl.
      destruct (firstColumn (oneOf ["e-mail"; "emailaddress"; "e_mail"])
                  (normalizedColumnsOf columns)) as [c|] eqn:H2; simpl.
      * pose proof (firstColumn_truthy _ _ _ eq_refl H2) as Hc.
        apply truthy_spec in Hc. split; [done|]. intros Hnone.
        apply (noneNamed_weaken _ ["e-mail"; "emailaddress"; "e_mail"]) in Hnone;
          [|set_solver].
        apply firstColumn_noneNamed in Hnone. congruence.
      * split; [intros _ | done].
        apply firstColumn_None in H1, H2. rewrite Forall_forall in H1, H2.
        apply Forall_forall. intros x Hx. specialize (H1 x Hx). specialize (H2 x Hx).
        apply oneOf_false in H1, H2. set_solver.
Qed.

(** X4. Whenever a column is named "status", the first such column is the
    suggested status column, whether or not an approval column was found:
    the guard on the first status loop never changes the result. When no
    column is named "approval_status", "approvalstatus" or "approval", that
    same column is also the suggested approval-status column. *)
Theorem suggestMapping_status (columns : list string) :
  let mapping := suggestMapping columns in
  (forall c, firstNamed ["status"] columns c ->
     ColumnMapping.status mapping = Some c) /\
  (noneNamed ["status"] columns -> ColumnMapping.status mapping = None) /\
  (forall c,
     noneNamed ["approval_status"; "approvalstatus"; "approval"] columns ->
     firstNamed ["status"] columns c ->
     ColumnMapping.approval_status mapping = Some c).
Proof.
  intros mapping. unfold mapping, suggestMapping.
  cbn [ColumnMapping.status ColumnMapping.approval_status].
  fold (normalizedColumnsOf columns).
  set (approval := withFallback _ (oneOf ["approval"; "status"]) _).
  assert (forall n, (String.eqb n "status" && negb (Js.truthy_opt approval)) =
                    if Js.truthy_opt approval then false else oneOf ["status"] n)
    as Hguard.
  { intros n. unfold oneOf. simpl. destruct (Js.truthy_opt approval); simpl.
    - by rewrite andb_false_r.
    - by rewrite andb_true_r, orb_false_r. }
  rewrite (firstColumn_ext _ _ _ Hguard). split_and!.
  - intros c Hc. apply firstColumn_firstNamed in Hc.
    destruct (Js.truthy_opt approval).
    + rewrite withFallback_not_found, Hc; [done|]. by apply firstColumn_None, Forall_true.
    + by rewrite (withFallback_found _ _ _ c).
  - intros Hnone. apply firstColumn_noneNamed in Hnone.
    destruct (Js.truthy_opt approval).
    + rewrite withFallback_not_found, Hnone; [done|]. by apply firstColumn_None, Forall_true.
    + by rewrite withFallback_not_found, Hnone.
  - intros c Hnone Hc. unfold approval.
    rewrite withFallback_not_found.
    + apply firstColumn_firstNamed.
      eapply (firstNamed_extend ["status"]); [set_solver | | exact Hc].
      eapply noneNamed_weaken; [|exact Hnone]. intros n [Hnot Hin]%list_elem_of_filter.
      set_solver.
    + apply firstColumn_noneNamed. eapply noneNamed_weaken; [|exact Hnone]. set_solver.
Qed.

(** X5. A column named "attended" that is the first attendance-date column
    is suggested for two roles at once when no column is named
    "has_joined_event", "hasjoinedevent" or "joined": as the attendance date
    and as the joined flag. *)
Theorem suggestMapping_attended (columns : list string) (c : string) :
  firstNamed ["attendancedate"; "attendance_date"; "attended"; "checkedin"] columns c ->
  normalizeColumnName c = "attended" ->
  noneNamed ["has_joined_event"; "hasjoinedevent"; "joined"] columns ->
  ColumnMapping.attendanceDate (suggestMapping columns) = Some c /\
  ColumnMapping.hasJoinedEvent (suggestMapping columns) = Some c.
Proof.
  intros Hc Hname Hnone. unfold suggestMapping.
  cbn [ColumnMapping.attendanceDate ColumnMapping.hasJoinedEvent].
  fold (normalizedColumnsOf columns). split; [by apply firstColumn_firstNamed|].
  rewrite withFallback_not_found.
  - apply firstColumn_firstNamed.
    destruct Hc as (pre & post & -> & _ & Hpre). exists pre, post.
    split_and!; [done | rewrite Hname; set_solver |].
    apply Forall_app in Hnone as [Hnone _].
    rewrite Forall_forall in Hpre, Hnone. apply Forall_forall. intros x Hx Hin.
    specialize (Hpre x Hx). specialize (Hnone x Hx). set_solver.
  - apply firstColumn_noneNamed. eapply noneNamed_weaken; [|exact Hnone]. set_solver.
Qed.

Lemma suggestMapping_attended_witness :
  ColumnMapping.attendanceDate (suggestMapping ["Email"; "Attended"]) = Some "Attended" /\
  ColumnMapping.hasJoinedEvent (suggestMapping ["Email"; "Attended"]) = Some "Attended".
Proof.
  apply (suggestMapping_attended ["Email"; "Attended"] "Attended").
  - exists ["Email"], []. split_and!; [reflexivity | vm_compute; set_solver |].
    repeat constructor. vm_compute. set_solver.
  - reflexivity.
  - repeat constructor; vm_compute; set_solver.
Defined.

(** ** Trimming *)

Lemma trimEnd_idem (s : string) : Js.trimEnd (Js.trimEnd s) = Js.trimEnd s.
Proof.
  induction s as [|c s IH]; [done|]. simpl.
  destruct (Js.trimEnd s) as [|d t] eqn:Ht.
  - destruct (Js.isWhiteSpace c) eqn:Hc; [done|]. simpl. by rewrite Hc.
  - simpl. simpl in IH. by rewrite IH.
Qed.

Lemma trimEnd_head (c : ascii) (s : string) :
  Js.isWhiteSpace c = false -> exists t, Js.trimEnd (String c s) = String c t.
Proof.
  intros Hc. simpl. destruct (Js.trimEnd s); rewrite ?Hc; by eexists.
Qed.

Lemma trimStart_cases (s : string) :
  Js.trimStart s = "" \/
  exists c t, Js.trimStart s = String c t /\ Js.isWhiteSpace c = false.
Proof.
  induction s as [|c s IH]; [by left|]. simpl.
  destruct (Js.isWhiteSpace c) eqn:Hc; [done|]. right. by exists c, s.
Qed.

Lemma trim_idem (s : string) : Js.trim (Js.trim s) = Js.trim s.
Proof.
  unfold Js.trim. destruct (trimStart_cases s) as [-> | (c & t & -> & Hc)]; [done|].
  destruct (trimEnd_head c t Hc) as [u Hu]. rewrite Hu. simpl Js.trimStart.
  rewrite Hc, <- Hu. apply trimEnd_idem.
Qed.

Lemma trimStart_app_ws (w s : string) :
  Js.trimStart w = "" -> Js.trimStart (w +:+ s) = Js.trimStart s.
Proof.
  induction w as [|c w IH]; [done|]. rewrite append_cons. simpl.
  destruct (Js.isWhiteSpace c); [done | discriminate].
Qed.

Lemma trimStart_app_head (x s : string) (c : ascii) (t : string) :
  Js.trimStart x = String c t -> Js.trimStart (x +:+ s) = String c (t +:+ s).
Proof.
  induction x as [|d x IH]; [done|]. rewrite append_cons. simpl.
  destruct (Js.isWhiteSpace d); [done|]. by intros [= -> ->].
Qed.

Lemma trimEnd_app_ws (x w : string) :
  Js.trimStart w = "" -> Js.trimEnd (x +:+ w) = Js.trimEnd x.
Proof.
  intros Hw. assert (Js.trimEnd w = "") as Hw'.
  { clear x. induction w as [|c w IH]; [done|]. simpl in *.
    destruct (Js.isWhiteSpace c); [|done]. by rewrite IH. }
  induction x as [|c x IH]; [done|]. rewrite append_cons. simpl. by rewrite IH.
Qed.

Lemma trim_app_ws (x w : string) :
  Js.trimStart w = "" -> Js.trim (x +:+ w) = Js.trim x.
Proof.
  intros Hw. unfold Js.trim.
  destruct (trimStart_cases x) as [Hx | (c & t & Hx & Hc)].
  - by rewrite (trimStart_app_ws x w Hx), Hw, Hx.
  - rewrite (trimStart_app_head x w c t Hx), Hx, <- append_cons.
    by apply trimEnd_app_ws.
Qed.

(** ** File-name pattern *)

Lemma tokens_None ps : foldl (fun o p => match o with Some r => p r | None => None end)
  (None : option string) ps = None.
Proof. induction ps as [|q ps IH]; [done | apply IH]. Qed.

Lemma tokens_cons_eq (p : string -> option string) ps s m :
  p s = Some m -> tokens (p :: ps) s = tokens ps m.
Proof. intros H. unfold tokens. simpl. by rewrite H. Qed.

Lemma tokens_cons_None (p : string -> option string) ps s :
  p s = None -> tokens (p :: ps) s = None.
Proof. intros H. unfold tokens. simpl. rewrite H. apply tokens_None. Qed.

Lemma tokens_cons_Some (p : string -> option string) ps s r :
  tokens (p :: ps) s = Some r -> exists m, p s = Some m /\ tokens ps m = Some r.
Proof.
  destruct (p s) as [m|] eqn:Hp.
  - rewrite (tokens_cons_eq p ps s m Hp). by exists m.
  - by rewrite tokens_cons_None.
Qed.

Lemma digitsThen_inv n s rest :
  digitsThen n s = Some rest -> exists p, s = p +:+ rest /\ digitString n p.
Proof.
  revert s. induction n as [|n IH]; intros s; simpl.
  - intros [= ->]. by exists "".
  - destruct s as [|c s]; [done|]. destruct (isDigit c) eqn:Hc; [|done].
    intros H. destruct (IH _ H) as (p & -> & Hlen & Hp).
    exists (String c p). split; [done|]. split; simpl; [by rewrite Hlen | by rewrite Hc].
Qed.

Lemma digitsThen_app n p rest :
  digitString n p -> digitsThen n (p +:+ rest) = Some rest.
Proof.
  revert n. induction p as [|c p IH]; intros n [Hlen Hp]; simpl in *.
  - by subst n.
  - subst n. apply andb_true_iff in Hp as [Hc Hp]. rewrite append_cons. simpl.
    rewrite Hc. by apply IH.
Qed.

Lemma charThen_inv c s rest : charThen c s = Some rest -> s = String c rest.
Proof.
  destruct s as [|d s]; [done|]. simpl.
  destruct (Ascii.eqb_spec d c) as [->|]; [|done]. by intros [= ->].
Qed.

Lemma digitsThen_exact n p : digitString n p -> digitsThen n p = Some "".
Proof.
  intros H. rewrite <- (append_empty_r p) at 1. by apply digitsThen_app.
Qed.

Lemma matchDateTime_inv (date : string) :
  matchDateTime date = true ->
  exists year month day hour minute second,
    date = stamp year month day hour minute second /\
    digitString 4 year /\ digitString 2 month /\ digitString 2 day /\
    digitString 2 hour /\ digitString 2 minute /\ digitString 2 second.
Proof.
  unfold matchDateTime. destruct (tokens _ date) as [[|]|] eqn:E; try done.
  intros _.
  do 11 (apply tokens_cons_Some in E as (? & ? & E)).
  injection E as ->.
  repeat match goal with
         | H : digitsThen _ _ = Some _ |- _ =>
             apply digitsThen_inv in H as (? & -> & ?)
         | H : charThen _ _ = Some _ |- _ => apply charThen_inv in H as ->
         end.
  match goal with
  | |- context [?y +:+ String _ (?mo +:+ String _ (?d +:+ String _
         (?h +:+ String _ (?mi +:+ String _ (?se +:+ "")))))] =>
      exists y, mo, d, h, mi, se
  end.
  split; [|by split_and!].
  unfold stamp. by rewrite ?append_cons, ?append_nil, ?append_empty_r.
Qed.

Lemma matchDateTime_stamp year month day hour minute second :
  digitString 4 year -> digitString 2 month -> digitString 2 day ->
  digitString 2 hour -> digitString 2 minute -> digitString 2 second ->
  matchDateTime (stamp year month day hour minute second) = true.
Proof.
  intros Hy Hmo Hd Hh Hmi Hs. unfold matchDateTime, stamp.
  do 11 (erewrite tokens_cons_eq;
          [|first [by apply digitsThen_app | by apply digitsThen_exact | reflexivity]]).
  done.
Qed.

Lemma isDigit_not_hyphen (c : ascii) : isDigit c = true -> Ascii.eqb c "-" = false.
Proof. by destruct c as [[] [] [] [] [] [] [] []]. Qed.

Lemma isDigit_not_whitespace (c : ascii) :
  isDigit c = true -> Js.isWhiteSpace c = false.
Proof. by destruct c as [[] [] [] [] [] [] [] []]. Qed.

Lemma split_digits_app (p rest : string) :
  allChars isDigit p = true ->
  split "-" (p +:+ String "-" rest) = p :: split "-" rest.
Proof.
  induction p as [|c p IH]; simpl; [done|].
  intros [Hc Hp]%andb_true_iff.
  by rewrite (isDigit_not_hyphen c Hc), IH.
Qed.

Lemma split_digits (p : string) : allChars isDigit p = true -> split "-" p = [p].
Proof.
  induction p as [|c p IH]; simpl; [done|].
  intros [Hc Hp]%andb_true_iff. by rewrite (isDigit_not_hyphen c Hc), IH.
Qed.

Lemma split_stamp year month day hour minute second :
  digitString 4 year -> digitString 2 month -> digitString 2 day ->
  digitString 2 hour -> digitString 2 minute -> digitString 2 second ->
  split "-" (stamp year month day hour minute second) =
  [year; month; day; hour; minute; second].
Proof.
  intros [_ Hy] [_ Hmo] [_ Hd] [_ Hh] [_ Hmi] [_ Hs]. unfold stamp.
  rewrite ?append_cons, ?append_nil.
  by rewrite !split_digits_app, split_digits.
Qed.

Lemma matchTail_inv (s date : string) :
  matchTail s = Some date -> matchDateTime date = true.
Proof.
  unfold matchTail. destruct (tokens _ s) as [d|]; [|done].
  destruct (matchDateTime d) eqn:Hd; [|done]. by intros [= <-].
Qed.

Lemma lazyGroup_date (group rest : string) g date :
  lazyGroup group rest = Some (g, date) -> matchDateTime date = true.
Proof.
  revert group. induction rest as [|c rest IH]; intros group; simpl.
  - done.
  - destruct (matchTail (String c rest)) as [d|] eqn:Hd.
    + intros [= _ <-]. by eapply matchTail_inv.
    + destruct (isLineTerminator c); [done | apply IH].
Qed.

Lemma extractEventSettings_shape (filename : string) (settings : EventSettings.t) :
  extractEventSettingsFromFilename filename = Some settings ->
  exists name year month day hour minute second,
    settings =
      {| EventSettings.eventName := Some name;
         EventSettings.eventDate := Some (year +:+ "-" +:+ month +:+ "-" +:+ day);
         EventSettings.eventTime := Some (hour +:+ ":" +:+ minute +:+ ":" +:+ second);
         EventSettings.presenter := None |} /\
    trimmedString name /\
    digitString 4 year /\ digitString 2 month /\ digitString 2 day /\
    digitString 2 hour /\ digitString 2 minute /\ digitString 2 second.
Proof.
  unfold extractEventSettingsFromFilename.
  destruct (matchFilename (stripCsv filename)) as [[group date]|] eqn:Hm; [|done].
  assert (matchDateTime date = true) as Hdate.
  { unfold matchFilename in Hm. destruct (stripCsv filename) as [|c rest]; [done|].
    destruct (isLineTerminator c); [done|]. by eapply lazyGroup_date. }
  apply matchDateTime_inv in Hdate
    as (year & month & day & hour & minute & second & -> & Hy & Hmo & Hd & Hh & Hmi & Hs).
  rewrite split_stamp by done. intros [= <-].
  exists (Js.trim group), year, month, day, hour, minute, second.
  split_and!; try done. apply trim_idem.
Qed.

(** X6. Whenever [extractEventSettingsFromFilename] yields settings, they
    have a fixed shape: an event name without surrounding whitespace, an
    event date of the form dddd-dd-dd, an event time of the form dd:dd:dd
    (d an ASCII digit) and no presenter. *)
Theorem extractEventSettings_format (filename : string) (settings : EventSettings.t) :
  extractEventSettingsFromFilename filename = Some settings ->
  exists name year month day hour minute second,
    settings =
      {| EventSettings.eventName := Some name;
         EventSettings.eventDate := Some (year +:+ "-" +:+ month +:+ "-" +:+ day);
         EventSettings.eventTime := Some (hour +:+ ":" +:+ minute +:+ ":" +:+ second);
         EventSettings.presenter := None |} /\
    trimmedString name /\
    digitString 4 year /\ digitString 2 month /\ digitString 2 day /\
    digitString 2 hour /\ digitString 2 minute /\ digitString 2 second.
Proof. apply extractEventSettings_shape. Qed.

Lemma extractEventSettings_format_witness :
  exists name, 
    extractEventSettingsFromFilename "Launch Party - Guests - 2024-05-01-19-30-00.csv" =
    Some {| EventSettings.eventName := Some name;
            EventSettings.eventDate := Some "2024-05-01";
            EventSettings.eventTime := Some "19:30:00";
            EventSettings.presenter := None |} /\
    trimmedString name.
Proof.
  destruct (extractEventSettings_format
              "Launch Party - Guests - 2024-05-01-19-30-00.csv" _ eq_refl)
    as (name & y & mo & d & h & mi & s & Heq & Hname & _).
  injection Heq as <- _ _. by exists "Launch Party".
Defined.

Lemma take_append (x s : string) : Js.take (String.length x) (x +:+ s) = x.
Proof.
  induction x as [|c x IH]; simpl; [by destruct s|]. by rewrite IH.
Qed.

Lemma drop_append (x s : string) : Js.drop (String.length x) (x +:+ s) = s.
Proof. induction x as [|c x IH]; simpl; [by destruct s | done]. Qed.

Lemma stripCsv_csv (x : string) : stripCsv (x +:+ ".csv") = x.
Proof.
  unfold stripCsv. rewrite length_append. simpl String.length.
  replace (String.length x + 4 - 4)%nat with (String.length x) by lia.
  rewrite drop_append, take_append.
  by replace (4 <=? String.length x + 4)%nat with true
    by (symmetry; apply Nat.leb_le; lia).
Qed.

Lemma trimStart_dateTime (date : string) :
  matchDateTime date = true -> Js.trimStart date = date.
Proof.
  intros (y & mo & d & h & mi & s & -> & [Hlen Hy] & _)%matchDateTime_inv.
  destruct y as [|c y]; [done|]. apply andb_true_iff in Hy as [Hc _].
  unfold stamp. rewrite append_cons. simpl.
  by rewrite (isDigit_not_whitespace c Hc).
Qed.

Lemma matchTail_whitespace (w date : string) :
  Js.trimStart w = "" -> matchDateTime date = true ->
  matchTail (w +:+ " - Guests - " +:+ date) = Some date.
Proof.
  intros Hw Hdate. unfold matchTail.
  erewrite tokens_cons_eq;
    [|unfold skipWhiteSpace; by rewrite trimStart_app_ws].
  do 6 (erewrite tokens_cons_eq; [|reflexivity]).
  change (tokens [] ?m) with (Some m). cbv beta iota.
  change (Js.trimStart (String " " date)) with (Js.trimStart date).
  by rewrite (trimStart_dateTime date Hdate), Hdate.
Qed.

Lemma matchTail_name (x s : string) (c : ascii) (t : string) :
  Js.trimStart x = String c t -> Ascii.eqb c "-" = false ->
  matchTail (x +:+ s) = None.
Proof.
  intros Hx Hc. unfold matchTail.
  erewrite tokens_cons_eq;
    [|unfold skipWhiteSpace; by rewrite (trimStart_app_head x s c t Hx)].
  rewrite tokens_cons_None; [done|]. simpl. by rewrite Hc.
Qed.

Lemma allChars_trimStart (p : ascii -> bool) (x : string) (c : ascii) (t : string) :
  allChars p x = true -> Js.trimStart x = String c t -> p c = true.
Proof.
  induction x as [|d x IH]; simpl; [done|].
  intros [Hd Hx]%andb_true_iff. destruct (Js.isWhiteSpace d); [by apply IH|].
  by intros [= <- _].
Qed.

Lemma lazyGroup_eq (group rest : string) :
  lazyGroup group rest =
  match matchTail rest with
  | Some date => Some (group, date)
  | None =>
      match rest with
      | EmptyString => None
      | String c rest' =>
          if isLineTerminator c then None
          else lazyGroup (group +:+ String c EmptyString) rest'
      end
  end.
Proof. by destruct rest. Qed.

(** The lazy group stops at the first point from which only whitespace
    separates it from the " - Guests - " part. *)
Lemma lazyGroup_name (date name group : string) :
  matchDateTime date = true ->
  allChars nameChar name = true ->
  exists p w, name = p +:+ w /\ Js.trimStart w = "" /\
    lazyGroup group (name +:+ " - Guests - " +:+ date) = Some (group +:+ p, date).
Proof.
  intros Hdate. revert group. induction name as [|d name IH]; intros group Hname.
  - exists "", "". split_and!; [done | done |].
    rewrite lazyGroup_eq, (matchTail_whitespace "" date) by done.
    by rewrite append_empty_r.
  - destruct (trimStart_cases (String d name)) as [Hw | (c & t & Hx & Hc)].
    + exists "", (String d name). split_and!; [done | done |].
      rewrite lazyGroup_eq, matchTail_whitespace by done.
      by rewrite append_empty_r.
    + pose proof (allChars_trimStart _ _ _ _ Hname Hx) as Hnc.
      apply andb_true_iff in Hnc as [_ Hnc]. apply negb_true_iff in Hnc.
      rewrite lazyGroup_eq, (matchTail_name _ _ c t Hx Hnc).
      simpl in Hname. apply andb_true_iff in Hname as [Hd Hname].
      apply andb_true_iff in Hd as [Hd _]. apply negb_true_iff in Hd.
      rewrite append_cons, Hd.
      destruct (IH (group +:+ String d "") Hname) as (p & w & -> & Hw & Hrun).
      exists (String d p), w. split_and!; [done | done |].
      by rewrite Hrun, append_assoc.
Qed.

(** X7. A file name in the guest-list format, "NAME - Guests -
    YYYY-MM-DD-HH-MM-SS.csv", is read back exactly: when NAME is not empty
    and holds neither a hyphen nor a line break, the settings carry NAME
    trimmed, the date YYYY-MM-DD and the time HH:MM:SS. *)
Theorem extractEventSettings_round_trip name year month day hour minute second :
  name <> "" ->
  allChars nameChar name = true ->
  digitString 4 year -> digitString 2 month -> digitString 2 day ->
  digitString 2 hour -> digitString 2 minute -> digitString 2 second ->
  extractEventSettingsFromFilename
    (name +:+ " - Guests - " +:+ stamp year month day hour minute second +:+ ".csv") =
  Some {| EventSettings.eventName := Some (Js.trim name);
          EventSettings.eventDate := Some (year +:+ "-" +:+ month +:+ "-" +:+ day);
          EventSettings.eventTime := Some (hour +:+ ":" +:+ minute +:+ ":" +:+ second);
          EventSettings.presenter := None |}.
Proof.
  intros Hne Hname Hy Hmo Hd Hh Hmi Hs.
  pose proof (matchDateTime_stamp _ _ _ _ _ _ Hy Hmo Hd Hh Hmi Hs) as Hdate.
  unfold extractEventSettingsFromFilename.
  replace (name +:+ " - Guests - " +:+
           stamp year month day hour minute second +:+ ".csv")
    with ((name +:+ " - Guests - " +:+
           stamp year month day hour minute second) +:+ ".csv")
    by (by rewrite !append_assoc).
  rewrite stripCsv_csv.
  destruct name as [|c name]; [done|]. simpl in Hname.
  apply andb_true_iff in Hname as [Hc Hname].
  apply andb_true_iff in Hc as [Hc _]. apply negb_true_iff in Hc.
  rewrite append_cons. unfold matchFilename. rewrite Hc.
  destruct (lazyGroup_name _ name (String c "") Hdate Hname)
    as (p & w & -> & Hw & ->).
  rewrite split_stamp by done. do 3 f_equal.
  rewrite (append_cons c "" p), append_nil, <- (append_cons c p w). symmetry.
  by apply trim_app_ws.
Qed.

Lemma extractEventSettings_round_trip_witness :
  extractEventSettingsFromFilename
    (" Launch Party " +:+ " - Guests - " +:+
     stamp "2024" "05" "01" "19" "30" "00" +:+ ".csv") =
  Some {| EventSettings.eventName := Some "Launch Party";
          EventSettings.eventDate := Some "2024-05-01";
          EventSettings.eventTime := Some "19:30:00";
          EventSettings.presenter := None |}.
Proof.
  by apply (extractEventSettings_round_trip " Launch Party " "2024" "05" "01" "19" "30" "00").
Defined.

Lemma digitString_nonempty n s : digitString (S n) s -> exists c t, s = String c t.
Proof. intros [Hlen _]. destruct s as [|c t]; [done | by exists c, t]. Qed.

Section ExtractedSettings.

Variable Date_parse : string -> option Z.
Variable Date_now : nat -> Z.

(** X8. Settings extracted from a file name always give derived events a
    full time stamp: every event derived with them carries the metadata
    [event_date] "YYYY-MM-DD HH:MM:SS", the extracted date and time joined
    by one space. *)
Theorem extracted_settings_event_date filename settings attendees e :
  extractEventSettingsFromFilename filename = Some settings ->
  e ∈ createIntercomEvents Date_parse Date_now attendees (Some settings) ->
  exists m d t,
    EventSettings.eventDate settings = Some d /\
    EventSettings.eventTime settings = Some t /\
    IntercomEvent.metadata e = Some m /\
    Metadata.event_date m = Some (d +:+ " " +:+ t).
Proof.
  intros Hex He.
  apply extractEventSettings_shape in Hex
    as (name & y & mo & d & h & mi & s & -> & _ & Hy & _ & _ & Hh & _).
  apply createIntercomEvents_from_metadata in He as (m & Hm & Hdate).
  eexists m, _, _. split_and!; [reflexivity | reflexivity | done |].
  rewrite Hdate.
  destruct (combinedEventDate_cases
    (Some {| EventSettings.eventName := Some name;
             EventSettings.eventDate := Some (y +:+ "-" +:+ mo +:+ "-" +:+ d);
             EventSettings.eventTime := Some (h +:+ ":" +:+ mi +:+ ":" +:+ s);
             EventSettings.presenter := None |})) as [Hboth _].
  apply Hboth; try done.
  - destruct (digitString_nonempty _ _ Hy) as (c & t & ->). by rewrite append_cons.
  - destruct (digitString_nonempty _ _ Hh) as (c & t & ->). by rewrite append_cons.
Qed.

End ExtractedSettings.

Lemma extracted_settings_event_date_witness :
  exists e m,
    createIntercomEvents noParse fixedNow [classify (bareAttendee true false)]
      (extractEventSettingsFromFilename "Launch Party - Guests - 2024-05-01-19-30-00.csv")
    = [e] /\
    IntercomEvent.metadata e = Some m /\
    Metadata.event_date m = Some "2024-05-01 19:30:00".
Proof.
  eexists _, _. split; [reflexivity|].
  destruct (extracted_settings_event_date noParse fixedNow
              "Launch Party - Guests - 2024-05-01-19-30-00.csv" _
              [classify (bareAttendee true false)] _ eq_refl
              ltac:(apply list_elem_of_here))
    as (m & d & t & [= <-] & [= <-] & [= <-] & Hdate).
  split; [reflexivity | exact Hdate].
Defined.

(** ** Credentials *)

Section CredentialFacts.

Context {World U : Type} `{api : IntercomApi World}.

(** X9. The availability route answers [testModeAvailable: true] exactly
    when a test-mode publication returns an outcome instead of raising the
    configuration error. *)
Theorem testModeAvailable_publish (env : Env) (event : IntercomEvent.t)
    (s : State World U) :
  testModeAvailable env = true <->
  exists r s', publishEvent env event true s = (Ok r, s').
Proof.
  unfold testModeAvailable. split.
  - intros H. assert (configured env true) as Hc by by apply truthy_opt_spec.
    destruct (publishEvent_run env event true s Hc) as (s1 & _ & Hrun).
    by eexists _, _.
  - intros (r & s' & Hrun).
    destruct (Js.truthy_opt (INTERCOM_ACCESS_TOKEN_TEST env)) eqn:Htok; [done|].
    rewrite publishEvent_unset in Hrun; [done|].
    unfold configured. rewrite <- truthy_opt_spec. simpl. by rewrite Htok.
Qed.

(** The run of a publication depends on the environment through the
    selected access token only. *)
Lemma publishEvent_token (env1 env2 : Env) event testMode (s : State World U) :
  accessToken env1 testMode = accessToken env2 testMode ->
  publishEvent env1 event testMode s = publishEvent env2 event testMode s.
Proof.
  intros H. unfold publishEvent, ensureUserExists, getIntercomClient.
  destruct testMode; simpl in H; by rewrite H.
Qed.

End CredentialFacts.

(** ** Replacement of the email domain *)

Lemma indexOf_ge (s : string) (c : ascii) : (-1 <= Js.indexOf s c)%Z.
Proof.
  induction s as [|x s IH]; simpl; [lia|].
  destruct (Ascii.eqb x c); [lia|].
  destruct (Z.eqb_spec (Js.indexOf s c) (-1)); lia.
Qed.

Lemma indexOf_cons_none (x : ascii) (s : string) (c : ascii) :
  Js.indexOf (String x s) c = (-1)%Z ->
  Ascii.eqb x c = false /\ Js.indexOf s c = (-1)%Z.
Proof.
  simpl. destruct (Ascii.eqb x c); [done|].
  destruct (Z.eqb_spec (Js.indexOf s c) (-1)) as [Hi|Hi]; [done|].
  pose proof (indexOf_ge s c). lia.
Qed.

(** The part before the first occurrence of a character is determined by
    the string. *)
Lemma first_occurrence_unique (c : ascii) (l l' r r' : string) :
  l +:+ String c r = l' +:+ String c r' ->
  Js.indexOf l c = (-1)%Z -> Js.indexOf l' c = (-1)%Z -> l = l'.
Proof.
  revert l'. induction l as [|x l IH]; intros [|x' l'] Heq Hl Hl'.
  - done.
  - rewrite append_cons, append_nil in Heq. injection Heq as <- _.
    apply indexOf_cons_none in Hl' as [Hx _]. by rewrite Ascii.eqb_refl in Hx.
  - rewrite append_cons, append_nil in Heq. injection Heq as -> _.
    apply indexOf_cons_none in Hl as [Hx _]. by rewrite Ascii.eqb_refl in Hx.
  - rewrite !append_cons in Heq. injection Heq as -> Heq.
    apply indexOf_cons_none in Hl as [_ Hl]. apply indexOf_cons_none in Hl' as [_ Hl'].
    f_equal. by apply IH.
Qed.

(** X12. Replacing the domain twice is the same as replacing it once, for
    every address, with or without "@". *)
Theorem replaceEmailDomain_idempotent (email : string) :
  replaceEmailDomain (replaceEmailDomain email) = replaceEmailDomain email.
Proof.
  destruct (Js.includes email "@") eqn:Hat.
  - destruct (replaceEmailDomain_at email Hat) as (l & d & _ & Hl & ->).
    assert (Js.includes (l +:+ "@example.com") "@" = true) as Hat'.
    { apply includes_spec. by exists l, "example.com". }
    destruct (replaceEmailDomain_at _ Hat') as (l' & d' & Heq & Hl' & ->).
    f_equal. apply includes_char_indexOf in Hl, Hl'. symmetry.
    by eapply (first_occurrence_unique "@" l l' "example.com" d').
  - rewrite (replaceEmailDomain_no_at email Hat).
    by apply replaceEmailDomain_no_at.
Qed.

(** ** Record normalizer *)

Lemma mapped_trimmed row column : trimmedString (mapped row column).
Proof.
  unfold mapped. destruct column as [c|]; [|done].
  destruct (Js.truthy c); [apply trim_idem | done].
Qed.

Lemma mapped_reads row column : readsColumn row column (mapped row column).
Proof.
  unfold mapped. split.
  - intros c -> Hc. apply truthy_spec in Hc. by rewrite Hc.
  - intros Hn. destruct column as [c|]; [|done].
    destruct (Js.truthy c) eqn:Hc; [|done]. destruct Hn. exists c.
    by rewrite <- truthy_spec.
Qed.

Lemma parseAttendee_mapped row mapping a :
  parseAttendee row mapping = Some a -> ColumnMapping.email mapping <> "".
Proof.
  unfold parseAttendee, mapped.
  destruct (Js.truthy (ColumnMapping.email mapping)) eqn:Hm.
  - intros _. by apply truthy_spec.
  - by simpl.
Qed.

(** X10. For a row that answers every mapped column with a cell or with
    nothing (no mapped column has a reserved name that the row lacks, where
    the source raises a [TypeError]): the row is accepted by
    [parseAttendee] exactly when the email column is mapped and the row's
    email cell, trimmed, contains "@"; the separate test for an empty email
    never decides. *)
Theorem parseAttendee_accepts (row : gmap string string) (mapping : ColumnMapping.t) :
  plainRow mapping row = true ->
  (exists a, parseAttendee row mapping = Some a) <->
  ColumnMapping.email mapping <> "" /\
  Js.includes (Js.trim (cell row (ColumnMapping.email mapping))) "@" = true.
Proof.
  intros _. unfold parseAttendee, mapped.
  destruct (Js.truthy (ColumnMapping.email mapping)) eqn:Hm.
  - apply truthy_spec in Hm.
    destruct (Js.includes (Js.trim (cell row (ColumnMapping.email mapping))) "@")
      eqn:Hat; simpl.
    + assert (Js.truthy (Js.trim (cell row (ColumnMapping.email mapping))) = true) as ->.
      { apply truthy_spec. intros Heq. by rewrite Heq in Hat. }
      simpl. split; [done | intros _; by eexists].
    + rewrite orb_true_r. split; [by intros [? ?] | by intros [_ ?]].
  - simpl. split; [by intros [? ?]|]. intros [Hne _].
    apply truthy_spec in Hne. congruence.
Qed.

Lemma parseAttendee_accepts_witness :
  exists a, parseAttendee registeredRow demoMapping = Some a.
Proof.
  apply (parseAttendee_accepts registeredRow demoMapping);
    [reflexivity | split; [discriminate | reflexivity]].
Defined.

(** X11. Every text field of an accepted attendee is defined and free of
    surrounding whitespace: the email is the trimmed email cell, and each
    optional field is the trimmed cell of its mapped column, or the empty
    string when the column is not mapped. The joined flag is undefined
    exactly when its column is not mapped. *)
Theorem parseAttendee_fields row mapping a :
  parseAttendee row mapping = Some a ->
  LumaAttendee.email a = Js.trim (cell row (ColumnMapping.email mapping)) /\
  trimmedString (LumaAttendee.email a) /\
  Forall (fun '(field, column) =>
            exists v, field = Some v /\ trimmedString v /\ readsColumn row column v)
    [(LumaAttendee.name a, ColumnMapping.name mapping);
     (LumaAttendee.phone_number a, ColumnMapping.phone_number mapping);
     (LumaAttendee.registrationDate a, ColumnMapping.registrationDate mapping);
     (LumaAttendee.attendanceDate a, ColumnMapping.attendanceDate mapping);
     (LumaAttendee.ticketType a, ColumnMapping.ticketType mapping);
     (LumaAttendee.status a, ColumnMapping.status mapping)] /\
  (LumaAttendee.hasJoinedEvent a = None <->
   ~ present (ColumnMapping.hasJoinedEvent mapping)).
Proof.
  intros Ha. pose proof (parseAttendee_mapped row mapping a Ha) as Hm.
  revert Ha. unfold parseAttendee. case_match; [done|]. intros [= <-]. simpl.
  split_and!.
  - apply truthy_spec in Hm. by rewrite Hm.
  - apply (mapped_trimmed row (Some _)).
  - repeat (apply Forall_cons_2 || apply Forall_nil_2);
      eexists; (split; [reflexivity|]);
      (split; [apply mapped_trimmed | apply mapped_reads]).
  - rewrite <- truthy_opt_spec.
    destruct (ColumnMapping.hasJoinedEvent mapping) as [c|]; simpl; [|done].
    destruct (Js.truthy c); split; try done; by intros [].
Qed.

Lemma parseAttendee_fields_witness :
  exists a, parseAttendee registeredRow demoMapping = Some a /\
    LumaAttendee.email a = "a@x.com" /\
    trimmedString (LumaAttendee.email a).
Proof.
  eexists. split; [reflexivity|].
  destruct (parseAttendee_fields registeredRow demoMapping _ eq_refl)
    as (Hemail & Htrim & _).
  split; [exact Hemail | exact Htrim].
Defined.

(** X13. When the joined column is mapped and the row's cell in it,
    trimmed and lower-cased, is "true", "1", "yes", "y" or "joined", the
    accepted attendee is classified as having attended, whatever its dates
    and status say. *)
Theorem joined_cell_gives_attendance row mapping a column :
  parseAttendee row mapping = Some a ->
  ColumnMapping.hasJoinedEvent mapping = Some column ->
  column <> "" ->
  Js.toLowerCase (Js.trim (cell row column)) ∈ joinedWords ->
  LumaAttendee.hasJoinedEvent a = Some true /\
  ProcessedAttendee.hasAttendance (classify a) = true.
Proof.
  intros Ha Hcol Hne Hword.
  assert (LumaAttendee.hasJoinedEvent a = Some true) as Hj.
  { revert Ha. unfold parseAttendee. case_match; [done|]. intros [= <-]. simpl.
    rewrite Hcol. apply truthy_spec in Hne. rewrite Hne. f_equal.
    unfold joinedWords in Hword. rewrite !elem_of_cons, elem_of_nil in Hword.
    destruct Hword as [-> | [-> | [-> | [-> | [-> | []]]]]]; reflexivity. }
  split; [done|]. apply classify_attendance. by left.
Qed.

Lemma joined_cell_gives_attendance_witness :
  exists a,
    parseAttendee joinedRow joinedMapping = Some a /\
    ProcessedAttendee.hasAttendance (classify a) = true.
Proof.
  destruct (parseAttendee joinedRow joinedMapping) as [a|] eqn:Ha;
    [|by vm_compute in Ha].
  exists a. split; [done|].
  apply (joined_cell_gives_attendance joinedRow joinedMapping a "Checked In" Ha);
    [reflexivity | discriminate |].
  vm_compute. set_solver.
Defined.

(** ** Extraction loop, continued *)

Section ExtractionAccounting.

Variable mapping : ColumnMapping.t.
Variable testMode : bool.

Lemma extractAttendees_from_accounting i rows :
  (length (extractAttendees_from i rows mapping testMode [] []).1 +
   length (extractAttendees_from i rows mapping testMode [] []).2 +
   length (filter (fun row => invited row mapping = true) rows))%nat =
  length rows.
Proof.
  revert i. induction rows as [|row rest IH]; intros i; simpl; [done|].
  destruct (invited row mapping) eqn:Hinv.
  - rewrite filter_cons_True by done. simpl. specialize (IH (S i)). lia.
  - rewrite filter_cons_False by (rewrite Hinv; done).
    destruct (parseAttendee row mapping);
      rewrite extractAttendees_from_acc; simpl; specialize (IH (S i)); lia.
Qed.

(** X14. The extraction loop accounts for every row exactly once: the
    accepted attendees, the reported errors and the invited rows add up to
    the number of rows. *)
Theorem extractAttendees_accounting rows :
  (length (extractAttendees rows mapping testMode).1 +
   length (extractAttendees rows mapping testMode).2 +
   length (filter (fun row => invited row mapping = true) rows))%nat =
  length rows.
Proof. apply extractAttendees_from_accounting. Qed.



End ExtractionAccounting.

Lemma extractAttendees_from_live mapping i rows :
  (extractAttendees_from i rows mapping false [] []).1 =
  omap (acceptedRow mapping) rows.
Proof.
  revert i. induction rows as [|row rest IH]; intros i; simpl; [done|].
  unfold acceptedRow at 1. destruct (invited row mapping); [apply IH|].
  destruct (parseAttendee row mapping) as [a|]; rewrite extractAttendees_from_acc;
    simpl; by rewrite IH.
Qed.

(** X16. In live mode the attendees are the normalized rows themselves, in
    row order and unchanged, without the invited rows and the rows without
    a valid email; in test mode they are the same attendees with only the
    email rewritten. *)
Theorem extractAttendees_attendees mapping rows :
  (extractAttendees rows mapping false).1 = omap (acceptedRow mapping) rows /\
  (extractAttendees rows mapping true).1 =
    (fun a => setEmail a (replaceEmailDomain (LumaAttendee.email a))) <$>
      omap (acceptedRow mapping) rows.
Proof.
  unfold extractAttendees.
  destruct (extractAttendees_from_test 0 rows mapping) as [-> _].
  by rewrite extractAttendees_from_live.
Qed.

(** ** Event deriver, continued *)

Section DerivationCount.

Variable Date_parse : string -> option Z.

Lemma pushEvents_length Date_now k p settings :
  length (pushEvents Date_parse Date_now k p settings []) =
  ((if ProcessedAttendee.hasRegistration p then 1 else 0) +
   (if ProcessedAttendee.hasAttendance p then 1 else 0))%nat.
Proof.
  unfold pushEvents.
  by destruct (ProcessedAttendee.hasRegistration p),
    (ProcessedAttendee.hasAttendance p).
Qed.

Lemma createIntercomEvents_from_length Date_now k attendees settings :
  length (createIntercomEvents_from Date_parse Date_now k attendees settings []) =
  (length (filter (fun p => ProcessedAttendee.hasRegistration p = true) attendees) +
   length (filter (fun p => ProcessedAttendee.hasAttendance p = true) attendees))%nat.
Proof.
  revert k. induction attendees as [|p rest IH]; intros k; simpl; [done|].
  rewrite createIntercomEvents_from_app, length_app, pushEvents_length, IH.
  rewrite !filter_cons.
  destruct (ProcessedAttendee.hasRegistration p),
    (ProcessedAttendee.hasAttendance p);
    repeat case_decide; try done; simpl; lia.
Qed.

(** X17. The number of derived events is the number of attendees with a
    registration plus the number of attendees with an attendance. It is
    therefore at most twice the number of attendees, and it is zero exactly
    when no attendee has either flag. *)
Theorem createIntercomEvents_count Date_now attendees settings :
  let events := createIntercomEvents Date_parse Date_now attendees settings in
  length events =
    (length (filter (fun p => ProcessedAttendee.hasRegistration p = true) attendees) +
     length (filter (fun p => ProcessedAttendee.hasAttendance p = true) attendees))%nat /\
  (length events <= 2 * length attendees)%nat /\
  (events = [] <->
   Forall (fun p => ProcessedAttendee.hasRegistration p = false /\
                    ProcessedAttendee.hasAttendance p = false) attendees).
Proof.
  intros events.
  pose proof (createIntercomEvents_from_length Date_now 0 attendees settings) as Hlen.
  fold (createIntercomEvents Date_parse Date_now attendees settings) in Hlen.
  fold events in Hlen. split; [exact Hlen|]. split.
  - rewrite Hlen.
    pose proof (length_filter (fun p => ProcessedAttendee.hasRegistration p = true) attendees).
    pose proof (length_filter (fun p => ProcessedAttendee.hasAttendance p = true) attendees).
    lia.
  - rewrite <- length_zero_iff_nil, Hlen. clear. induction attendees as [|p rest IH].
    + split; [constructor | done].
    + rewrite Forall_cons, <- IH, !filter_cons.
      destruct (ProcessedAttendee.hasRegistration p),
        (ProcessedAttendee.hasAttendance p);
        repeat case_decide; try done; simpl;
        intuition (try lia; try discriminate).
Qed.

Lemma pushEvents_untimed now1 now2 k1 k2 p settings :
  untimed <$> pushEvents Date_parse now1 k1 p settings [] =
  untimed <$> pushEvents Date_parse now2 k2 p settings [].
Proof.
  unfold pushEvents.
  by destruct (ProcessedAttendee.hasRegistration p),
    (ProcessedAttendee.hasAttendance p).
Qed.

Lemma timestamp_dated now1 now2 date d ms :
  date = Some d -> d <> "" -> Date_parse d = Some ms ->
  timestamp Date_parse now1 date = timestamp Date_parse now2 date.
Proof.
  intros -> Hd Hms. unfold timestamp. apply truthy_spec in Hd. by rewrite Hd, Hms.
Qed.

Lemma pushEvents_dated now1 now2 k1 k2 p settings :
  datedBy Date_parse p ->
  pushEvents Date_parse now1 k1 p settings [] =
  pushEvents Date_parse now2 k2 p settings [].
Proof.
  intros [Hr Ha]. unfold pushEvents.
  destruct (ProcessedAttendee.hasRegistration p),
    (ProcessedAttendee.hasAttendance p); simpl; try done.
  - destruct (Hr eq_refl) as (d & ms & H1 & H2 & H3).
    destruct (Ha eq_refl) as (d' & ms' & H1' & H2' & H3').
    by rewrite (timestamp_dated (now1 k1 / 1000)%Z (now2 k2 / 1000)%Z _ d ms),
      (timestamp_dated (now1 k1 / 1000)%Z (now2 k2 / 1000)%Z _ d' ms').
  - destruct (Hr eq_refl) as (d & ms & H1 & H2 & H3).
    by rewrite (timestamp_dated (now1 k1 / 1000)%Z (now2 k2 / 1000)%Z _ d ms).
  - destruct (Ha eq_refl) as (d' & ms' & H1' & H2' & H3').
    by rewrite (timestamp_dated (now1 k1 / 1000)%Z (now2 k2 / 1000)%Z _ d' ms').
Qed.

(** X18. The clock influences the derived events through [created_at]
    only: two derivations of the same attendees at different times agree
    on every other field of every event, and they agree completely when the
    date that stamps each event is present and parses. *)
Theorem createIntercomEvents_clock now1 now2 attendees settings :
  untimed <$> createIntercomEvents Date_parse now1 attendees settings =
  untimed <$> createIntercomEvents Date_parse now2 attendees settings /\
  (Forall (datedBy Date_parse) attendees ->
   createIntercomEvents Date_parse now1 attendees settings =
   createIntercomEvents Date_parse now2 attendees settings).
Proof.
  unfold createIntercomEvents. generalize 0%nat at 1 3 as k1.
  generalize 0%nat as k2. induction attendees as [|p rest IH]; intros k2 k1.
  - by split.
  - simpl. rewrite (createIntercomEvents_from_app _ now1),
      (createIntercomEvents_from_app _ now2), !fmap_app.
    destruct (IH (S k2) (S k1)) as [IH1 IH2]. split.
    + by rewrite IH1, (pushEvents_untimed now1 now2 k1 k2).
    + intros [Hp Hrest]%Forall_cons.
      by rewrite IH2, (pushEvents_dated now1 now2 k1 k2).
Qed.

End DerivationCount.

Lemma createIntercomEvents_clock_witness :
  createIntercomEvents parseNewYear fixedNow [classify (bareAttendee true false)] None =
  createIntercomEvents parseNewYear (fun _ => 0%Z) [classify (bareAttendee true false)] None.
Proof.
  apply (createIntercomEvents_clock parseNewYear).
  repeat constructor; [|done]. intros _. by exists "2024-01-01", 1704067200000%Z.
Defined.

(** ** Contact resolver, continued *)

Section ResolverFacts.

Context {World U : Type} `{api : IntercomApi World}.
Variable env : Env.

Implicit Types s : State World U.

(** X19. The resolver searches for or updates a contact only after the
    create call was rejected with status 409 or 422. When the create call
    resolves, and when it fails with an error that is not a remote-API
    error, the resolver does nothing more and logs nothing. *)
Theorem resolver_follow_up_only_on_conflict email name phone testMode s :
  configured env testMode ->
  exists s1 tr,
    ensureUserExists env email name phone testMode s = (Ok tt, s1) /\
    trace s1 = trace s ++ ContactsCreate (userDataOf email name phone) :: tr /\
    (Exists contactFollowUp tr ->
     exists code message body w,
       contacts_create (clientOf env testMode) (userDataOf email name phone) (remote s)
       = (Throw (IntercomError (Some code) message body), w) /\
       (code = 409%Z \/ code = 422%Z)) /\
    (forall r w,
       contacts_create (clientOf env testMode) (userDataOf email name phone) (remote s)
       = (r, w) ->
       (forall code message body, r <> Throw (IntercomError code message body)) ->
       tr = [] /\ remote s1 = w).
Proof.
  intros Hc. unfold ensureUserExists, bind.
  rewrite getIntercomClient_configured by done.
  unfold try_catch, await, findAndUpdate, bind, await, console_warn, log, ret.
  simpl. fold (userDataOf email name phone).
  destruct (contacts_create _ _ _) as [[[]|[code message body|message|]] w] eqn:Hcreate.
  - eexists _, []. split_and!; [done | done | by intros ?%Exists_nil |].
    by intros r w' [= <- <-] _.
  - destruct (bool_decide (code = Some 422%Z) || bool_decide (code = Some 409%Z))
      eqn:Hcode.
    + assert (exists c, code = Some c /\ (c = 409%Z \/ c = 422%Z)) as (c & -> & Hc').
      { apply orb_true_iff in Hcode. rewrite !bool_decide_eq_true in Hcode.
        destruct Hcode as [-> | ->]; eexists; split; eauto. }
      repeat (case_match; simplify_eq/=);
        repeat match goal with u : unit |- _ => destruct u end;
        eexists _, _; (split; [reflexivity|]); simpl;
        rewrite <- ?app_assoc; simpl; (split; [reflexivity|]);
        (split; [intros _; by eexists c, message, body, w
                | intros r w' [= <- <-] Hr; by destruct (Hr (Some c) message body)]).
    + eexists _, [ConsoleWarn _]. simpl. rewrite <- app_assoc.
      split_and!; [done | done | |].
      * intros [H|H%Exists_nil]%Exists_cons; done.
      * intros r w' [= <- <-] Hr. by destruct (Hr code message body).
  - eexists _, []. split_and!; [done | done | by intros ?%Exists_nil |].
    by intros r w' [= <- <-] _.
  - eexists _, []. split_and!; [done | done | by intros ?%Exists_nil |].
    by intros r w' [= <- <-] _.
Qed.

End ResolverFacts.

Lemma resolver_follow_up_only_on_conflict_witness :
  exists s1,
    ensureUserExists liveOnly "a@x.com" (Some "Ada") None false (demoState [] tt)
    = (Ok tt, s1) /\
    trace s1 = [ContactsCreate (userDataOf "a@x.com" (Some "Ada") None)] /\
    remote s1 = ["a@x.com"].
Proof.
  destruct (resolver_follow_up_only_on_conflict liveOnly "a@x.com" (Some "Ada") None
              false (demoState [] tt) liveOnly_configured)
    as (s1 & tr & Hrun & Htr & _ & Hquiet).
  destruct (Hquiet (Ok tt) ["a@x.com"] eq_refl) as [-> Hw]; [done|].
  by exists s1.
Defined.

(** ** Event payload *)

Lemma metadataField_keys m :
  definedEntries (Some m) =
  omap (fun key => match metadataField m key with
                   | Some v => if Js.truthy v then Some (key, v) else None
                   | None => None
                   end)
    ["event_name"; "event_date"; "ticket_type"; "presenter"].
Proof. done. Qed.

(** X20. The metadata that is sent holds exactly the fields of the event's
    metadata that are defined and not empty, under their own keys: an entry
    never has an empty value, and when no field qualifies the payload has
    no metadata at all rather than an empty object. *)
Theorem eventPayload_metadata (event : IntercomEvent.t) :
  EventPayload.event_name (eventPayload event) = IntercomEvent.event_name event /\
  EventPayload.created_at (eventPayload event) = IntercomEvent.created_at event /\
  EventPayload.email (eventPayload event) = IntercomEvent.email event /\
  (forall key v,
     (exists entries, EventPayload.metadata (eventPayload event) = Some entries /\
        (key, v) ∈ entries) <->
     v <> "" /\ exists m, IntercomEvent.metadata event = Some m /\
       metadataField m key = Some v) /\
  EventPayload.metadata (eventPayload event) <> Some [].
Proof.
  split_and!; try done.
  - intros key v. unfold eventPayload. cbn [EventPayload.metadata].
    assert ((key, v) ∈ definedEntries (IntercomEvent.metadata event) <->
            v <> "" /\ exists m, IntercomEvent.metadata event = Some m /\
              metadataField m key = Some v) as Hin.
    { destruct (IntercomEvent.metadata event) as [m|].
      - rewrite metadataField_keys, list_elem_of_omap. split.
        + intros (k & Hk & Hkv). destruct (metadataField m k) as [x|] eqn:Hx; [|done].
          destruct (Js.truthy x) eqn:Ht; [|done]. injection Hkv as -> ->.
          split; [by apply truthy_spec | by exists m].
        + intros (Hv & m' & [= <-] & Hf). exists key. split.
          * unfold metadataField in Hf. repeat case_match; try done;
              match goal with H : String.eqb _ _ = true |- _ =>
                apply String.eqb_eq in H as -> end; set_solver.
          * apply truthy_spec in Hv. by rewrite Hf, Hv.
      - simpl. rewrite elem_of_nil. split; [done | by intros (_ & m & ? & _)]. }
    rewrite <- Hin. destruct (definedEntries (IntercomEvent.metadata event)) as [|x l];
      simpl.
    + rewrite elem_of_nil. split; [by intros (? & ? & ?) | done].
    + split; [by intros (? & [= <-] & ?) | intros H; by eexists].
  - unfold eventPayload. cbn [EventPayload.metadata].
    by destruct (definedEntries (IntercomEvent.metadata event)).
Qed.

(** ** Batch publishing, continued *)

Section BatchFacts.

Context {World U : Type} `{api : IntercomApi World}.
Variable env : Env.

Implicit Types s : State World U.

Lemma submissions_app tr1 tr2 :
  submissions (tr1 ++ tr2) = submissions tr1 ++ submissions tr2.
Proof. apply omap_app. Qed.

Lemma creations_app tr1 tr2 :
  creations (tr1 ++ tr2) = creations tr1 ++ creations tr2.
Proof. apply omap_app. Qed.

Lemma resolverFollowUp_quiet email name phone tr :
  Forall (resolverFollowUp email name phone) tr ->
  submissions tr = [] /\ creations tr = [].
Proof.
  induction 1 as [|a tr Ha _ [IH1 IH2]]; [done|].
  destruct a; simpl in *; done.
Qed.

Lemma pacingActions_quiet total :
  submissions (pacingActions total) = [] /\ creations (pacingActions total) = [].
Proof. unfold pacingActions. by case_match. Qed.

(** Publishing one event creates one contact and submits one payload. *)
Lemma publishEvent_calls event testMode s :
  configured env testMode ->
  exists r s',
    publishEvent env event testMode s = (Ok r, s') /\
    locals s' = locals s /\
    submissions (trace s') = submissions (trace s) ++ [eventPayload event] /\
    creations (trace s') = creations (trace s) ++ [contactOf event].
Proof.
  intros Hc. destruct (publishEvent_run env event testMode s Hc) as (s1 & Hres & Hrun).
  destruct (ensureUserExists_returns env (IntercomEvent.email event)
    (IntercomEvent.name event) (IntercomEvent.phone_number event) testMode s Hc)
    as (s1' & tr & Hres' & Hloc & Htr & Hall).
  rewrite Hres in Hres'. injection Hres' as <-.
  destruct (resolverFollowUp_quiet _ _ _ _ Hall) as [Hs Hcr].
  eexists _, _. split; [exact Hrun|]. simpl. rewrite Htr.
  rewrite !submissions_app, !creations_app. simpl.
  rewrite Hs, Hcr. by rewrite !app_nil_r.
Qed.

Lemma publishEvents_from_calls events testMode todo results s :
  configured env testMode ->
  exists rs s',
    publishEvents_from env events todo testMode results s = (Ok rs, s') /\
    submissions (trace s') = submissions (trace s) ++ (eventPayload <$> todo) /\
    creations (trace s') = creations (trace s) ++ (contactOf <$> todo).
Proof.
  intros Hc. revert results s.
  induction todo as [|e todo IH]; intros results s; simpl.
  - exists results, s. by rewrite !app_nil_r.
  - destruct (publishEvent_calls e testMode s Hc) as (r & s1 & Hrun & _ & Hs & Hcr).
    unfold bind at 1. rewrite Hrun. unfold bind. rewrite pacing_run.
    edestruct (IH (results ++ [r])) as (rs & s' & Hloop & Hs' & Hcr').
    rewrite Hloop. exists rs, s'. simpl in *. split; [done|].
    destruct (pacingActions_quiet (length events)) as [Hp1 Hp2].
    rewrite Hs', Hcr', submissions_app, creations_app, Hp1, Hp2, Hs, Hcr.
    by rewrite !app_nil_r, <- !app_assoc.
Qed.

Lemma publishEventsWithProgress_from_calls (cb : Callback U) events testMode todo i s :
  configured env testMode ->
  neverThrows cb ->
  exists s',
    publishEventsWithProgress_from env events todo i cb testMode s = (Ok tt, s') /\
    submissions (trace s') = submissions (trace s) ++ (eventPayload <$> todo) /\
    creations (trace s') = creations (trace s) ++ (contactOf <$> todo).
Proof.
  intros Hc Hcb. revert i s.
  induction todo as [|e todo IH]; intros i s; simpl.
  - exists s. by rewrite !app_nil_r.
  - destruct (publishEvent_calls e testMode s Hc) as (r & s1 & Hrun & _ & Hs & Hcr).
    unfold bind at 1. rewrite Hrun. unfold bind at 1, call_onProgress.
    destruct (Hcb r (i + 1) (length events) (locals s1)) as (u' & Hu).
    rewrite Hu. unfold bind. rewrite pacing_run. simpl.
    edestruct (IH (S i)) as (s' & Hloop & Hs' & Hcr').
    rewrite Hloop. exists s'. simpl in *. split; [done|].
    destruct (pacingActions_quiet (length events)) as [Hp1 Hp2].
    rewrite Hs', Hcr', !submissions_app, !creations_app, Hp1, Hp2, Hs, Hcr.
    simpl. by rewrite !app_nil_r, <- !app_assoc.
Qed.

(** X21. With the selected token set, a batch creates one contact and
    submits one payload per event, in event order and each built from its
    own event, and makes no other create or submit call: no event is
    skipped, repeated or reordered, whether or not earlier events failed.
    This holds for [publishEvents] and, when the callback does not throw,
    for [publishEventsWithProgress]. *)
Theorem batch_submits_each_event_once events testMode (cb : Callback U) s :
  configured env testMode ->
  neverThrows cb ->
  (exists rs s',
     publishEvents env events testMode s = (Ok rs, s') /\
     submissions (trace s') = submissions (trace s) ++ (eventPayload <$> events) /\
     creations (trace s') = creations (trace s) ++ (contactOf <$> events)) /\
  (exists s',
     publishEventsWithProgress env events cb testMode s = (Ok tt, s') /\
     submissions (trace s') = submissions (trace s) ++ (eventPayload <$> events) /\
     creations (trace s') = creations (trace s) ++ (contactOf <$> events)).
Proof.
  intros Hc Hcb. split.
  - by apply publishEvents_from_calls.
  - by apply publishEventsWithProgress_from_calls.
Qed.

End BatchFacts.

Lemma batch_submits_each_event_once_witness :
  exists rs s',
    publishEvents liveOnly twoEvents false freshCollector = (Ok rs, s') /\
    submissions (trace s') = eventPayload <$> twoEvents.
Proof.
  destruct (batch_submits_each_event_once liveOnly twoEvents false collect
              freshCollector liveOnly_configured collect_neverThrows)
    as [(rs & s' & Hrun & Hs & _) _].
  by exists rs, s'.
Defined.

(** ** Credentials, continued *)

Section TokenFacts.

Context {World : Type} `{api : IntercomApi World}.

Lemma bind_ext {U A B} (m1 m2 : M World U A) (k1 k2 : A -> M World U B) s :
  m1 s = m2 s ->
  (forall a s', k1 a s' = k2 a s') ->
  bind m1 k1 s = bind m2 k2 s.
Proof.
  intros Hm Hk. unfold bind. rewrite Hm.
  destruct (m2 s) as [[a|err] s']; [apply Hk | done].
Qed.

Lemma publishEventsWithProgress_from_token {U} (env1 env2 : Env) (cb : Callback U)
    events todo i testMode (s : State World U) :
  accessToken env1 testMode = accessToken env2 testMode ->
  publishEventsWithProgress_from env1 events todo i cb testMode s =
  publishEventsWithProgress_from env2 events todo i cb testMode s.
Proof.
  intros H. revert i s. induction todo as [|e todo IH]; intros i s; simpl; [done|].
  apply bind_ext; [by apply publishEvent_token|]. intros r s1.
  apply bind_ext; [done|]. intros _ s2.
  apply bind_ext; [done|]. intros _ s3. apply IH.
Qed.

Lemma publishEvents_from_token {U} (env1 env2 : Env) events todo testMode results
    (s : State World U) :
  accessToken env1 testMode = accessToken env2 testMode ->
  publishEvents_from env1 events todo testMode results s =
  publishEvents_from env2 events todo testMode results s.
Proof.
  intros H. revert results s.
  induction todo as [|e todo IH]; intros results s; simpl; [done|].
  apply bind_ext; [by apply publishEvent_token|]. intros r s1.
  apply bind_ext; [done|]. intros _ s3. apply IH.
Qed.

(** X22. A run reads only the access token that the flag selects: two
    environments that agree on that token give the same batch results, the
    same calls and the same response of the upload route, whatever the
    other token is. In particular a test-mode upload does not depend on
    the live token. *)
Theorem selected_token_only (env1 env2 : Env) Date_parse Date_now rows mapping
    settings testMode events (w : World) {U} (s : State World U) :
  accessToken env1 testMode = accessToken env2 testMode ->
  publishEvents env1 events testMode s = publishEvents env2 events testMode s /\
  POST env1 Date_parse Date_now rows mapping settings testMode w =
  POST env2 Date_parse Date_now rows mapping settings testMode w.
Proof.
  intros H. split; [by apply publishEvents_from_token|].
  unfold POST. destruct (extractAttendees rows mapping testMode) as [attendees errors].
  repeat case_match; try done. f_equal.
  unfold start, bind, finally, try_catch, bind, publishEventsWithProgress.
  destruct (sendMessage _ _) as [[[]|err] s1]; [|done].
  destruct (on_locals _ s1) as [[[]|err] s2]; [|done].
  by rewrite (publishEventsWithProgress_from_token env1 env2).
Qed.

End TokenFacts.

Lemma selected_token_only_witness :
  publishEvents bothTokens twoEvents false freshCollector =
  publishEvents liveOnly twoEvents false freshCollector.
Proof.
  apply (selected_token_only bothTokens liveOnly noParse fixedNow [] demoMapping None
           false twoEvents [] freshCollector).
  reflexivity.
Defined.

(** ** Independence from the caller's variables *)

Section FrameFacts.

Context {World : Type} `{api : IntercomApi World}.
Variable env : Env.

Lemma configured_dec testMode : {configured env testMode} + {~ configured env testMode}.
Proof.
  destruct (Js.truthy_opt (accessToken env testMode)) eqn:Htok.
  - left. by apply truthy_opt_spec.
  - right. unfold configured. rewrite <- truthy_opt_spec. by rewrite Htok.
Qed.

Lemma bind_run {U A B} (m : M World U A) (k : A -> M World U B) s :
  bind m k s =
  match m s with
  | (Ok a, s') => k a s'
  | (Throw e, s') => (Throw e, s')
  end.
Proof. done. Qed.

Lemma ensureUserExists_frame {U V} email name phone testMode
    (s : State World U) (s' : State World V) :
  remote s = remote s' ->
  (ensureUserExists env email name phone testMode s).1 =
  (ensureUserExists env email name phone testMode s').1 /\
  remote (ensureUserExists env email name phone testMode s).2 =
  remote (ensureUserExists env email name phone testMode s').2.
Proof.
  intros Hr. destruct s as [w tr u], s' as [w' tr' u']. simpl in Hr. subst w'.
  unfold ensureUserExists, bind, getIntercomClient, throw, ret.
  destruct (negb _); [done|].
  unfold try_catch, await, findAndUpdate, bind, await, console_warn, log, ret. simpl.
  destruct (contacts_create _ _ _) as [[[]|[code message body|message|]] w1]; simpl;
    try done.
  destruct (_ || _); simpl; [|done].
  destruct (contacts_search _ _ _) as [[sr|err] w2]; simpl; [|done].
  destruct (SearchResult.data sr) as [[|c l]|]; simpl; try done.
  destruct (_ || _); simpl; [|done].
  by destruct (contacts_update _ _ _) as [[[]|err] w3].
Qed.

Lemma publishEvent_frame {U V} event testMode
    (s : State World U) (s' : State World V) :
  remote s = remote s' ->
  (publishEvent env event testMode s).1 = (publishEvent env event testMode s').1 /\
  remote (publishEvent env event testMode s).2 =
  remote (publishEvent env event testMode s').2.
Proof.
  intros Hr. destruct (configured_dec testMode) as [Hc|Hc].
  - destruct (publishEvent_run env event testMode s Hc) as (s1 & Hres & ->).
    destruct (publishEvent_run env event testMode s' Hc) as (s1' & Hres' & ->).
    destruct (ensureUserExists_frame (IntercomEvent.email event)
      (IntercomEvent.name event) (IntercomEvent.phone_number event) testMode s s' Hr)
      as [_ Hw].
    rewrite Hres, Hres' in Hw. simpl in *. by rewrite Hw.
  - by rewrite !publishEvent_unset.
Qed.

Lemma publishEvent_locals {U} event testMode (s : State World U) :
  locals (publishEvent env event testMode s).2 = locals s.
Proof.
  destruct (configured_dec testMode) as [Hc|Hc].
  - destruct (publishEvent_steps env event testMode s Hc)
      as (r & s1 & tr & -> & Hloc & _). done.
  - by rewrite publishEvent_unset.
Qed.

Lemma publishEvents_from_collect events testMode todo results
    (s s' : State World (list ProcessingResult.t)) i :
  remote s = remote s' ->
  let plain := publishEvents_from env events todo testMode results s in
  let progress :=
    publishEventsWithProgress_from env events todo i collect testMode s' in
  remote plain.2 = remote progress.2 /\
  match plain.1 with
  | Ok rs =>
      progress.1 = Ok tt /\
      exists new, rs = results ++ new /\ locals progress.2 = locals s' ++ new
  | Throw e => progress.1 = Throw e
  end.
Proof.
  revert results s s' i. induction todo as [|e todo IH]; intros results s s' i Hr; simpl.
  - split; [done|]. split; [done|]. exists []. by rewrite !app_nil_r.
  - destruct (publishEvent_frame e testMode s s' Hr) as [Hres Hw].
    pose proof (publishEvent_locals e testMode s') as Hl.
    rewrite !(bind_run (publishEvent env e testMode)).
    destruct (publishEvent env e testMode s) as [[r|err] s1],
      (publishEvent env e testMode s') as [[r'|err'] s1']; simpl in Hres, Hw, Hl;
      try done; [|by injection Hres as <-].
    injection Hres as <-.
    rewrite (bind_run (call_onProgress _ _ _ _)).
    unfold call_onProgress, collect at 1. simpl.
    rewrite !(bind_run (pacing events)), !pacing_run.
    match goal with |- context [publishEventsWithProgress_from _ _ _ _ _ _ ?st] =>
      destruct (IH (results ++ [r])
        (mkState (remote s1) (trace s1 ++ pacingActions (length events)) (locals s1))
        st (S i) Hw) as [IHw IHr] end.
    split; [exact IHw|].
    destruct (publishEvents_from _ _ _ _ _ _) as [[rs|err] s2]; simpl in *; [|done].
    destruct IHr as (Hok & new & -> & Hloc). split; [done|].
    exists (r :: new). split; [by rewrite <- app_assoc|]. rewrite Hloc, Hl. by rewrite <- !app_assoc.
Qed.

(** X23. The two orchestrators do the same work: from the same remote
    state, [publishEventsWithProgress] with a callback that appends each
    outcome to a list hands over exactly the list that [publishEvents]
    returns and leaves the remote system in the same state; and when one
    raises, the other raises the same error. *)
Theorem orchestrators_agree events testMode (s : State World (list ProcessingResult.t)) :
  let plain := publishEvents env events testMode s in
  let progress := publishEventsWithProgress env events collect testMode s in
  remote plain.2 = remote progress.2 /\
  match plain.1 with
  | Ok rs => progress.1 = Ok tt /\ locals progress.2 = locals s ++ rs
  | Throw e => progress.1 = Throw e
  end.
Proof.
  intros plain progress.
  destruct (publishEvents_from_collect events testMode events [] s s 0 eq_refl)
    as [Hw Hr].
  split; [exact Hw|]. unfold plain, progress, publishEvents, publishEventsWithProgress.
  destruct (publishEvents_from _ _ _ _ _ _).1 as [rs|err]; [|done].
  by destruct Hr as (Hok & new & -> & Hloc).
Qed.

End FrameFacts.

(** ** The upload route, continued *)

Lemma extractAttendees_redirected rows mapping testMode :
  (extractAttendees rows mapping testMode).1 =
  redirected testMode <$> omap (acceptedRow mapping) rows.
Proof.
  unfold extractAttendees. destruct testMode.
  - destruct (extractAttendees_from_test 0 rows mapping) as [-> _].
    by rewrite extractAttendees_from_live.
  - rewrite extractAttendees_from_live. unfold redirected.
    by rewrite list_fmap_id.
Qed.

Lemma noSignal_redirected testMode a : noSignal (redirected testMode a) <-> noSignal a.
Proof. by destruct testMode. Qed.

Lemma createIntercomEvents_nil Date_parse Date_now attendees settings :
  createIntercomEvents Date_parse Date_now (processAttendees attendees) settings = [] <->
  Forall noSignal attendees.
Proof.
  rewrite <- length_zero_iff_nil. unfold createIntercomEvents.
  rewrite createIntercomEvents_from_length. unfold processAttendees.
  induction attendees as [|a rest IH]; [split; [constructor | done]|].
  rewrite Forall_cons, <- IH. unfold noSignal at 1. cbn [map]. rewrite !filter_cons.
  destruct (ProcessedAttendee.hasRegistration (classify a)),
    (ProcessedAttendee.hasAttendance (classify a));
    repeat case_decide; try done; simpl;
    intuition (try lia; try discriminate).
Qed.

Lemma successes_failures rs : (successes rs + failures rs = length rs)%nat.
Proof.
  induction rs as [|r rs IH] using rev_ind; [done|].
  rewrite successes_snoc, failures_snoc, length_app. simpl.
  destruct (ProcessingResult.success r); lia.
Qed.

Lemma progressOf_countsAddUp rs :
  Forall (countsAddUp (length rs)) (progressOf (length rs) rs).
Proof.
  apply Forall_lookup. intros j m. unfold progressOf. rewrite list_lookup_imap.
  destruct (rs !! j) as [r|] eqn:Hj; [|done]. intros [= <-]. simpl.
  apply lookup_lt_Some in Hj. rewrite successes_failures, length_take. lia.
Qed.

Section RouteFacts.

Context {World : Type} `{api : IntercomApi World}.
Variable env : Env.
Variable Date_parse : string -> option Z.
Variable Date_now : nat -> Z.

(** X24. For rows that answer every mapped column with a cell or with
    nothing (elsewhere the source raises a [TypeError] and answers 500),
    the answer of the upload route is decided by the accepted rows (the
    rows that are not invited and have a valid email): it is the 400
    "no valid attendees" answer, with the row errors, exactly when no row
    is accepted; the 400 "no events" answer, with the number of accepted
    rows, exactly when rows are accepted but none of them carries a
    registration or attendance signal; and the event stream exactly when
    some accepted row carries such a signal. Test mode does not change
    which answer is given. *)
Theorem POST_response rows mapping settings testMode (w : World) :
  forallb (plainRow mapping) rows = true ->
  let accepted := omap (acceptedRow mapping) rows in
  let response := POST env Date_parse Date_now rows mapping settings testMode w in
  ((exists errors, response = NoValidAttendees errors) <-> accepted = []) /\
  ((exists n, response = NoEvents n) <->
     accepted <> [] /\ Forall noSignal accepted) /\
  ((exists run, response = EventStream run) <->
     Exists (fun a => ~ noSignal a) accepted) /\
  (forall errors, response = NoValidAttendees errors ->
     errors = (extractAttendees rows mapping testMode).2) /\
  (forall n, response = NoEvents n -> n = length accepted).
Proof.
  intros _ accepted response. unfold response, POST.
  pose proof (extractAttendees_redirected rows mapping testMode) as Hacc.
  fold accepted in Hacc.
  destruct (extractAttendees rows mapping testMode) as [attendees errors].
  simpl in Hacc.
  assert (length attendees = length accepted) as Hlen
    by (by rewrite Hacc, length_fmap).
  assert (Forall noSignal attendees <-> Forall noSignal accepted) as Hsig.
  { rewrite Hacc, Forall_fmap. apply Forall_proper; [|done].
    intros a. apply noSignal_redirected. }
  pose proof (createIntercomEvents_nil Date_parse Date_now attendees settings) as Hnil.
  destruct (Nat.eqb_spec (length attendees) 0) as [H0|H0].
  - assert (accepted = []) as Hempty
      by (apply length_zero_iff_nil; lia).
    rewrite Hempty. split_and!.
    + split; [done | by eexists].
    + split; [by intros [? ?] | by intros [? _]].
    + split; [by intros [? ?] | by intros ?%Exists_nil].
    + by intros ? [= <-].
    + done.
  - assert (accepted <> []) as Hsome.
    { intros Hempty. rewrite Hempty in Hlen. simpl in Hlen. lia. }
    destruct (Nat.eqb_spec (length (createIntercomEvents Date_parse Date_now
      (processAttendees attendees) settings)) 0) as [H1|H1].
    + assert (Forall noSignal accepted) as Hall
        by (by apply Hsig, Hnil, length_zero_iff_nil).
      split_and!.
      * split; [by intros [? ?] | done].
      * split; [done | by eexists].
      * split; [by intros [? ?]|].
        intros Hex. apply Exists_not_Forall in Hex. done.
      * done.
      * by intros ? [= <-].
    + assert (~ Forall noSignal accepted) as Hnot.
      { rewrite <- Hsig, <- Hnil. intros Hn. by rewrite Hn in H1. }
      split_and!.
      * split; [by intros [? ?] | done].
      * split; [by intros [? ?] | by intros [_ ?]].
      * split; [intros _; by apply (not_Forall_Exists _) in Hnot | by eexists].
      * done.
      * done.
Qed.

(** X25. Every message of the progress stream has counters that add up,
    whether or not the access token is set: the start message announces
    the number of events; in a progress message [successful + failed] is
    its index, which lies between 1 and the announced total; and in the
    terminal [complete] message [successful + failed] and the number of
    listed results are both the number of events. *)
Theorem stream_counts_add_up events totalProcessed errors testMode (w : World) :
  Forall (countsAddUp (length events))
    (chunks (controller (locals
       (start env events totalProcessed errors testMode (freshStream w)).2))).
Proof.
  destruct (Js.truthy_opt (accessToken env testMode)) eqn:Htok;
    [|destruct events as [|e events]].
  - apply truthy_opt_spec in Htok.
    destruct (start_completes env events totalProcessed errors testMode w
                (or_introl Htok)) as (steps & s' & Hrun & Hall & _ & Hloc).
    rewrite Hrun. simpl. rewrite Hloc. simpl. apply Forall2_length in Hall.
    assert (length events = length steps.*2) as -> by (by rewrite length_fmap).
    constructor; [done|]. apply Forall_app. split; [apply progressOf_countsAddUp|].
    constructor; [|done]. simpl. by rewrite successes_failures.
  - destruct (start_completes env [] totalProcessed errors testMode w
                (or_intror eq_refl)) as (steps & s' & Hrun & Hall & _ & Hloc).
    rewrite Hrun. simpl. rewrite Hloc.
    apply Forall2_nil_inv_l in Hall as ->. simpl. by repeat constructor.
  - assert (~ configured env testMode) as Hc.
    { unfold configured. rewrite <- truthy_opt_spec. by rewrite Htok. }
    rewrite start_raises by done. simpl. by repeat constructor.
Qed.

End RouteFacts.

Lemma POST_response_witness :
  exists run,
    POST liveOnly noParse fixedNow [registeredRow] demoMapping None false
      ([] : list string) = EventStream run.
Proof.
  destruct (POST_response liveOnly noParse fixedNow [registeredRow] demoMapping None
              false ([] : list string) eq_refl) as (_ & _ & [_ Hstream] & _).
  apply Hstream. vm_compute. left. by intros [H _].
Defined.

